(** * av-organizer: a shallow embedding of [src/index.js]

    The program scans the working directory, extracts a descriptor per
    file, groups the descriptors by the part of the file name before the
    first dot, reduces every group to one type and one date, prints the
    plan and, in move mode, creates the directories and renames the files.

    JavaScript values are modelled by Rocq types: [undefined]/[null] by
    [None], objects used as maps by insertion-ordered association lists
    ([JsObject]), [Date] objects by their time value in milliseconds.
    The filesystem, the MIME table and the EXIF reader are collaborators
    of the program and are taken as an interface ([Collaborators]). *)

From Stdlib Require Import ZArith Lia Bool List Ascii String.
From Stdlib Require DecimalString.
From stdpp Require Import base list strings.
Import ListNotations.

Local Open Scope string_scope.
Local Open Scope list_scope.

(** ** JavaScript strings *)

Module JsString.

(** [s.split(c)] for a one-character separator.  The result of [split]
    is never empty: it is given as its first segment and the others. *)
Fixpoint split (c : ascii) (s : string) : string * list string :=
  match s with
  | EmptyString => (EmptyString, [])
  | String a s' =>
      let '(seg, segs) := split c s' in
      if Ascii.eqb a c then (EmptyString, seg :: segs)
      else (String a seg, segs)
  end.

(** The array that [split] returns. *)
Definition split_array (c : ascii) (s : string) : list string :=
  fst (split c s) :: snd (split c s).

(** [a.shift()]: the removed first element and the array left. *)
Definition shift {A} (a : list A) : option A * list A :=
  match a with
  | [] => (None, [])
  | x :: rest => (Some x, rest)
  end.

(** [a.pop()]: the removed last element ([undefined] on an empty array). *)
Definition pop {A} (a : list A) : option A := last a.

(** [a.includes(x)] on an array of strings, for a string or [undefined]. *)
Definition includes (a : list string) (x : option string) : bool :=
  match x with
  | Some s => existsb (String.eqb s) a
  | None => false
  end.

(** [s.substring(0, n)]. *)
Definition substring0 (n : nat) (s : string) : string := String.substring 0 n s.

(** Truthiness of a string-or-undefined value. *)
Definition truthy (x : option string) : bool :=
  match x with
  | Some s => negb (String.eqb s EmptyString)
  | None => false
  end.

(** [x || d] for a string-or-undefined [x] and a string [d]. *)
Definition or_else (x : option string) (d : string) : string :=
  match x with
  | Some s => if String.eqb s EmptyString then d else s
  | None => d
  end.

(** Does the character occur in the string? *)
Fixpoint has_char (c : ascii) (s : string) : bool :=
  match s with
  | EmptyString => false
  | String a s' => Ascii.eqb a c || has_char c s'
  end.

(** The default order of [Array.prototype.sort]: code units, one by one. *)
Definition code_unit_le (s1 s2 : string) : bool := String.leb s1 s2.

(** Insertion into a list sorted by the strings [key] gives; an element
    goes after the elements it is equal to, so that the sort is stable. *)
Fixpoint insert_sorted {A} (key : A -> string) (x : A) (l : list A) : list A :=
  match l with
  | [] => [x]
  | y :: l' =>
      if code_unit_le (key y) (key x) then y :: insert_sorted key x l'
      else x :: y :: l'
  end.

(** [a.sort()] with no comparison function: the elements are ordered by
    their conversion to a string ([key]); the sort is stable. *)
Definition sort_default {A} (key : A -> string) (a : list A) : list A :=
  fold_left (fun acc x => insert_sorted key x acc) a [].

End JsString.

(** ** Node's [path] module (POSIX) *)

Module NodePath.

Definition sep : ascii := "/"%char.

(** One segment of [normalizeString]: empty segments and [.] are
    dropped, [..] removes the segment before it (or stays, above the
    root of a relative path), any other segment is kept.  The segments
    kept so far are held last first. *)
Definition norm_step (allowAboveRoot : bool) (kept : list string) (seg : string)
  : list string :=
  if String.eqb seg "" then kept
  else if String.eqb seg "." then kept
  else if String.eqb seg ".." then
    match kept with
    | top :: rest =>
        if String.eqb top ".." then (if allowAboveRoot then seg :: kept else kept)
        else rest
    | [] => if allowAboveRoot then [seg] else []
    end
  else seg :: kept.

Definition normalizeString (path : string) (allowAboveRoot : bool) : string :=
  String.concat "/"
    (rev (fold_left (norm_step allowAboveRoot) (JsString.split_array sep path) [])).

Definition starts_with_sep (p : string) : bool :=
  match p with
  | String a _ => Ascii.eqb a sep
  | EmptyString => false
  end.

Fixpoint ends_with_sep (p : string) : bool :=
  match p with
  | EmptyString => false
  | String a EmptyString => Ascii.eqb a sep
  | String _ p' => ends_with_sep p'
  end.

(** [path.normalize(p)]. *)
Definition normalize (p : string) : string :=
  if String.eqb p "" then "."
  else
    let isAbsolute := starts_with_sep p in
    let trailingSeparator := ends_with_sep p in
    let body := normalizeString p (negb isAbsolute) in
    if String.eqb body "" then
      (if isAbsolute then "/" else if trailingSeparator then "./" else ".")
    else
      let body' := if trailingSeparator then body +:+ "/" else body in
      if isAbsolute then "/" +:+ body' else body'.

(** [path.join(a, b)]: the non-empty arguments joined by [/], normalized. *)
Definition join (a b : string) : string :=
  if String.eqb a "" then (if String.eqb b "" then "." else normalize b)
  else if String.eqb b "" then normalize a
  else normalize (a +:+ "/" +:+ b).

(** [path.basename(p)]: the last non-empty segment of the path. *)
Definition basename (p : string) : string :=
  hd "" (List.filter (fun seg => negb (String.eqb seg ""))
           (rev (JsString.split_array sep p))).

(** The name of a directory entry, as [readdir] gives it: not empty,
    without a separator, and neither [.] nor [..]. *)
Definition entry_name (f : string) : bool :=
  negb (String.eqb f "") && negb (JsString.has_char sep f)
  && negb (String.eqb f ".") && negb (String.eqb f "..").

End NodePath.

(** ** JavaScript dates

    A [Date] is its time value: milliseconds since 1970-01-01T00:00:00Z.
    The functions follow the abstract operations of ECMAScript (Day,
    WeekDay, YearFromTime, ...); the local time zone is a fixed offset
    from UTC, in minutes, with its display name. *)

Module JsDate.

Local Open Scope Z_scope.

Definition t := Z.

Definition msPerDay : Z := 86400000.
Definition Day (tv : Z) : Z := tv / msPerDay.
Definition WeekDay (tv : Z) : Z := (Day tv + 4) mod 7.
Definition HourFromTime (tv : Z) : Z := (tv / 3600000) mod 24.
Definition MinFromTime (tv : Z) : Z := (tv / 60000) mod 60.
Definition SecFromTime (tv : Z) : Z := (tv / 1000) mod 60.
Definition msFromTime (tv : Z) : Z := tv mod 1000.

(** Year, month (1 to 12) and day of the month of a day number, in the
    proleptic Gregorian calendar (400-year eras of 146097 days, years
    counted from March so that the leap day comes last). *)
Definition civil (day : Z) : Z * Z * Z :=
  let z := day + 719468 in
  let era := z / 146097 in
  let doe := z - era * 146097 in
  let yoe := (doe - doe / 1460 + doe / 36524 - doe / 146096) / 365 in
  let doy := doe - (365 * yoe + yoe / 4 - yoe / 100) in
  let mp := (5 * doy + 2) / 153 in
  let d := doy - (153 * mp + 2) / 5 + 1 in
  let m := if mp <? 10 then mp + 3 else mp - 9 in
  let y := yoe + era * 400 + (if m <=? 2 then 1 else 0) in
  (y, m, d).

Definition YearFromTime (tv : Z) : Z := fst (fst (civil (Day tv))).
Definition MonthFromTime (tv : Z) : Z := snd (fst (civil (Day tv))) - 1.
Definition DateFromTime (tv : Z) : Z := snd (civil (Day tv)).

(** Decimal digits of a non-negative number, padded with zeros on the
    left to at least [w] characters. *)
Definition dec (n : Z) : string :=
  DecimalString.NilZero.string_of_uint (N.to_uint (Z.to_N n)).

Fixpoint zeros (k : nat) : string :=
  match k with
  | O => EmptyString
  | S k' => String "0"%char (zeros k')
  end.

Definition pad (w : nat) (n : Z) : string :=
  let s := dec n in zeros (w - String.length s) +:+ s.

Definition weekday_name (d : Z) : string :=
  nth (Z.to_nat d) ["Sun"; "Mon"; "Tue"; "Wed"; "Thu"; "Fri"; "Sat"]%string ""%string.

Definition month_name (m : Z) : string :=
  nth (Z.to_nat m)
    ["Jan"; "Feb"; "Mar"; "Apr"; "May"; "Jun";
     "Jul"; "Aug"; "Sep"; "Oct"; "Nov"; "Dec"]%string ""%string.

(** [d.toString()], in the zone [offset] minutes east of UTC:
    [Mon May 01 2023 00:00:00 GMT+0000 (Coordinated Universal Time)]. *)
Definition toString (offset : Z) (zone : string) (tv : Z) : string :=
  let lt := tv + offset * 60000 in
  let y := YearFromTime lt in
  weekday_name (WeekDay lt) +:+ " " +:+ month_name (MonthFromTime lt) +:+ " "
  +:+ pad 2 (DateFromTime lt) +:+ " "
  +:+ (if y <? 0 then "-" else "") +:+ pad 4 (Z.abs y) +:+ " "
  +:+ pad 2 (HourFromTime lt) +:+ ":" +:+ pad 2 (MinFromTime lt) +:+ ":"
  +:+ pad 2 (SecFromTime lt) +:+ " GMT"
  +:+ (if offset <? 0 then "-" else "+")
  +:+ pad 2 (Z.abs offset / 60) +:+ pad 2 (Z.abs offset mod 60)
  +:+ " (" +:+ zone +:+ ")".

(** The year as [toISOString] writes it: four digits, or a sign and six
    digits outside 0..9999. *)
Definition year_text (y : Z) : string :=
  if (0 <=? y) && (y <=? 9999) then pad 4 y
  else (if y <? 0 then "-" else "+") +:+ pad 6 (Z.abs y).

(** The calendar day in UTC, as [toISOString] writes it: [2023-05-01]. *)
Definition calendar_date (tv : Z) : string :=
  year_text (YearFromTime tv) +:+ "-" +:+ pad 2 (MonthFromTime tv + 1)
  +:+ "-" +:+ pad 2 (DateFromTime tv).

(** [d.toISOString()]: [2023-05-01T00:00:00.000Z], in UTC. *)
Definition toISOString (tv : Z) : string :=
  calendar_date tv
  +:+ "T" +:+ pad 2 (HourFromTime tv) +:+ ":" +:+ pad 2 (MinFromTime tv) +:+ ":"
  +:+ pad 2 (SecFromTime tv) +:+ "." +:+ pad 3 (msFromTime tv) +:+ "Z".

(** The time value of midnight UTC on a calendar day (as [Date.UTC]). *)
Definition utc (y m d : Z) : Z :=
  let y' := if m <=? 2 then y - 1 else y in
  let era := y' / 400 in
  let yoe := y' - era * 400 in
  let mp := if m <=? 2 then m + 9 else m - 3 in
  let doy := (153 * mp + 2) / 5 + d - 1 in
  let doe := yoe * 365 + yoe / 4 - yoe / 100 + doy in
  (era * 146097 + doe - 719468) * msPerDay.

End JsDate.

(** ** JavaScript objects used as maps

    The own properties of an object created by [{}], in the order they
    were created.  A read of a missing key falls through to
    [Object.prototype]; enumeration lists the keys that are array
    indices first, in ascending order, then the others as created. *)

Module JsObject.

Definition t (V : Type) : Type := list (string * V).

(** The properties every object inherits from [Object.prototype]; all of
    them hold functions or objects, which are truthy and are not arrays. *)
Definition prototype_keys : list string :=
  ["constructor"; "__defineGetter__"; "__defineSetter__"; "hasOwnProperty";
   "__lookupGetter__"; "__lookupSetter__"; "isPrototypeOf";
   "propertyIsEnumerable"; "toString"; "valueOf"; "__proto__"; "toLocaleString"].

Inductive lookup_result (V : Type) : Type :=
| Own (v : V)
| Inherited
| Undefined.
Arguments Own {V} v.
Arguments Inherited {V}.
Arguments Undefined {V}.

Fixpoint own {V} (o : t V) (k : string) : option V :=
  match o with
  | [] => None
  | (k', v) :: o' => if String.eqb k' k then Some v else own o' k
  end.

(** [o[k]] *)
Definition get {V} (o : t V) (k : string) : lookup_result V :=
  match own o k with
  | Some v => Own v
  | None => if existsb (String.eqb k) prototype_keys then Inherited else Undefined
  end.

(** [o[k] = v], for a key that is own or is found nowhere. *)
Fixpoint set {V} (o : t V) (k : string) (v : V) : t V :=
  match o with
  | [] => [(k, v)]
  | (k', v') :: o' =>
      if String.eqb k' k then (k', v) :: o' else (k', v') :: set o' k v
  end.

Definition digit (a : ascii) : option N :=
  let n := N_of_ascii a in
  if (48 <=? n)%N && (n <=? 57)%N then Some (n - 48)%N else None.

Fixpoint parse_digits (acc : N) (s : string) : option N :=
  match s with
  | EmptyString => Some acc
  | String a s' =>
      match digit a with
      | Some d => parse_digits (10 * acc + d)%N s'
      | None => None
      end
  end.

(** A key is an array index when it is the canonical decimal form of an
    integer below 2^32 - 1. *)
Definition array_index (k : string) : option N :=
  match k with
  | EmptyString => None
  | String a s' =>
      if Ascii.eqb a "0"%char then (if String.eqb s' "" then Some 0%N else None)
      else match parse_digits 0 k with
           | Some n => if (n <? 4294967295)%N then Some n else None
           | None => None
           end
  end.

Fixpoint insert_index {V} (n : N) (e : string * V) (l : list (N * (string * V)))
  : list (N * (string * V)) :=
  match l with
  | [] => [(n, e)]
  | (m, e') :: l' =>
      if (m <=? n)%N then (m, e') :: insert_index n e l' else (n, e) :: (m, e') :: l'
  end.

Fixpoint index_entries {V} (o : t V) : list (N * (string * V)) :=
  match o with
  | [] => []
  | (k, v) :: o' =>
      match array_index k with
      | Some n => insert_index n (k, v) (index_entries o')
      | None => index_entries o'
      end
  end.

Definition is_index (k : string) : bool :=
  match array_index k with Some _ => true | None => false end.

(** The own properties in the order of [for (k in o)] and [Object.keys(o)]. *)
Definition entries {V} (o : t V) : list (string * V) :=
  map snd (index_entries o) ++ List.filter (fun e => negb (is_index (fst e))) o.

Definition keys {V} (o : t V) : list string := map fst (entries o).

End JsObject.

(** ** The program's data *)

Module FileInfo.

(** The object that [getFileInfo] returns. *)
Record t : Type := mk {
  name : string;
  basename : string;
  extension : option string;
  path : string;
  mime : option string;
  type : option string;
  takenAt : option JsDate.t;
  createdAt : JsDate.t;
  modifiedAt : JsDate.t;
}.

End FileInfo.

(** A row of the table printed by [console.table]. *)
Record Row : Type := mkRow {
  File : string;
  Class : string;
  Date : string;
}.

Inductive JsError : Type :=
| FsError (operation path : string)
| ExifError
| TypeError (message : string).

(** What [exif.parse] settles to: a rejection, [undefined] (no metadata
    in the file) or an object, of which only [DateTimeOriginal] is read. *)
Inductive ExifResult : Type :=
| ExifRejected
| ExifUndefined
| ExifObject (DateTimeOriginal : option JsDate.t).

(** The operations the program performs on its collaborators. *)
Inductive Event : Type :=
| EvReaddir (dir : string)
| EvStatSync (p : string)
| EvStat (p : string)
| EvReadFile (p : string)
| EvExifParse (p : string)
| EvLog (message : string)
| EvTable (rows : list Row)
| EvProgressStart (total : nat)
| EvProgressIncrement
| EvProgressStop
| EvExistsSync (p : string) (found : bool)
| EvMkdir (p : string) (ok : bool)
| EvRename (src dst : string) (ok : bool).

(** Who performed an operation: [main] itself, or the task of index
    [index] among those awaited by the [call]-th [Promise.all]. *)
Inductive Origin : Type :=
| OMain
| OTask (call index : nat).

Definition Entry : Type := Origin * Event.

(** The collaborators: the filesystem ([fs]), the working directory and
    the time zone of the process, the MIME table ([mime]) and the
    metadata reader ([exifr]).  A [None] result is a thrown error or a
    rejected promise. *)
Class Collaborators : Type := {
  World : Type;
  cwd : string;
  tz_offset : Z;
  tz_name : string;
  readdir : World -> string -> option (list string);
  isDirectory : World -> string -> option bool;
  stat : World -> string -> option (JsDate.t * JsDate.t);
  readFile : World -> string -> option (list Byte.byte);
  existsSync : World -> string -> bool;
  mkdir : World -> string -> option World;
  rename : World -> string -> string -> option World;
  getType : string -> option string;
  exif_parse : list Byte.byte -> ExifResult;
}.

Inductive Outcome : Type :=
| Returned (code : Z)
| Rejected (e : JsError).

(** A run of [main]: the operations performed, in order, the filesystem
    left behind, and how the promise of [main] settled. *)
Record Run {C : Collaborators} : Type := mkRun {
  trace : list Entry;
  final : World;
  outcome : Outcome;
}.
Arguments mkRun {C}.

(** ** The program *)

Section Program.

Context `{C : Collaborators}.

(** [tickProgress()]: increments the bar when the global [progress] is set. *)
Definition tickProgress (progress : bool) : list Event :=
  if progress then [EvProgressIncrement] else [].

(** The names [isValidFile] ignores: a [._] prefix, or [.DS_Store]. *)
Definition ignored (base : string) : bool :=
  String.eqb "._" (JsString.substring0 2 base)
  || JsString.includes [".DS_Store"] (Some base).

(** [isValidFile(filePath)]; [fs.statSync] is reached only for a name that
    is not ignored, and may throw. *)
Definition isValidFile (w : World) (filePath : string)
  : list Event * (JsError + bool) :=
  if ignored (NodePath.basename filePath) then ([], inr false)
  else
    match isDirectory w filePath with
    | None => ([EvStatSync filePath], inl (FsError "stat" filePath))
    | Some true => ([EvStatSync filePath], inr false)
    | Some false => ([EvStatSync filePath], inr true)
    end.

(** [paths.filter(isValidFile)]: the first throw ends the filtering. *)
Fixpoint filter_valid (w : World) (paths : list string)
  : list Event * (JsError + list string) :=
  match paths with
  | [] => ([], inr [])
  | p :: rest =>
      match isValidFile w p with
      | (evs, inl e) => (evs, inl e)
      | (evs, inr keep) =>
          match filter_valid w rest with
          | (evs', inl e) => (evs ++ evs', inl e)
          | (evs', inr kept) => (evs ++ evs', inr (if keep then p :: kept else kept))
          end
      end
  end.

(** The date taken, for the MIME types whose metadata is read: the file
    is read and parsed, and [exifData.DateTimeOriginal || null] is taken.
    Reading a property of [undefined] throws a [TypeError]. *)
Definition readTakenAt (w : World) (filePath : string) (mimeType : option string)
  : list Event * (JsError + option JsDate.t) :=
  if JsString.includes ["image/jpeg"; "image/tiff"] mimeType then
    match readFile w filePath with
    | None => ([EvReadFile filePath], inl (FsError "readFile" filePath))
    | Some fileData =>
        match exif_parse fileData with
        | ExifRejected => ([EvReadFile filePath; EvExifParse filePath], inl ExifError)
        | ExifUndefined =>
            ([EvReadFile filePath; EvExifParse filePath],
             inl (TypeError "Cannot read properties of undefined (reading 'DateTimeOriginal')"))
        | ExifObject dateTimeOriginal =>
            ([EvReadFile filePath; EvExifParse filePath], inr dateTimeOriginal)
        end
    end
  else ([], inr None).

(** [getFileInfo(filePath)].  It only reads the filesystem. *)
Definition getFileInfo (progress : bool) (w : World) (filePath : string)
  : list Event * (JsError + FileInfo.t) :=
  let mimeType := getType filePath in
  let baseType := option_map (fun m => fst (JsString.split "/"%char m)) mimeType in
  let splitName := JsString.split "."%char (NodePath.basename filePath) in
  match stat w filePath with
  | None => ([EvStat filePath], inl (FsError "stat" filePath))
  | Some (fileCreatedAt, fileModifiedAt) =>
      match readTakenAt w filePath mimeType with
      | (evs, inl e) => (EvStat filePath :: evs, inl e)
      | (evs, inr fileTakenAt) =>
          (EvStat filePath :: evs ++ tickProgress progress,
           inr {| FileInfo.name := fst splitName;
                  FileInfo.basename := NodePath.basename filePath;
                  FileInfo.extension := JsString.pop (snd splitName);
                  FileInfo.path := filePath;
                  FileInfo.mime := mimeType;
                  FileInfo.type := baseType;
                  FileInfo.takenAt := fileTakenAt;
                  FileInfo.createdAt := fileCreatedAt;
                  FileInfo.modifiedAt := fileModifiedAt |})
      end
  end.

(** *** [Promise.all] over tasks that only read

    Every task has its operations and its result; the tasks settle in
    some order, given by a schedule of task indices (an index that is
    out of range or has settled already is skipped, and the tasks the
    schedule leaves out settle after it, in index order).  A settled
    task stores its result in its own slot.  The operations of the tasks
    commute, as they leave the filesystem as it is: the trace lists them
    task by task, in the order the tasks settle. *)

Record Settling (A : Type) : Type := mkSettling {
  slots : list (option (JsError + A));
  settled_trace : list Entry;
  first_rejection : option JsError;
}.
Arguments mkSettling {A}.
Arguments slots {A}.
Arguments settled_trace {A}.
Arguments first_rejection {A}.

Definition settle {A} (call : nat) (tasks : list (list Event * (JsError + A)))
  (st : Settling A) (i : nat) : Settling A :=
  match slots st !! i, tasks !! i with
  | Some None, Some (evs, r) =>
      mkSettling (<[i := Some r]> (slots st))
        (settled_trace st ++ map (pair (OTask call i)) evs)
        (match first_rejection st, r with
         | None, inl e => Some e
         | fr, _ => fr
         end)
  | _, _ => st
  end.

(** The values of the slots, in the order of the tasks. *)
Definition fulfilled {A} (s : list (option (JsError + A))) : list A :=
  omap (fun slot => match slot with Some (inr a) => Some a | _ => None end) s.

Definition promise_all {A} (call : nat) (schedule : list nat)
  (tasks : list (list Event * (JsError + A))) : list Entry * (JsError + list A) :=
  let n := length tasks in
  let st := fold_left (settle call tasks) (schedule ++ seq 0 n)
              (mkSettling (replicate n None) [] None) in
  (settled_trace st,
   match first_rejection st with
   | Some e => inl e
   | None => inr (fulfilled (slots st))
   end).

(** What holds of the slots while the tasks settle: a filled slot holds
    the result of its own task, the first rejection is the result of a
    task, and every operation in the trace is an operation of a task. *)
Definition settling_ok {A} (call : nat) (tasks : list (list Event * (JsError + A)))
  (st : Settling A) : Prop :=
  length (slots st) = length tasks
  /\ (forall i r, slots st !! i = Some (Some r) -> exists evs, tasks !! i = Some (evs, r))
  /\ (first_rejection st = None -> forall i e, slots st !! i <> Some (Some (inl e)))
  /\ (forall e, first_rejection st = Some e -> exists i evs, tasks !! i = Some (evs, inl e))
  /\ (forall o ev, In (o, ev) (settled_trace st) ->
      exists i evs r, o = OTask call i /\ tasks !! i = Some (evs, r) /\ In ev evs).

Definition is_settled {A} (st : Settling A) (i : nat) : Prop :=
  exists r, slots st !! i = Some (Some r).

(** *** Grouping *)

(** One round of [baseFilesInfo.forEach]: the list of the name is created
    when [files[fileInfo.name]] is falsy, then the file is pushed.  A name
    inherited from [Object.prototype] is truthy and has no [push]. *)
Definition group_step (files : JsObject.t (list FileInfo.t)) (fileInfo : FileInfo.t)
  : JsError + JsObject.t (list FileInfo.t) :=
  match JsObject.get files (FileInfo.name fileInfo) with
  | JsObject.Undefined => inr (JsObject.set files (FileInfo.name fileInfo) [fileInfo])
  | JsObject.Own l => inr (JsObject.set files (FileInfo.name fileInfo) (l ++ [fileInfo]))
  | JsObject.Inherited => inl (TypeError "files[fileInfo.name].push is not a function")
  end.

Fixpoint group_from (files : JsObject.t (list FileInfo.t)) (infos : list FileInfo.t)
  : JsError + JsObject.t (list FileInfo.t) :=
  match infos with
  | [] => inr files
  | fileInfo :: rest =>
      match group_step files fileInfo with
      | inl e => inl e
      | inr files' => group_from files' rest
      end
  end.

Definition group_files (baseFilesInfo : list FileInfo.t)
  : JsError + JsObject.t (list FileInfo.t) :=
  group_from [] baseFilesInfo.

(** *** Reduction of a group *)

Definition media_types : list string := ["image"; "audio"; "video"].

(** The group's main file type (if none, "other"). *)
Definition groupType (fileInfos : list FileInfo.t) : string :=
  JsString.or_else
    (match fst (JsString.shift
                  (map FileInfo.type
                     (List.filter
                        (fun fileInfo => JsString.includes media_types (FileInfo.type fileInfo))
                        fileInfos))) with
     | Some ty => ty
     | None => None
     end)
    "other".

(** [fileInfo.takenAt || fileInfo.modifiedAt]: a [Date] is truthy. *)
Definition taken_or_modified (fileInfo : FileInfo.t) : JsDate.t :=
  match FileInfo.takenAt fileInfo with
  | Some d => d
  | None => FileInfo.modifiedAt fileInfo
  end.

(** The group date: the dates are sorted by [sort()] with no comparison
    function, that is by their [toString()], and the first one is taken. *)
Definition groupDate (fileInfos : list FileInfo.t) : option JsDate.t :=
  fst (JsString.shift
         (JsString.sort_default (JsDate.toString tz_offset tz_name)
            (map taken_or_modified fileInfos))).

(** [groupDate.toISOString().split('T').shift()] *)
Definition dateString (fileInfos : list FileInfo.t) : JsError + string :=
  match groupDate fileInfos with
  | None => inl (TypeError "Cannot read properties of undefined (reading 'toISOString')")
  | Some d => inr (fst (JsString.split "T"%char (JsDate.toISOString d)))
  end.

(** *** The plan *)

Record Plan : Type := mkPlan {
  filesPerTypeAndDate : JsObject.t (JsObject.t (list FileInfo.t));
  filesForInformation : list Row;
}.

(** The listing of a group under its type and date.  Were the type a name
    inherited from [Object.prototype], the list would be stored on the
    inherited object, out of reach of the enumeration of the plan. *)
Definition add_listing (perTypeAndDate : JsObject.t (JsObject.t (list FileInfo.t)))
  (ty date : string) (fileInfos : list FileInfo.t)
  : JsError + JsObject.t (JsObject.t (list FileInfo.t)) :=
  match JsObject.get perTypeAndDate ty with
  | JsObject.Inherited => inr perTypeAndDate
  | JsObject.Undefined =>
      inr (JsObject.set perTypeAndDate ty (JsObject.set [] date fileInfos))
  | JsObject.Own perDate =>
      match JsObject.get perDate date with
      | JsObject.Undefined =>
          inr (JsObject.set perTypeAndDate ty (JsObject.set perDate date fileInfos))
      | JsObject.Own l =>
          inr (JsObject.set perTypeAndDate ty (JsObject.set perDate date (l ++ fileInfos)))
      | JsObject.Inherited =>
          inl (TypeError "filesPerTypeAndDate[groupType][dateString].push is not a function")
      end
  end.

Definition info_row (ty date : string) (fileInfo : FileInfo.t) : Row :=
  {| File := FileInfo.basename fileInfo; Class := ty; Date := date |}.

(** The body of [for (let name in files)]. *)
Definition process_group (plan : Plan) (fileInfos : list FileInfo.t) : JsError + Plan :=
  let ty := groupType fileInfos in
  match dateString fileInfos with
  | inl e => inl e
  | inr date =>
      match add_listing (filesPerTypeAndDate plan) ty date fileInfos with
      | inl e => inl e
      | inr perTypeAndDate =>
          inr (mkPlan perTypeAndDate
                 (filesForInformation plan ++ map (info_row ty date) fileInfos))
      end
  end.

Fixpoint process_from (plan : Plan) (groups : list (string * list FileInfo.t))
  : JsError + Plan :=
  match groups with
  | [] => inr plan
  | (_, fileInfos) :: rest =>
      match process_group plan fileInfos with
      | inl e => inl e
      | inr plan' => process_from plan' rest
      end
  end.

Definition process_groups (files : JsObject.t (list FileInfo.t)) : JsError + Plan :=
  process_from (mkPlan [] []) (JsObject.entries files).

(** A file is listed in the plan under a type and a date. *)
Definition listed (perTypeAndDate : JsObject.t (JsObject.t (list FileInfo.t)))
  (ty date : string) (fileInfo : FileInfo.t) : Prop :=
  exists perDate dirFiles,
    In (ty, perDate) (JsObject.entries perTypeAndDate)
    /\ In (date, dirFiles) (JsObject.entries perDate)
    /\ In fileInfo dirFiles.

End Program.

Arguments mkSettling {A}.
Arguments slots {A}.
Arguments settled_trace {A}.
Arguments first_rejection {A}.

(** ** Moving *)

Section Mover.

Context `{C : Collaborators}.

(** [typeDirNames[type] || 'Other'].  The keys of the plan are own keys
    created where a lookup found nothing, so none of them is inherited. *)
Definition typeDirName (ty : string) : string :=
  if String.eqb ty "image" then "Image"
  else if String.eqb ty "video" then "Video"
  else if String.eqb ty "audio" then "Audio"
  else if String.eqb ty "other" then "Other"
  else "Other".

(** A task awaited by a [Promise.all] of the moving stage: the creation
    of a directory that was missing when the task started, followed by
    the renames of the files listed for it, one after the other. *)
Inductive Task : Type :=
| Creating (dir : string) (dirFiles : list FileInfo.t)
| Moving (dir : string) (dirFiles : list FileInfo.t)
| Failed (e : JsError).

(** The start of a task, up to its first pending operation:
    [createDirectoryIfNotExisting] tests the directory at once and calls
    [mkdir] only when it is missing. *)
Definition launch (w : World) (dir : string) (dirFiles : list FileInfo.t)
  : Event * Task :=
  if existsSync w dir then (EvExistsSync dir true, Moving dir dirFiles)
  else (EvExistsSync dir false, Creating dir dirFiles).

(** The next operation of a task.  A rejected [mkdir] or [rename] ends
    the task: nothing after it is attempted. *)
Definition step (w : World) (task : Task) : list Event * World * Task :=
  match task with
  | Creating dir dirFiles =>
      match mkdir w dir with
      | Some w' => ([EvMkdir dir true], w', Moving dir dirFiles)
      | None => ([EvMkdir dir false], w, Failed (FsError "mkdir" dir))
      end
  | Moving dir (fileInfo :: rest) =>
      let src := FileInfo.path fileInfo in
      let dst := NodePath.join dir (FileInfo.basename fileInfo) in
      match rename w src dst with
      | Some w' => ([EvRename src dst true; EvProgressIncrement], w', Moving dir rest)
      | None => ([EvRename src dst false], w, Failed (FsError "rename" src))
      end
  | Moving dir [] => ([], w, task)
  | Failed e => ([], w, task)
  end.

(** The operations a task has ahead of it, at most. *)
Definition steps_left (task : Task) : nat :=
  match task with
  | Creating _ dirFiles => S (length dirFiles)
  | Moving _ dirFiles => length dirFiles
  | Failed _ => 0
  end.

(** The tasks in flight, with the filesystem they act on. *)
Record Pool : Type := mkPool {
  pool_world : World;
  pool_trace : list Entry;
  pool_tasks : list Task;
  pool_rejection : option JsError;
}.

(** Task [i] performs its next operation. *)
Definition advance (call : nat) (p : Pool) (i : nat) : Pool :=
  match pool_tasks p !! i with
  | None => p
  | Some task =>
      let '(evs, w', task') := step (pool_world p) task in
      mkPool w'
        (pool_trace p ++ map (pair (OTask call i)) evs)
        (<[i := task']> (pool_tasks p))
        (match pool_rejection p, task' with
         | None, Failed e => Some e
         | r, _ => r
         end)
  end.

Fixpoint launch_all (call : nat) (w : World) (i : nat)
  (dirs : list (string * list FileInfo.t)) : list Entry * list Task :=
  match dirs with
  | [] => ([], [])
  | (dir, dirFiles) :: rest =>
      let '(ev, task) := launch w dir dirFiles in
      let '(evs, tasks) := launch_all call w (S i) rest in
      ((OTask call i, ev) :: evs, task :: tasks)
  end.

(** The indices of the tasks, each as many times as it has operations. *)
Fixpoint completion (i : nat) (tasks : list Task) : list nat :=
  match tasks with
  | [] => []
  | task :: rest => replicate (steps_left task) i ++ completion (S i) rest
  end.

(** [await Promise.all(dirs.map(...))] in the moving stage.  The tasks
    start in order; their pending operations then interleave as the
    schedule says (an index stands for the next operation of that task),
    and what the schedule leaves undone is done after it.  The call
    rejects when a task has failed; the trace of a rejected call is the
    longest possible one, the other tasks being followed to their end. *)
Definition await_all (call : nat) (schedule : list nat) (w : World)
  (dirs : list (string * list FileInfo.t)) : Pool :=
  let '(evs, tasks) := launch_all call w 0 dirs in
  fold_left (advance call) (schedule ++ completion 0 tasks)
    (mkPool w evs tasks None).

(** The directory is there: it was found, or it has been created. *)
Definition dir_ready (dir : string) (tr : list Entry) : Prop :=
  exists o, In (o, EvExistsSync dir true) tr \/ In (o, EvMkdir dir true) tr.

Definition ready_by (o : Origin) (dir : string) (tr : list Entry) : Prop :=
  In (o, EvExistsSync dir true) tr \/ In (o, EvMkdir dir true) tr.

Definition rename_to (dir : string) (fileInfo : FileInfo.t) (ok : bool) : Event :=
  EvRename (FileInfo.path fileInfo) (NodePath.join dir (FileInfo.basename fileInfo)) ok.

(** How far a task has come, against the directory and the files it was
    started for and the operations performed so far. *)
Definition task_ok (o : Origin) (dir : string) (dirFiles : list FileInfo.t)
  (tr : list Entry) (task : Task) : Prop :=
  match task with
  | Creating d rest =>
      d = dir /\ rest = dirFiles
      /\ (forall ev, In (o, ev) tr -> ev = EvExistsSync dir false)
  | Moving d rest =>
      d = dir /\ ready_by o dir tr
      /\ exists moved, dirFiles = moved ++ rest
                       /\ forall fileInfo, In fileInfo moved -> In (o, rename_to dir fileInfo true) tr
  | Failed _ => True
  end.

(** What holds of the tasks of one [Promise.all] of the moving stage,
    started for the directories [dirs], at every moment. *)
Definition pool_ok (call : nat) (dirs : list (string * list FileInfo.t)) (p : Pool) : Prop :=
  length (pool_tasks p) = length dirs
  /\ (forall i dir dirFiles task,
        dirs !! i = Some (dir, dirFiles) -> pool_tasks p !! i = Some task ->
        task_ok (OTask call i) dir dirFiles (pool_trace p) task)
  /\ (forall pre o src dst ok post,
        pool_trace p = pre ++ (o, EvRename src dst ok) :: post ->
        exists i dir dirFiles fileInfo,
          o = OTask call i /\ dirs !! i = Some (dir, dirFiles) /\ In fileInfo dirFiles
          /\ EvRename src dst ok = rename_to dir fileInfo ok
          /\ ready_by o dir pre)
  /\ (forall pre i src dst post,
        pool_trace p = pre ++ (OTask call i, EvRename src dst false) :: post ->
        (exists e, pool_tasks p !! i = Some (Failed e))
        /\ forall o ev, In (o, ev) post -> o <> OTask call i)
  /\ (pool_rejection p = None -> forall i e, pool_tasks p !! i <> Some (Failed e))
  /\ (forall o ev, In (o, ev) (pool_trace p) -> exists i, o = OTask call i /\ i < length dirs).

(** The operations a task of the pool still has ahead of it. *)
Definition left_of (p : Pool) (i : nat) : nat :=
  match pool_tasks p !! i with
  | Some task => steps_left task
  | None => 0
  end.

(** The directory of a type and the directories of its dates. *)
Definition dirType (ty : string) : string := NodePath.join cwd (typeDirName ty).

Definition dirDate (ty date : string) : string := NodePath.join (dirType ty) date.

Definition type_dirs (perTypeAndDate : JsObject.t (JsObject.t (list FileInfo.t)))
  : list (string * list FileInfo.t) :=
  map (fun ty => (dirType ty, [])) (JsObject.keys perTypeAndDate).

Definition date_dirs (ty : string) (perDate : JsObject.t (list FileInfo.t))
  : list (string * list FileInfo.t) :=
  map (fun e => (dirDate ty (fst e), snd e)) (JsObject.entries perDate).

(** [for (const type in filesPerTypeAndDate)]: the dates of a type are
    moved together, and a type is started once the one before is done. *)
Fixpoint move_types (schedules : nat -> list nat) (call : nat) (w : World)
  (types : list (string * JsObject.t (list FileInfo.t)))
  : list Entry * World * option JsError :=
  match types with
  | [] => ([], w, None)
  | (ty, perDate) :: rest =>
      let p := await_all call (schedules call) w (date_dirs ty perDate) in
      match pool_rejection p with
      | Some e => (pool_trace p, pool_world p, Some e)
      | None =>
          let '(tr, w', r) := move_types schedules (S call) (pool_world p) rest in
          (pool_trace p ++ tr, w', r)
      end
  end.

(** The moving stage of [main]. *)
Definition move_files (schedules : nat -> list nat) (w : World) (plan : Plan)
  : list Entry * World * Outcome :=
  let perTypeAndDate := filesPerTypeAndDate plan in
  let p := await_all 1 (schedules 1) w (type_dirs perTypeAndDate) in
  let tr1 := (OMain, EvLog "Moving files...") :: pool_trace p in
  match pool_rejection p with
  | Some e => (tr1, pool_world p, Rejected e)
  | None =>
      let start := (OMain, EvProgressStart (length (filesForInformation plan))) in
      match move_types schedules 2 (pool_world p) (JsObject.entries perTypeAndDate) with
      | (tr2, w', Some e) => (tr1 ++ start :: tr2, w', Rejected e)
      | (tr2, w', None) =>
          (tr1 ++ start :: tr2
             ++ [(OMain, EvProgressStop); (OMain, EvLog "Files organized successfully!")],
           w', Returned 0)
      end
  end.

(** ** The pipeline and [main] *)

(** Reading the directory and filtering its entries. *)
Definition scan (w : World) : list Event * (JsError + list string) :=
  match readdir w cwd with
  | None => ([EvReaddir cwd], inl (FsError "readdir" cwd))
  | Some fileNames =>
      match filter_valid w (map (NodePath.join cwd) fileNames) with
      | (evs, r) => (EvReaddir cwd :: evs, r)
      end
  end.

(** What a run computes before it prints the table. *)
Record Stages : Type := mkStages {
  baseFiles : list string;
  baseFilesInfo : list FileInfo.t;
  files : JsObject.t (list FileInfo.t);
  plan : Plan;
}.

Definition on_main (evs : list Event) : list Entry := map (pair OMain) evs.

(** From the scan to the plan. *)
Definition pipeline (schedules : nat -> list nat) (w : World)
  : list Entry * (JsError + Stages) :=
  match scan w with
  | (evs, inl e) => (on_main evs, inl e)
  | (evs, inr paths) =>
      let tr0 := on_main (evs ++ [EvLog "Extracting file information...";
                                  EvProgressStart (length paths)]) in
      match promise_all 0 (schedules 0) (map (getFileInfo true w) paths) with
      | (tr1, inl e) => (tr0 ++ tr1, inl e)
      | (tr1, inr infos) =>
          let tr := tr0 ++ tr1 ++ [(OMain, EvProgressStop)] in
          match group_files infos with
          | inl e => (tr, inl e)
          | inr groups =>
              match process_groups groups with
              | inl e => (tr, inl e)
              | inr pl => (tr, inr (mkStages paths infos groups pl))
              end
          end
      end
  end.

(** The closing message of a preview; the quotation mark has code 34. *)
Definition preview_notice : string :=
  let quote := String (ascii_of_nat 34) EmptyString in
  "To actually move the files, add the " +:+ quote +:+ "move" +:+ quote +:+ " command.".

(** [main(command)], for the schedules of its [Promise.all] calls: call 0
    is the extraction, call 1 the type directories, call [2 + k] the
    dates of the [k]-th type. *)
Definition main (schedules : nat -> list nat) (command : option string) (w : World)
  : Run :=
  match pipeline schedules w with
  | (tr, inl e) => mkRun tr w (Rejected e)
  | (tr, inr st) =>
      let tr' := tr ++ [(OMain, EvTable (filesForInformation (plan st)))] in
      if negb (JsString.includes ["move"] command) then
        mkRun (tr' ++ [(OMain, EvLog preview_notice)]) w (Returned 0)
      else
        let '(tr2, w', out) := move_files schedules w (plan st) in
        mkRun (tr' ++ tr2) w' out
  end.

(** What a run has computed when its pipeline went through. *)
Definition stages_of (r : list Entry * (JsError + Stages)) : option Stages :=
  match snd r with
  | inr st => Some st
  | inl _ => None
  end.

End Mover.


(** The operations that change the layout of the filesystem. *)
Definition mutates (ev : Event) : bool :=
  match ev with
  | EvMkdir _ _ | EvRename _ _ _ => true
  | _ => false
  end.

(** ** A filesystem in memory

    An instance of the collaborators on which the program runs inside
    Rocq: the working directory [/photos] with its entries, the
    directories that exist, and the paths whose rename is refused.  The
    time zone is UTC. *)

Module Demo.

Inductive Node : Type :=
| Dir
| File (ctime mtime : JsDate.t) (data : list Byte.byte).

Record world : Type := mkWorld {
  listing : list (string * Node);
  present : list string;
  unmovable : list string;
  renamed : list (string * string);
}.

Definition home : string := "/photos".

Definition node (w : world) (p : string) : option Node :=
  snd <$> List.find (fun e => String.eqb (NodePath.join home (fst e)) p) (listing w).

Definition mem (p : string) (l : list string) : bool := existsb (String.eqb p) l.

Definition demo_stat (w : world) (p : string) : option (JsDate.t * JsDate.t) :=
  match node w p with
  | Some (File c m _) => Some (c, m)
  | Some Dir => Some (0%Z, 0%Z)
  | None => None
  end.

Definition demo_readFile (w : world) (p : string) : option (list Byte.byte) :=
  match node w p with
  | Some (File _ _ data) => Some data
  | _ => None
  end.

Definition demo_mkdir (w : world) (p : string) : option world :=
  if mem p (present w) then None
  else Some (mkWorld (listing w) (present w ++ [p]) (unmovable w) (renamed w)).

Definition demo_rename (w : world) (src dst : string) : option world :=
  match node w src with
  | Some _ =>
      if mem src (unmovable w) then None
      else Some (mkWorld
                   (List.filter
                      (fun e => negb (String.eqb (NodePath.join home (fst e)) src))
                      (listing w))
                   (present w) (unmovable w) (renamed w ++ [(src, dst)]))
  | None => None
  end.

(** A small MIME table, by the part of the name after its last dot. *)
Definition demo_getType (p : string) : option string :=
  match JsString.pop (snd (JsString.split "."%char (NodePath.basename p))) with
  | Some ext =>
      if mem ext ["jpg"; "jpeg"] then Some "image/jpeg"
      else if mem ext ["tif"; "tiff"] then Some "image/tiff"
      else if mem ext ["png"] then Some "image/png"
      else if mem ext ["dng"] then Some "image/x-adobe-dng"
      else if mem ext ["mp4"] then Some "video/mp4"
      else if mem ext ["mp3"] then Some "audio/mpeg"
      else if mem ext ["txt"] then Some "text/plain"
      else None
  | None => None
  end.

(** File contents as the metadata reader sees them: no bytes, no
    metadata; a first byte 0, metadata without a date; a first byte 1, a
    date, whose time value is written in the bytes that follow; anything
    else cannot be parsed. *)
Definition decode (bytes : list Byte.byte) : Z :=
  fold_left (fun acc b => (acc * 256 + Z.of_N (Byte.to_N b))%Z) bytes 0%Z.

Definition encode (tv : Z) : list Byte.byte :=
  map (fun k => match Byte.of_N (Z.to_N ((tv / 256 ^ k) mod 256)) with
                | Some b => b
                | None => Byte.x00
                end) [7; 6; 5; 4; 3; 2; 1; 0]%Z.

Definition with_date (tv : Z) : list Byte.byte := Byte.x01 :: encode tv.

Definition demo_exif_parse (data : list Byte.byte) : ExifResult :=
  match data with
  | [] => ExifUndefined
  | Byte.x00 :: _ => ExifObject None
  | Byte.x01 :: bytes => ExifObject (Some (decode bytes))
  | _ => ExifRejected
  end.

#[export] Instance collaborators : Collaborators := {|
  World := world;
  cwd := home;
  tz_offset := 0%Z;
  tz_name := "Coordinated Universal Time";
  readdir := fun w _ => Some (map fst (listing w));
  isDirectory := fun w p =>
    match node w p with
    | Some Dir => Some true
    | Some (File _ _ _) => Some false
    | None => None
    end;
  stat := demo_stat;
  readFile := demo_readFile;
  existsSync := fun w p => mem p (present w);
  mkdir := demo_mkdir;
  rename := demo_rename;
  getType := demo_getType;
  exif_parse := demo_exif_parse;
|}.

(** The spec's example of a group date.  The members have the dates
    taken [2023-05-01, none] and the dates modified [2023-05-03,
    2023-04-20], so the dates compared are 2023-05-01 and 2023-04-20.
    [sort()] compares them as strings, "Mon May 01 2023 ..." and "Thu Apr
    20 2023 ...", and puts the Monday first. *)
Definition example_group : list FileInfo.t :=
  [FileInfo.mk "IMG_1" "IMG_1.jpg" (Some "jpg") "/photos/IMG_1.jpg"
     (Some "image/jpeg") (Some "image")
     (Some (JsDate.utc 2023 5 1)) 0%Z (JsDate.utc 2023 5 3);
   FileInfo.mk "IMG_1" "IMG_1.dng" (Some "dng") "/photos/IMG_1.dng"
     (Some "image/x-adobe-dng") (Some "image")
     None 0%Z (JsDate.utc 2023 4 20)].

(** A directory of files, nothing else existing yet. *)
Definition fresh (entries : list (string * Node)) : world := mkWorld entries [] [] [].


(** A photo and a clip of different days. *)
Definition photo_and_clip : world :=
  fresh [("a.jpg", File 0%Z (JsDate.utc 2023 5 1) [Byte.x00]);
         ("b.mp4", File 0%Z (JsDate.utc 2023 6 1) [])].

(** The order in which nothing is scheduled: the tasks of every
    [Promise.all] run one after the other. *)
Definition in_order : nat -> list nat := fun _ => [].

End Demo.

(** ** Notions used by the properties *)

Section Notions.

Context `{C : Collaborators}.

(** An entry that the filter keeps: its name is not ignored and it is
    not a directory. *)
Definition scanned (w : World) (filePath : string) : bool :=
  negb (ignored (NodePath.basename filePath))
  && match isDirectory w filePath with Some false => true | _ => false end.

(** An entry on which the filter throws: its name is not ignored and
    [fs.statSync] fails on it. *)
Definition unreadable (w : World) (filePath : string) : bool :=
  negb (ignored (NodePath.basename filePath))
  && match isDirectory w filePath with None => true | _ => false end.

(** The MIME types for which the metadata are read. *)
Definition reads_metadata (filePath : string) : bool :=
  JsString.includes ["image/jpeg"; "image/tiff"] (getType filePath).

End Notions.

(** The operations of the pipeline: all but the table, the creation of
    a directory and the rename of a file. *)
Definition extracting (ev : Event) : bool :=
  match ev with
  | EvTable _ | EvMkdir _ _ | EvRename _ _ _ | EvExistsSync _ _ => false
  | _ => true
  end.

(** A key that every object inherits from [Object.prototype]. *)
Definition inherited (k : string) : bool :=
  existsb (String.eqb k) JsObject.prototype_keys.

(** The names of the four types. *)
Definition type_names : list string := ["image"; "audio"; "video"; "other"].

(** ** The operations of one task *)

(** Equality of origins, as a test. *)
Definition origin_eqb (o1 o2 : Origin) : bool :=
  match o1, o2 with
  | OMain, OMain => true
  | OTask c i, OTask c' i' => Nat.eqb c c' && Nat.eqb i i'
  | _, _ => false
  end.

(** The operations of one origin in a trace, in order. *)
Definition by_origin (o : Origin) (tr : list Entry) : list Event :=
  map snd (List.filter (fun e : Entry => origin_eqb (fst e) o) tr).

(** [createDirectoryIfNotExisting] that goes through: the directory is
    found, or it is missing and created. *)
Definition opening (dir : string) (found : bool) : list Event :=
  if found then [EvExistsSync dir true]
  else [EvExistsSync dir false; EvMkdir dir true].

(** The loop over the files of a directory, every rename going through. *)
Definition moves (dir : string) (dirFiles : list FileInfo.t) : list Event :=
  flat_map (fun fileInfo => [rename_to dir fileInfo true; EvProgressIncrement]) dirFiles.

(** What a task of the moving stage does, from its start to its end: it
    goes through all its files, or stops at the [mkdir] or at the first
    [rename] that is refused. *)
Inductive Story (dir : string) (dirFiles : list FileInfo.t) : list Event -> Prop :=
| Completed found :
    Story dir dirFiles (opening dir found ++ moves dir dirFiles)
| MkdirRefused :
    Story dir dirFiles [EvExistsSync dir false; EvMkdir dir false]
| RenameRefused found moved fileInfo rest :
    dirFiles = moved ++ fileInfo :: rest ->
    Story dir dirFiles
      (opening dir found ++ moves dir moved ++ [rename_to dir fileInfo false]).

(** An operation that the filesystem refused. *)
Definition refusal (ev : Event) : bool :=
  match ev with
  | EvMkdir _ false | EvRename _ _ false => true
  | _ => false
  end.

(** How far a task has come, by the operations it has performed. *)
Definition task_script (o : Origin) (dir : string) (dirFiles : list FileInfo.t)
  (tr : list Entry) (task : Task) : Prop :=
  match task with
  | Creating d rest =>
      d = dir /\ rest = dirFiles /\ by_origin o tr = [EvExistsSync dir false]
  | Moving d rest =>
      d = dir
      /\ exists found moved,
          dirFiles = moved ++ rest
          /\ by_origin o tr = opening dir found ++ moves dir moved
  | Failed _ =>
      by_origin o tr = [EvExistsSync dir false; EvMkdir dir false]
      \/ exists found moved fileInfo rest,
          dirFiles = moved ++ fileInfo :: rest
          /\ by_origin o tr
             = opening dir found ++ moves dir moved ++ [rename_to dir fileInfo false]
  end.

Section Tasks.

Context `{C : Collaborators}.

(** Every task of a call is where its operations say. *)
Definition pool_script (call : nat) (dirs : list (string * list FileInfo.t)) (p : Pool)
  : Prop :=
  length (pool_tasks p) = length dirs
  /\ forall i dir dirFiles task,
      dirs !! i = Some (dir, dirFiles) -> pool_tasks p !! i = Some task ->
      task_script (OTask call i) dir dirFiles (pool_trace p) task.

(** The directories and files of the tasks of a [Promise.all] of the
    moving stage: call 1 creates the directories of the types, call
    [2 + k] moves the dates of the [k]-th type of the plan. *)
Definition task_dirs (pl : Plan) (call : nat) : list (string * list FileInfo.t) :=
  match call with
  | 0 => []
  | 1 => type_dirs (filesPerTypeAndDate pl)
  | S (S k) =>
      match JsObject.entries (filesPerTypeAndDate pl) !! k with
      | Some (ty, perDate) => date_dirs ty perDate
      | None => []
      end
  end.

End Tasks.

(** ** The files a run moves *)

(** The sources of the renames attempted by a list of operations. *)
Definition sources (evs : list Event) : list string :=
  omap (fun ev => match ev with EvRename src _ _ => Some src | _ => None end) evs.

(** The sources of the renames attempted in a trace, in order. *)
Definition renamed (tr : list Entry) : list string := sources (map snd tr).

(** The files a task has still to move. *)
Definition pending (task : Task) : list string :=
  match task with
  | Creating _ dirFiles | Moving _ dirFiles => map FileInfo.path dirFiles
  | Failed _ => []
  end.

(** The files the tasks of a call are started for. *)
Definition planned (dirs : list (string * list FileInfo.t)) : list string :=
  flat_map (fun d => map FileInfo.path (snd d)) dirs.

(** The descriptors listed in a plan. *)
Definition all_listed (perTypeAndDate : JsObject.t (JsObject.t (list FileInfo.t)))
  : list FileInfo.t :=
  flat_map (fun perDate => flat_map snd (snd perDate)) perTypeAndDate.

Section Once.

Context `{C : Collaborators}.

(** No file is attempted twice, and none is lost while no task fails. *)
Definition pool_once (dirs : list (string * list FileInfo.t)) (p : Pool) : Prop :=
  renamed (pool_trace p) ++ flat_map pending (pool_tasks p) ⊆+ planned dirs
  /\ (pool_rejection p = None ->
      renamed (pool_trace p) ++ flat_map pending (pool_tasks p) ≡ₚ planned dirs).

(** The files the types' loop is to move. *)
Definition planned_types (types : list (string * JsObject.t (list FileInfo.t)))
  : list string :=
  flat_map (fun e => planned (date_dirs (fst e) (snd e))) types.

End Once.

(** ** The progress bar *)

(** The bar, as the program drives it: [progress.start(total, 0)] sets
    the total and puts the value at 0, [progress.increment()] adds one to
    the value.  [None] is the bar that was never started. *)
Definition bar_step (bar : option (nat * nat)) (ev : Event) : option (nat * nat) :=
  match ev with
  | EvProgressStart total => Some (total, 0)
  | EvProgressIncrement =>
      match bar with
      | Some (total, value) => Some (total, S value)
      | None => None
      end
  | _ => bar
  end.

(** The total and the value of the bar after a trace. *)
Definition bar_after (tr : list Entry) : option (nat * nat) :=
  fold_left bar_step (map snd tr) None.

(** The operations on the bar that count. *)
Definition is_increment (ev : Event) : bool :=
  match ev with EvProgressIncrement => true | _ => false end.

Definition is_start (ev : Event) : bool :=
  match ev with EvProgressStart _ => true | _ => false end.

(** The increments among some operations. *)
Definition ticks (evs : list Event) : nat := length (List.filter is_increment evs).

(** The increments in a trace. *)
Definition ticks_of (tr : list Entry) : nat := ticks (map snd tr).

(** The renames attempted in a trace: source and destination, in order. *)
Definition rename_pairs (tr : list Entry) : list (string * string) :=
  omap (fun e : Entry =>
          match snd e with
          | EvRename src dst _ => Some (src, dst)
          | _ => None
          end) tr.

(** ** The phases of a run *)

(** The phase an operation belongs to: the extraction (0), the printing
    of the table (1), the [c]-th [Promise.all] of the run, for the ones
    of the moving stage ([c + 1]).  The other operations of [main]
    (messages, progress bar) mark no phase. *)
Definition phase (e : Entry) : option nat :=
  match e with
  | (OTask 0 _, _) => Some 0
  | (OTask (S c) _, _) => Some (S (S c))
  | (OMain, EvTable _) => Some 1
  | (OMain, _) => None
  end.

(** A list of numbers that never goes down. *)
Fixpoint ascending (l : list nat) : Prop :=
  match l with
  | [] => True
  | x :: l' => Forall (le x) l' /\ ascending l'
  end.

(** The increments of a task that has settled. *)
Definition weight {A} (slot : option (JsError + A)) (task : list Event * (JsError + A)) : nat :=
  match slot with
  | Some _ => ticks (fst task)
  | None => 0
  end.

Section BarOfPool.

Context `{C : Collaborators}.

(** The increments of the tasks of a call that is not rejected: one for
    every rename. *)
Definition pool_bar (p : Pool) : Prop :=
  Forall (fun e : Entry => is_start (snd e) = false) (pool_trace p)
  /\ (pool_rejection p = None ->
      ticks_of (pool_trace p) = length (renamed (pool_trace p))).

End BarOfPool.

(** ** The order of [sort()] *)


(** ** A filesystem gone wrong

    The filesystem in memory, in a directory where nothing can be
    created ([mkdir] is refused) and where an entry named [dangling], a
    link to nothing, cannot be examined. *)

Module Faulty.

(** A path whose last segment is [dangling]. *)
Definition dangling (p : string) : bool := String.eqb (NodePath.basename p) "dangling".

Definition collaborators : Collaborators := {|
  World := Demo.world;
  cwd := Demo.home;
  tz_offset := 0%Z;
  tz_name := "Coordinated Universal Time";
  readdir := fun w _ => Some (map fst (Demo.listing w));
  isDirectory := fun w p =>
    if dangling p then None
    else match Demo.node w p with
         | Some Demo.Dir => Some true
         | Some (Demo.File _ _ _) => Some false
         | None => None
         end;
  stat := fun w p => if dangling p then None else Demo.demo_stat w p;
  readFile := Demo.demo_readFile;
  existsSync := fun w p => Demo.mem p (Demo.present w);
  mkdir := fun _ _ => None;
  rename := Demo.demo_rename;
  getType := Demo.demo_getType;
  exif_parse := Demo.demo_exif_parse;
|}.

End Faulty.

Example split_example :
  JsString.split_array "."%char "DSC0001.edited.jpg" = ["DSC0001"; "edited"; "jpg"].
Proof. reflexivity. Qed.

Example join_example :
  NodePath.join "/home/u/pics" "a.jpg" = "/home/u/pics/a.jpg"
  /\ NodePath.join "/" "a.jpg" = "/a.jpg"
  /\ NodePath.join "/home//u/./x/.." "Image" = "/home/u/Image"
  /\ NodePath.basename "/home/u/pics/a.jpg" = "a.jpg"
  /\ NodePath.basename "/home/u/pics/" = "pics".
Proof. repeat split; reflexivity. Qed.

Example sort_example :
  JsString.sort_default (fun s => s) ["b"; "a"; "10"; "9"] = ["10"; "9"; "a"; "b"].
Proof. reflexivity. Qed.

Example date_examples :
  JsDate.toISOString 0 = "1970-01-01T00:00:00.000Z"
  /\ JsDate.toString 0 "Coordinated Universal Time" 0
     = "Thu Jan 01 1970 00:00:00 GMT+0000 (Coordinated Universal Time)"
  /\ JsDate.toISOString 1682899200000 = "2023-05-01T00:00:00.000Z"
  /\ JsDate.utc 2023 5 1 = 1682899200000%Z
  /\ JsDate.toString 0 "UTC" (JsDate.utc 2023 5 1) = "Mon May 01 2023 00:00:00 GMT+0000 (UTC)"
  /\ JsDate.toString 0 "UTC" (JsDate.utc 2023 4 20) = "Thu Apr 20 2023 00:00:00 GMT+0000 (UTC)"
  /\ JsDate.toISOString (JsDate.utc 2000 2 29 + 86399999) = "2000-02-29T23:59:59.999Z"
  /\ JsDate.toISOString (JsDate.utc 2024 12 31) = "2024-12-31T00:00:00.000Z"
  /\ JsDate.toISOString (-1) = "1969-12-31T23:59:59.999Z"
  /\ JsDate.toString (-180) "Brasilia Standard Time" 1700000000000
     = "Tue Nov 14 2023 19:13:20 GMT-0300 (Brasilia Standard Time)"
  /\ JsDate.toISOString 1700000000000 = "2023-11-14T22:13:20.000Z".
Proof. repeat split; vm_compute; reflexivity. Qed.

(** * Properties *)

(** ** Strings and paths *)

Section StringFacts.

Import JsString.

Lemma app_cons a (s t : string) : String a s +:+ t = String a (s +:+ t).
Proof. reflexivity. Qed.

Lemma app_empty_l (s : string) : "" +:+ s = s.
Proof. reflexivity. Qed.

Lemma app_empty_r (s : string) : s +:+ "" = s.
Proof. induction s as [|a s IH]; [reflexivity | now rewrite app_cons, IH]. Qed.

Lemma app_assoc' (a b c : string) : (a +:+ b) +:+ c = a +:+ b +:+ c.
Proof. induction a as [|x a IH]; [reflexivity | now rewrite !app_cons, IH]. Qed.


Lemma split_cons c a s :
  split c (String a s) =
  if Ascii.eqb a c then (EmptyString, split_array c s)
  else (String a (fst (split c s)), snd (split c s)).
Proof. unfold split_array. simpl. destruct (split c s). reflexivity. Qed.

(** The first segment holds no separator. *)
Lemma split_fst_no_char c s : has_char c (fst (split c s)) = false.
Proof.
  induction s as [|a s IH]; [reflexivity|].
  rewrite split_cons. destruct (Ascii.eqb a c) eqn:E; simpl; [reflexivity|].
  now rewrite E, IH.
Qed.

(** No segment holds a separator. *)
Lemma split_segments_no_char c s :
  Forall (fun seg => has_char c seg = false) (split_array c s).
Proof.
  induction s as [|a s IH]; [repeat constructor|].
  unfold split_array at 1. rewrite split_cons.
  destruct (Ascii.eqb a c) eqn:E; simpl.
  - constructor; [reflexivity | exact IH].
  - inversion IH as [|? ? H1 H2]; subst. constructor; [|exact H2].
    simpl. now rewrite E, H1.
Qed.

(** A string without the separator is its own single segment. *)
Lemma split_no_char c s : has_char c s = false -> split c s = (s, []).
Proof.
  induction s as [|a s IH]; [reflexivity|]. simpl. intros H.
  apply orb_false_iff in H as [Ha Hs]. rewrite (IH Hs), Ha. reflexivity.
Qed.

Lemma split_rest_nil c s : snd (split c s) = [] -> has_char c s = false.
Proof.
  induction s as [|a s IH]; [reflexivity|].
  rewrite split_cons. destruct (Ascii.eqb a c) eqn:E; simpl.
  - unfold split_array. discriminate.
  - intros H. rewrite E. now apply IH.
Qed.

Lemma concat_cons2 sep (x y : string) l :
  String.concat sep (x :: y :: l) = x +:+ sep +:+ String.concat sep (y :: l).
Proof. reflexivity. Qed.

(** The segments joined by the separator give the string back. *)
Lemma split_concat c s : String.concat (String c "") (split_array c s) = s.
Proof.
  induction s as [|a s IH]; [reflexivity|].
  unfold split_array at 1. rewrite split_cons.
  destruct (Ascii.eqb a c) eqn:E.
  - apply Ascii.eqb_eq in E as ->. cbn [fst snd].
    change (String.concat (String c "") ("" :: split_array c s))
      with (String c (String.concat (String c "") (split_array c s))).
    now rewrite IH.
  - cbn [fst snd]. unfold split_array in IH.
    destruct (snd (split c s)) as [|seg segs].
    + cbn [String.concat] in *. now rewrite IH.
    + rewrite concat_cons2 in *. now rewrite app_cons, IH.
Qed.

Lemma concat_snoc sep (l : list string) x :
  l <> [] -> String.concat sep (l ++ [x]) = String.concat sep l +:+ sep +:+ x.
Proof.
  induction l as [|y l IH]; [congruence|]. intros _.
  destruct l as [|z l]; [reflexivity|].
  change (String.concat sep ((y :: z :: l) ++ [x]))
    with (y +:+ sep +:+ String.concat sep ((z :: l) ++ [x])).
  rewrite IH by discriminate.
  change (String.concat sep (y :: z :: l)) with (y +:+ sep +:+ String.concat sep (z :: l)).
  now rewrite !app_assoc'.
Qed.

(** Splitting at a separator splits the array. *)
Lemma split_array_app c (a b : string) :
  split_array c (a +:+ String c b) = split_array c a ++ split_array c b.
Proof.
  induction a as [|x a IH].
  - rewrite app_empty_l. unfold split_array at 1.
    rewrite split_cons, Ascii.eqb_refl. reflexivity.
  - rewrite app_cons. unfold split_array at 1 2. rewrite !split_cons.
    destruct (Ascii.eqb x c); cbn [fst snd].
    + now rewrite IH.
    + unfold split_array in IH.
      change (fst (split c (a +:+ String c b)) :: snd (split c (a +:+ String c b)))
        with (split_array c (a +:+ String c b)) in IH.
      unfold split_array in IH. injection IH as H1 H2. now rewrite H1, H2.
Qed.

(** The last segment, when there is more than one, ends the string after
    a separator. *)
Lemma split_pop c s ext :
  pop (snd (split c s)) = Some ext ->
  exists pre, s = pre +:+ String c ext /\ has_char c ext = false.
Proof.
  intros H. unfold pop in H. apply last_Some in H as [init Hinit].
  pose proof (split_concat c s) as Hc. pose proof (split_segments_no_char c s) as Hn.
  unfold split_array in Hc, Hn. rewrite Hinit in Hc, Hn.
  change (fst (split c s) :: init ++ [ext]) with ((fst (split c s) :: init) ++ [ext]) in Hc, Hn.
  rewrite concat_snoc in Hc by discriminate.
  exists (String.concat (String c "") (fst (split c s) :: init)). split.
  - symmetry. exact Hc.
  - apply Forall_app in Hn as [_ Hn]. now inversion Hn.
Qed.

(** The first segment begins the string, up to its first separator. *)
Lemma split_first c s :
  exists tail, s = fst (split c s) +:+ tail
               /\ (tail = "" \/ exists tail', tail = String c tail').
Proof.
  pose proof (split_concat c s) as Hc. unfold split_array in Hc.
  destruct (snd (split c s)) as [|seg segs] eqn:E.
  - exists "". split; [|now left]. simpl in Hc. now rewrite app_empty_r.
  - exists (String c (String.concat (String c "") (seg :: segs))). split; [|right; eauto].
    rewrite <- Hc at 1. reflexivity.
Qed.

End StringFacts.

(** ** The extractor *)

Section Extractor.

Context `{C : Collaborators}.

Import JsString.

(** The fields of a descriptor, as [getFileInfo] fills them. *)
Lemma getFileInfo_fields progress w filePath fileInfo :
  snd (getFileInfo progress w filePath) = inr fileInfo ->
  FileInfo.name fileInfo = fst (split "."%char (NodePath.basename filePath))
  /\ FileInfo.extension fileInfo = pop (snd (split "."%char (NodePath.basename filePath)))
  /\ FileInfo.basename fileInfo = NodePath.basename filePath
  /\ FileInfo.path fileInfo = filePath
  /\ FileInfo.mime fileInfo = getType filePath
  /\ snd (readTakenAt w filePath (getType filePath)) = inr (FileInfo.takenAt fileInfo).
Proof.
  unfold getFileInfo. destruct (stat w filePath) as [[c m]|]; [|discriminate].
  destruct (readTakenAt w filePath (getType filePath)) as [evs [e|taken]]; [discriminate|].
  simpl. intros [= <-]. simpl. repeat split; reflexivity.
Qed.

Lemma has_char_split_rest c s :
  has_char c s = true -> exists ext, pop (snd (split c s)) = Some ext.
Proof.
  intros H. destruct (snd (split c s)) as [|seg segs] eqn:E.
  - apply split_rest_nil in E. congruence.
  - unfold pop. destruct (last (seg :: segs)) as [x|] eqn:L; [eauto|].
    apply last_None in L. discriminate.
Qed.

(** C4, as amended: for every file it describes, the extractor derives
    [name] (the group key) as the part of the base name before its first
    dot and [extension] as the part after its last dot; for a base name
    with no dot the group key is the whole name and the extension is
    undefined (not the empty string).  In particular DSC0001.jpg,
    DSC0001.dng and DSC0001.edited.jpg all have the key DSC0001, and a.b
    has the key a and the extension b. *)
Theorem getFileInfo_name_extension progress w filePath fileInfo :
  snd (getFileInfo progress w filePath) = inr fileInfo ->
  FileInfo.basename fileInfo = NodePath.basename filePath
  /\ has_char "."%char (FileInfo.name fileInfo) = false
  /\ (exists tail,
        FileInfo.basename fileInfo = FileInfo.name fileInfo +:+ tail
        /\ (tail = "" \/ exists tail', tail = String "."%char tail'))
  /\ (has_char "."%char (FileInfo.basename fileInfo) = false ->
      FileInfo.name fileInfo = FileInfo.basename fileInfo
      /\ FileInfo.extension fileInfo = None)
  /\ (has_char "."%char (FileInfo.basename fileInfo) = true ->
      exists pre ext,
        FileInfo.extension fileInfo = Some ext
        /\ FileInfo.basename fileInfo = pre +:+ String "."%char ext
        /\ has_char "."%char ext = false)
  /\ (In (FileInfo.basename fileInfo) ["DSC0001.jpg"; "DSC0001.dng"; "DSC0001.edited.jpg"] ->
      FileInfo.name fileInfo = "DSC0001")
  /\ (FileInfo.basename fileInfo = "a.b" ->
      FileInfo.name fileInfo = "a" /\ FileInfo.extension fileInfo = Some "b").
Proof.
  intros H. apply getFileInfo_fields in H as (Hn & He & Hb & _).
  rewrite Hn, He, Hb. generalize (NodePath.basename filePath) as base. intros base.
  split; [reflexivity|]. split; [apply split_fst_no_char|].
  split; [apply split_first|].
  split. { intros H. rewrite (split_no_char _ _ H). split; reflexivity. }
  split.
  { intros Hd. destruct (has_char_split_rest _ _ Hd) as [ext Hx].
    destruct (split_pop _ _ _ Hx) as (pre & Hp & Hne). exists pre, ext. now rewrite Hx. }
  split. { intros [<-|[<-|[<-|[]]]]; reflexivity. }
  intros ->. split; reflexivity.
Qed.

End Extractor.

(** The extension of a name with no dot is undefined, not the empty
    string: the claim C4 as first stated fails on README. *)
Lemma extension_of_dotless_name_counterexample :
  exists fileInfo,
    snd (getFileInfo (C := Demo.collaborators) true
           (Demo.fresh [("README", Demo.File 0%Z 0%Z [])]) "/photos/README") = inr fileInfo
    /\ JsString.has_char "."%char (FileInfo.basename fileInfo) = false
    /\ FileInfo.name fileInfo = "README"
    /\ FileInfo.extension fileInfo <> Some "".
Proof. eexists. vm_compute. repeat split. discriminate. Qed.

Lemma getFileInfo_name_extension_witness :
  exists fileInfo,
    snd (getFileInfo (C := Demo.collaborators) true
           (Demo.fresh [("DSC0001.edited.jpg", Demo.File 0%Z 0%Z [Byte.x00])])
           "/photos/DSC0001.edited.jpg") = inr fileInfo
    /\ FileInfo.name fileInfo = "DSC0001"
    /\ FileInfo.extension fileInfo = Some "jpg".
Proof.
  eexists. split; [vm_compute; reflexivity|].
  pose proof (getFileInfo_name_extension (C := Demo.collaborators) true
                (Demo.fresh [("DSC0001.edited.jpg", Demo.File 0%Z 0%Z [Byte.x00])])
                "/photos/DSC0001.edited.jpg" _ eq_refl) as (_ & _ & _ & _ & _ & Hk & _).
  split; [apply Hk; simpl; auto | reflexivity].
Defined.

Section PathFacts.

Import JsString NodePath.

Lemma entry_name_spec f :
  entry_name f = true ->
  f <> "" /\ has_char sep f = false /\ f <> "." /\ f <> "..".
Proof.
  unfold entry_name. rewrite !andb_true_iff, !negb_true_iff, !String.eqb_neq. tauto.
Qed.

Lemma norm_step_entry allow kept f :
  entry_name f = true -> norm_step allow kept f = f :: kept.
Proof.
  intros H. apply entry_name_spec in H as (H1 & _ & H2 & H3).
  unfold norm_step. apply String.eqb_neq in H1, H2, H3. now rewrite H1, H2, H3.
Qed.

Lemma ends_with_sep_no_char f : has_char sep f = false -> ends_with_sep f = false.
Proof.
  induction f as [|a f IH]; [reflexivity|]. simpl. intros H.
  apply orb_false_iff in H as [Ha Hf]. destruct f; [exact Ha | now apply IH].
Qed.

Lemma ends_with_sep_app q f : f <> "" -> ends_with_sep (q +:+ f) = ends_with_sep f.
Proof.
  intros Hf. induction q as [|a q IH]; [reflexivity|].
  rewrite app_cons. simpl. rewrite IH.
  destruct (q +:+ f) eqn:E; [|reflexivity].
  destruct q; [rewrite app_empty_l in E; congruence | discriminate].
Qed.

Lemma basename_single f : entry_name f = true -> basename f = f.
Proof.
  intros H. apply entry_name_spec in H as (H1 & H2 & _).
  unfold basename, split_array. rewrite (split_no_char _ _ H2). simpl.
  apply String.eqb_neq in H1. now rewrite H1.
Qed.

Lemma basename_after_sep q f : entry_name f = true -> basename (q +:+ String sep f) = f.
Proof.
  intros H. apply entry_name_spec in H as (H1 & H2 & _).
  unfold basename. rewrite split_array_app.
  unfold split_array at 2. rewrite (split_no_char _ _ H2). cbn [fst snd].
  rewrite rev_app_distr. simpl. apply String.eqb_neq in H1. now rewrite H1.
Qed.

Lemma concat_snoc_nonempty sepa (l : list string) x :
  x <> "" -> String.concat sepa (l ++ [x]) <> "".
Proof.
  intros Hx. destruct l as [|y l]; [exact Hx|].
  change ((y :: l) ++ [x]) with ((y :: l) ++ [x]).
  rewrite concat_snoc by discriminate. intros E.
  destruct (String.concat sepa (y :: l)); [|discriminate].
  rewrite app_empty_l in E. destruct sepa; [|discriminate].
  rewrite app_empty_l in E. contradiction.
Qed.

Lemma normalizeString_entry p f allow :
  entry_name f = true ->
  exists kept, normalizeString (p +:+ String sep f) allow = String.concat "/" (kept ++ [f]).
Proof.
  intros H. pose proof (entry_name_spec _ H) as (H1 & H2 & _).
  unfold normalizeString. rewrite split_array_app.
  unfold split_array at 2. rewrite (split_no_char _ _ H2). cbn [fst snd].
  rewrite fold_left_app. cbn [fold_left]. rewrite norm_step_entry by exact H.
  cbn [rev]. eauto.
Qed.

(** A path normalized after an entry name was appended to it ends with
    that name. *)
Lemma normalize_entry p f :
  entry_name f = true ->
  normalize (p +:+ String sep f) = f
  \/ exists q, normalize (p +:+ String sep f) = q +:+ String sep f.
Proof.
  intros H. pose proof (entry_name_spec _ H) as (H1 & H2 & _).
  unfold normalize.
  assert (Hne : String.eqb (p +:+ String sep f) "" = false).
  { apply String.eqb_neq. destruct p; discriminate. }
  rewrite Hne.
  assert (Hend : ends_with_sep (p +:+ String sep f) = false).
  { rewrite ends_with_sep_app by discriminate.
    simpl. destruct f; [congruence|]. now apply (ends_with_sep_no_char (String a f)). }
  rewrite Hend.
  destruct (normalizeString_entry p f (negb (starts_with_sep (p +:+ String sep f))) H)
    as [kept ->].
  assert (Hb : String.eqb (String.concat "/" (kept ++ [f])) "" = false).
  { apply String.eqb_neq. now apply concat_snoc_nonempty. }
  rewrite Hb.
  destruct kept as [|y ys].
  - cbn [app String.concat].
    destruct (starts_with_sep (p +:+ String sep f)); [right; exists ""; reflexivity | now left].
  - right. rewrite concat_snoc by discriminate.
    destruct (starts_with_sep (p +:+ String sep f)).
    + exists ("/" +:+ String.concat "/" (y :: ys)). now rewrite !app_assoc'.
    + exists (String.concat "/" (y :: ys)). reflexivity.
Qed.

Lemma normalize_single f : entry_name f = true -> normalize f = f.
Proof.
  intros H. pose proof (entry_name_spec _ H) as (H1 & H2 & _).
  unfold normalize. apply String.eqb_neq in H1 as H1'. rewrite H1'.
  rewrite (ends_with_sep_no_char _ H2).
  assert (Hs : starts_with_sep f = false).
  { destruct f; [reflexivity|]. simpl in *. now apply orb_false_iff in H2 as [? _]. }
  rewrite Hs. unfold normalizeString, split_array. rewrite (split_no_char _ _ H2).
  cbn [fst snd fold_left]. rewrite norm_step_entry by exact H. cbn [rev app String.concat].
  now rewrite H1'.
Qed.

(** The base name of an entry of a directory, joined to the directory,
    is the name of the entry. *)
Lemma basename_join dir f : entry_name f = true -> basename (join dir f) = f.
Proof.
  intros H. pose proof (entry_name_spec _ H) as (H1 & _).
  unfold join. apply String.eqb_neq in H1 as H1'. rewrite H1'.
  destruct (String.eqb dir "").
  - rewrite normalize_single by exact H. now apply basename_single.
  - destruct (normalize_entry dir f H) as [E|[q E]].
    + change (dir +:+ "/" +:+ f) with (dir +:+ String sep f). rewrite E.
      now apply basename_single.
    + change (dir +:+ "/" +:+ f) with (dir +:+ String sep f). rewrite E.
      now apply basename_after_sep.
Qed.

End PathFacts.

(** ** [Promise.all] over the extraction *)

Section PromiseAll.

Context `{C : Collaborators} {A : Type}.
Variable call : nat.
Variable tasks : list (list Event * (JsError + A)).

Lemma lookup_map {X Y} (f : X -> Y) (l : list X) i : map f l !! i = f <$> (l !! i).
Proof. revert i. induction l as [|x l IH]; intros [|i]; simpl; auto. Qed.

Lemma settle_ok st i : settling_ok call tasks st -> settling_ok call tasks (settle call tasks st i).
Proof.
  intros (I1 & I2 & I3 & I4 & I5). unfold settle.
  destruct (slots st !! i) as [[r0|]|] eqn:Es; try (repeat split; assumption).
  destruct (tasks !! i) as [[evs r]|] eqn:Et; [|repeat split; assumption].
  assert (Hi : i < length (slots st)) by (eapply lookup_lt_Some; eauto).
  unfold settling_ok. cbn [slots settled_trace first_rejection].
  split; [now rewrite length_insert|].
  split.
  { intros j r' Hj. destruct (decide (i = j)) as [<-|Hne].
    - rewrite list_lookup_insert_eq in Hj by exact Hi. injection Hj as <-. eauto.
    - rewrite list_lookup_insert_ne in Hj by exact Hne. eauto. }
  split.
  { intros Hfr j e Hj. destruct (decide (i = j)) as [<-|Hne].
    - rewrite list_lookup_insert_eq in Hj by exact Hi. injection Hj as ->.
      destruct (first_rejection st); discriminate.
    - rewrite list_lookup_insert_ne in Hj by exact Hne.
      destruct (first_rejection st) eqn:Ef; [destruct r; discriminate|].
      now apply (I3 eq_refl j e). }
  split.
  { intros e He. destruct (first_rejection st) as [e0|] eqn:Ef.
    - apply I4. now destruct r.
    - destruct r as [e1|a]; [|discriminate]. injection He as <-. eauto. }
  intros o ev Hin. apply in_app_or in Hin as [Hin|Hin]; [eauto|].
  apply in_map_iff in Hin as (ev' & [= <- <-] & Hev). eauto 6.
Qed.

Lemma settle_mono st i j : is_settled st j -> is_settled (settle call tasks st i) j.
Proof.
  intros [r Hr]. unfold settle.
  destruct (slots st !! i) as [[r0|]|] eqn:Es; try (now exists r).
  destruct (tasks !! i) as [[evs r1]|] eqn:Et; [|now exists r].
  exists r. cbn [slots]. rewrite list_lookup_insert_ne; [exact Hr | congruence].
Qed.

Lemma settle_here st i :
  length (slots st) = length tasks -> i < length tasks ->
  is_settled (settle call tasks st i) i.
Proof.
  intros Hl Hi. unfold settle.
  destruct (slots st !! i) as [[r0|]|] eqn:Es.
  - now exists r0.
  - destruct (lookup_lt_is_Some_2 tasks i Hi) as [[evs r] Et]. rewrite Et.
    exists r. cbn [slots]. apply list_lookup_insert_eq. now rewrite Hl.
  - apply lookup_ge_None in Es. lia.
Qed.

Lemma settle_all order st :
  settling_ok call tasks st ->
  settling_ok call tasks (fold_left (settle call tasks) order st)
  /\ (forall j, is_settled st j \/ (In j order /\ j < length tasks) ->
      is_settled (fold_left (settle call tasks) order st) j).
Proof.
  revert st. induction order as [|i order IH]; intros st Hok.
  - split; [exact Hok|]. intros j [H|[[] _]]. exact H.
  - cbn [fold_left]. destruct (IH _ (settle_ok st i Hok)) as [Hok' Hs]. split; [exact Hok'|].
    intros j [H|[[<-|Hin] Hj]]; apply Hs.
    + left. now apply settle_mono.
    + left. apply settle_here; [apply Hok | exact Hj].
    + right. auto.
Qed.

Lemma initial_ok : settling_ok call tasks (mkSettling (replicate (length tasks) None) [] None).
Proof.
  unfold settling_ok. cbn. split; [apply length_replicate|].
  split. { intros i r H. apply lookup_replicate in H as [? _]. discriminate. }
  split. { intros _ i e H. apply lookup_replicate in H as [? _]. discriminate. }
  split. { discriminate. }
  intros o ev [].
Qed.

(** Whatever the schedule, every slot ends with the result of its task. *)
Lemma promise_all_slots schedule :
  let st := fold_left (settle call tasks) (schedule ++ seq 0 (length tasks))
              (mkSettling (replicate (length tasks) None) [] None) in
  settling_ok call tasks st /\ slots st = map (fun t => Some (snd t)) tasks.
Proof.
  intros st. destruct (settle_all (schedule ++ seq 0 (length tasks)) _ initial_ok) as [Hok Hs].
  fold st in Hok, Hs. split; [exact Hok|].
  destruct Hok as (I1 & I2 & _). apply list_eq. intros i. rewrite lookup_map.
  destruct (decide (i < length tasks)) as [Hi|Hi].
  - destruct (Hs i) as [r Hr].
    { right. split; [|exact Hi]. apply in_or_app. right. apply in_seq. lia. }
    rewrite Hr. destruct (I2 _ _ Hr) as [evs ->]. reflexivity.
  - rewrite (lookup_ge_None_2 (slots st)) by lia.
    rewrite (lookup_ge_None_2 tasks) by lia. reflexivity.
Qed.

Lemma fulfilled_values (l : list A) :
  fulfilled (map (fun t : list Event * (JsError + A) => Some (snd t))
               (map (fun a => ([], inr a)) l)) = l.
Proof. induction l as [|a l IH]; [reflexivity|]. cbn. unfold fulfilled in IH. now rewrite IH. Qed.

Lemma fulfilled_results (ts : list (list Event * (JsError + A))) (l : list A) :
  map snd ts = map inr l -> fulfilled (map (fun t => Some (snd t)) ts) = l.
Proof.
  revert l. induction ts as [|[evs r] ts IH]; intros [|a l] H; try discriminate; [reflexivity|].
  cbn in H. injection H as -> H. cbn. unfold fulfilled in IH. now rewrite (IH _ H).
Qed.

Lemma results_fulfilled (ts : list (list Event * (JsError + A))) :
  (forall i e, map (fun t => Some (snd t)) ts !! i <> Some (Some (inl e))) ->
  map snd ts = map inr (fulfilled (map (fun t => Some (snd t)) ts)).
Proof.
  induction ts as [|[evs r] ts IH]; intros H; [reflexivity|].
  destruct r as [e|a]; [exfalso; now apply (H 0 e)|].
  cbn. f_equal. apply IH. intros i e. apply (H (S i) e).
Qed.

(** [Promise.all] is fulfilled exactly when all its tasks are, and then
    with their values in the order of the tasks, whatever the order in
    which they settled. *)
Lemma promise_all_fulfilled schedule (l : list A) :
  snd (promise_all call schedule tasks) = inr l <-> map snd tasks = map inr l.
Proof.
  unfold promise_all. destruct (promise_all_slots schedule) as [Hok Hsl].
  cbn zeta in Hok, Hsl. cbn [snd]. set (st := fold_left _ _ _) in *.
  destruct Hok as (_ & _ & I3 & I4 & _). split.
  - destruct (first_rejection st) eqn:Ef; [discriminate|]. intros [= <-].
    rewrite Hsl. apply results_fulfilled. rewrite <- Hsl. now apply I3.
  - intros H. destruct (first_rejection st) as [e|] eqn:Ef.
    + destruct (I4 e eq_refl) as (i & evs & Hi).
      assert (Hm : map snd tasks !! i = Some (inl e)) by (rewrite lookup_map, Hi; reflexivity).
      rewrite H, lookup_map in Hm. destruct (l !! i); discriminate.
    + f_equal. rewrite Hsl. now apply fulfilled_results.
Qed.

(** A rejection of [Promise.all] is the rejection of one of its tasks. *)
Lemma promise_all_rejected schedule e :
  snd (promise_all call schedule tasks) = inl e ->
  exists i evs, tasks !! i = Some (evs, inl e).
Proof.
  unfold promise_all. destruct (promise_all_slots schedule) as [Hok _].
  cbn zeta in Hok. cbn [snd]. set (st := fold_left _ _ _) in *.
  destruct Hok as (_ & _ & _ & I4 & _).
  destruct (first_rejection st) eqn:Ef; [|discriminate]. intros [= <-]. now apply I4.
Qed.

(** Every operation in the trace of [Promise.all] is an operation of one
    of its tasks. *)
Lemma promise_all_trace schedule o ev :
  In (o, ev) (fst (promise_all call schedule tasks)) ->
  exists i evs r, o = OTask call i /\ tasks !! i = Some (evs, r) /\ In ev evs.
Proof.
  unfold promise_all. destruct (promise_all_slots schedule) as [Hok _].
  cbn zeta in Hok. cbn [fst]. destruct Hok as (_ & _ & _ & _ & I5). apply I5.
Qed.

End PromiseAll.

(** ** The pipeline *)

Section Pipeline.

Context `{C : Collaborators}.

Lemma promise_all_schedule_free {A} call s1 s2 (tasks : list (list Event * (JsError + A))) l :
  snd (promise_all call s1 tasks) = inr l -> snd (promise_all call s2 tasks) = inr l.
Proof. intros H. apply promise_all_fulfilled. now apply promise_all_fulfilled in H. Qed.

(** What the stages of a run are, stage by stage. *)
Lemma pipeline_stages schedules w st :
  stages_of (pipeline schedules w) = Some st <->
  snd (scan w) = inr (baseFiles st)
  /\ map snd (map (getFileInfo true w) (baseFiles st)) = map inr (baseFilesInfo st)
  /\ group_files (baseFilesInfo st) = inr (files st)
  /\ process_groups (files st) = inr (plan st).
Proof.
  unfold stages_of, pipeline. destruct (scan w) as [evs [e|paths]]; cbn [snd].
  { split; [discriminate | intros [? _]; discriminate]. }
  destruct (promise_all 0 (schedules 0) (map (getFileInfo true w) paths))
    as [tr1 [e|infos]] eqn:Ep.
  { cbn [snd]. split; [discriminate|]. intros ([= <-] & Hm & _).
    apply (promise_all_fulfilled 0 _ (schedules 0)) in Hm. rewrite Ep in Hm. discriminate. }
  assert (Hm : map snd (map (getFileInfo true w) paths) = map inr infos).
  { apply (promise_all_fulfilled 0 _ (schedules 0)). now rewrite Ep. }
  assert (Hinj : forall l, map snd (map (getFileInfo true w) paths) = map (@inr JsError _) l
                           -> l = infos).
  { intros l Hl. rewrite Hm in Hl. revert Hl. clear. revert l.
    induction infos as [|x xs IH]; intros [|y ys] H; try discriminate; [reflexivity|].
    cbn in H. injection H as -> H. f_equal. now apply IH. }
  destruct (group_files infos) as [e|groups] eqn:Eg.
  { cbn [snd]. split; [discriminate|]. intros ([= <-] & Hm' & Hg & _).
    apply Hinj in Hm'. rewrite Hm', Eg in Hg. discriminate. }
  destruct (process_groups groups) as [e|pl] eqn:Epl; cbn [snd].
  { split; [discriminate|]. intros ([= <-] & Hm' & Hg & Hp).
    apply Hinj in Hm'. rewrite Hm', Eg in Hg. injection Hg as Hg.
    rewrite <- Hg, Epl in Hp. discriminate. }
  split.
  - intros [= <-]. cbn. auto.
  - intros (Hs & Hm' & Hg & Hp). injection Hs as Hs. rewrite <- Hs in Hm'.
    apply Hinj in Hm'. rewrite Hm', Eg in Hg. injection Hg as Hg.
    rewrite <- Hg, Epl in Hp. injection Hp as Hp.
    destruct st; cbn in *; congruence.
Qed.

(** The stages of a run do not depend on the order in which the
    extractions settle. *)
Lemma pipeline_schedule_free schedules1 schedules2 w :
  stages_of (pipeline schedules1 w) = stages_of (pipeline schedules2 w).
Proof.
  destruct (stages_of (pipeline schedules1 w)) as [st|] eqn:E1.
  - symmetry. apply pipeline_stages. now apply pipeline_stages in E1.
  - destruct (stages_of (pipeline schedules2 w)) as [st|] eqn:E2; [|reflexivity].
    apply pipeline_stages in E2. apply (pipeline_stages schedules1) in E2. congruence.
Qed.

(** C10: for a given filesystem and given collaborators, two runs of the
    pipeline compute the same descriptors in the same order, the same
    groups, the same verdicts and the same plan, whatever the order in
    which the concurrent extractions settle; the descriptors come in the
    order of the listing. *)
Theorem pipeline_deterministic schedules1 schedules2 w :
  stages_of (pipeline schedules1 w) = stages_of (pipeline schedules2 w)
  /\ match stages_of (pipeline schedules1 w) with
     | Some st =>
         map (fun filePath => snd (getFileInfo true w filePath)) (baseFiles st)
         = map inr (baseFilesInfo st)
     | None => True
     end.
Proof.
  split; [apply pipeline_schedule_free|].
  destruct (stages_of (pipeline schedules1 w)) as [st|] eqn:E1; [|exact I].
  apply pipeline_stages in E1 as (_ & Hm & _). now rewrite map_map in Hm.
Qed.

End Pipeline.

(** ** Preview mode *)

Section Preview.

Context `{C : Collaborators}.

Lemma readTakenAt_reads w filePath mimeType :
  Forall (fun ev => mutates ev = false) (fst (readTakenAt w filePath mimeType)).
Proof.
  unfold readTakenAt. destruct (JsString.includes _ mimeType); [|constructor].
  destruct (readFile w filePath); [|repeat constructor].
  destruct (exif_parse l); repeat constructor.
Qed.

Lemma getFileInfo_reads progress w filePath :
  Forall (fun ev => mutates ev = false) (fst (getFileInfo progress w filePath)).
Proof.
  unfold getFileInfo. destruct (stat w filePath) as [[c m]|]; [|repeat constructor].
  pose proof (readTakenAt_reads w filePath (getType filePath)) as H.
  destruct (readTakenAt w filePath (getType filePath)) as [evs [e|taken]]; cbn [fst] in *.
  - now constructor.
  - constructor; [reflexivity|]. apply Forall_app. split; [exact H|].
    destruct progress; repeat constructor.
Qed.

Lemma filter_valid_reads w paths :
  Forall (fun ev => mutates ev = false) (fst (filter_valid w paths)).
Proof.
  induction paths as [|p rest IH]; [constructor|]. cbn [filter_valid].
  assert (Hv : Forall (fun ev => mutates ev = false) (fst (isValidFile w p))).
  { unfold isValidFile. destruct (ignored _); [constructor|].
    destruct (isDirectory w p) as [[|]|]; repeat constructor. }
  destruct (isValidFile w p) as [evs [e|keep]]; [exact Hv|].
  destruct (filter_valid w rest) as [evs' [e|kept]]; apply Forall_app; auto.
Qed.

Lemma scan_reads w : Forall (fun ev => mutates ev = false) (fst (scan w)).
Proof.
  unfold scan. destruct (readdir w cwd) as [names|]; [|repeat constructor].
  pose proof (filter_valid_reads w (map (NodePath.join cwd) names)) as H.
  destruct (filter_valid w _) as [evs r]. now constructor.
Qed.

Lemma on_main_reads evs :
  Forall (fun ev => mutates ev = false) evs ->
  Forall (fun e : Entry => mutates (snd e) = false) (on_main evs).
Proof. unfold on_main. intros H. apply Forall_map. exact H. Qed.

(** The pipeline only reads: nothing it does creates a directory or
    renames a file. *)
Lemma pipeline_reads schedules w :
  Forall (fun e : Entry => mutates (snd e) = false) (fst (pipeline schedules w)).
Proof.
  unfold pipeline. pose proof (scan_reads w) as Hs.
  destruct (scan w) as [evs [e|paths]]; cbn [fst] in *; [now apply on_main_reads|].
  assert (H0 : Forall (fun e : Entry => mutates (snd e) = false)
                 (on_main (evs ++ [EvLog "Extracting file information...";
                                   EvProgressStart (length paths)]))).
  { apply on_main_reads. apply Forall_app. split; [exact Hs | repeat constructor]. }
  assert (H1 : Forall (fun e : Entry => mutates (snd e) = false)
                 (fst (promise_all 0 (schedules 0) (map (getFileInfo true w) paths)))).
  { apply Forall_forall. intros [o ev] Hin. apply list_elem_of_In in Hin.
    apply promise_all_trace in Hin as (i & evs' & r & _ & Hi & Hev).
    rewrite lookup_map in Hi. destruct (paths !! i) as [p|]; [|discriminate].
    injection Hi as Hi. pose proof (getFileInfo_reads true w p) as Hr.
    rewrite Hi in Hr. cbn [fst snd] in *.
    rewrite Forall_forall in Hr. apply Hr. now apply list_elem_of_In. }
  destruct (promise_all 0 (schedules 0) (map (getFileInfo true w) paths))
    as [tr1 [e|infos]]; cbn [fst] in *.
  { apply Forall_app. auto. }
  assert (H2 : Forall (fun e : Entry => mutates (snd e) = false)
                 (on_main (evs ++ [EvLog "Extracting file information...";
                                   EvProgressStart (length paths)])
                  ++ tr1 ++ [(OMain, EvProgressStop)])).
  { apply Forall_app. split; [exact H0|]. apply Forall_app. split; [exact H1|].
    repeat constructor. }
  destruct (group_files infos); [exact H2|].
  destruct (process_groups t); exact H2.
Qed.

Lemma includes_move command :
  command <> Some "move" -> JsString.includes ["move"] command = false.
Proof.
  intros H. destruct command as [s|]; [|reflexivity]. simpl.
  destruct (String.eqb_spec s "move"); [congruence | reflexivity].
Qed.

(** A run that is not in move mode only reads. *)
Lemma preview_reads schedules command w :
  JsString.includes ["move"] command = false ->
  Forall (fun e : Entry => mutates (snd e) = false) (trace (main schedules command w)).
Proof.
  intros Hc. unfold main. pose proof (pipeline_reads schedules w) as Hr.
  destruct (pipeline schedules w) as [tr [e|st]]; cbn [fst] in Hr; [exact Hr|].
  rewrite Hc. cbn [negb trace].
  apply Forall_app. split; [|repeat constructor].
  apply Forall_app. split; [exact Hr | repeat constructor].
Qed.

(** C9: a run whose command is not [move] goes through the pipeline and
    prints the table, and creates no directory and renames no file: the
    filesystem is left as it was.  So a second preview, over what the
    first one left, computes the same plan. *)
Theorem preview_leaves_filesystem schedules command w :
  command <> Some "move" ->
  final (main schedules command w) = w
  /\ Forall (fun e : Entry => mutates (snd e) = false) (trace (main schedules command w))
  /\ (forall st, stages_of (pipeline schedules w) = Some st ->
      In (OMain, EvTable (filesForInformation (plan st))) (trace (main schedules command w))
      /\ outcome (main schedules command w) = Returned 0)
  /\ (forall schedules',
      stages_of (pipeline schedules' (final (main schedules command w)))
      = stages_of (pipeline schedules w)).
Proof.
  intros Hc. apply includes_move in Hc.
  assert (Hf : final (main schedules command w) = w).
  { unfold main. destruct (pipeline schedules w) as [tr [e|st]]; [reflexivity|].
    rewrite Hc. reflexivity. }
  split; [exact Hf|]. split; [|split].
  - now apply preview_reads.
  - intros st Hst. unfold stages_of, main in *.
    destruct (pipeline schedules w) as [tr [e|st']]; cbn [snd] in Hst; [discriminate|].
    injection Hst as ->. rewrite Hc. cbn [negb trace outcome]. split; [|reflexivity].
    apply in_or_app. left. apply in_or_app. right. now left.
  - intros schedules'. rewrite Hf. apply pipeline_schedule_free.
Qed.

End Preview.

Lemma preview_leaves_filesystem_witness :
  let w := Demo.fresh [("DSC0001.jpg", Demo.File 0%Z (JsDate.utc 2023 5 3) [Byte.x00]);
                       ("notes.txt", Demo.File 0%Z (JsDate.utc 2023 4 20) [])] in
  None <> Some "move"
  /\ final (main (C := Demo.collaborators) Demo.in_order None w) = w
  /\ outcome (main (C := Demo.collaborators) Demo.in_order None w) = Returned 0.
Proof.
  intros w. split; [discriminate|].
  destruct (preview_leaves_filesystem (C := Demo.collaborators) Demo.in_order None w)
    as (Hf & _ & Ht & _); [discriminate|].
  split; [exact Hf|]. eapply Ht. vm_compute. reflexivity.
Defined.

(** ** The descriptors of a run *)

Section Descriptors.

Context `{C : Collaborators}.

Import JsString.

Lemma filter_valid_kept w paths kept p :
  snd (filter_valid w paths) = inr kept -> In p kept ->
  In p paths /\ snd (isValidFile w p) = inr true.
Proof.
  revert kept. induction paths as [|q rest IH]; intros kept H Hin; cbn [filter_valid] in H.
  - injection H as <-. destruct Hin.
  - destruct (isValidFile w q) as [evs [e|keep]] eqn:Ev; [discriminate|].
    destruct (filter_valid w rest) as [evs' [e|kept']]; [discriminate|].
    cbn [snd] in *. injection H as <-.
    destruct keep.
    + destruct Hin as [<-|Hin].
      * split; [now left | now rewrite Ev].
      * destruct (IH _ eq_refl Hin). split; [now right | assumption].
    + destruct (IH _ eq_refl Hin). split; [now right | assumption].
Qed.

Lemma isValidFile_not_ignored w p :
  snd (isValidFile w p) = inr true -> ignored (NodePath.basename p) = false.
Proof. unfold isValidFile. destruct (ignored _); [discriminate | reflexivity]. Qed.

Lemma map_eq_In {X Y Z} (f : X -> Z) (g : Y -> Z) l l' y :
  map f l = map g l' -> In y l' -> exists x, In x l /\ f x = g y.
Proof.
  revert l'. induction l as [|x l IH]; intros [|y' l'] H Hin; try discriminate; [destruct Hin|].
  cbn in H. injection H as Hx Hl. destruct Hin as [<-|Hin].
  - exists x. split; [now left | exact Hx].
  - destruct (IH _ Hl Hin) as (x' & Hx' & E). exists x'. split; [now right | exact E].
Qed.

(** Every descriptor of a run describes a path that went through the
    filter. *)
Lemma descriptor_source schedules w st fileInfo :
  stages_of (pipeline schedules w) = Some st ->
  In fileInfo (baseFilesInfo st) ->
  exists filePath,
    In filePath (baseFiles st)
    /\ snd (getFileInfo true w filePath) = inr fileInfo.
Proof.
  intros Hst Hin. apply pipeline_stages in Hst as (_ & Hm & _).
  rewrite map_map in Hm. now apply (map_eq_In _ _ _ _ _ Hm).
Qed.

Lemma split_fst_empty c s :
  fst (split c s) = "" <-> s = "" \/ exists rest, s = String c rest.
Proof.
  destruct s as [|a s]; [split; auto|].
  rewrite split_cons. destruct (Ascii.eqb_spec a c) as [->|Hne]; cbn [fst].
  - split; [right; eauto | reflexivity].
  - split; [discriminate|]. intros [H|[rest H]]; [discriminate | congruence].
Qed.

(** What the names of a descriptor are, for a listing of entry names. *)
Lemma descriptor_entry schedules w st fileNames fileInfo :
  stages_of (pipeline schedules w) = Some st ->
  readdir w cwd = Some fileNames ->
  Forall (fun f => NodePath.entry_name f = true) fileNames ->
  In fileInfo (baseFilesInfo st) ->
  In (FileInfo.basename fileInfo) fileNames
  /\ ignored (FileInfo.basename fileInfo) = false
  /\ FileInfo.basename fileInfo <> ""
  /\ (FileInfo.name fileInfo = ""
      <-> exists rest, FileInfo.basename fileInfo = String "."%char rest).
Proof.
  intros Hst Hrd Hnames Hin.
  destruct (descriptor_source _ _ _ _ Hst Hin) as (p & Hp & Hfi).
  apply pipeline_stages in Hst as (Hscan & _).
  unfold scan in Hscan. rewrite Hrd in Hscan.
  destruct (filter_valid w (map (NodePath.join cwd) fileNames)) as [evs r] eqn:Ef.
  cbn [snd] in Hscan. subst r.
  assert (Hk := filter_valid_kept w _ _ p (f_equal snd Ef) Hp).
  destruct Hk as [Hpin Hvalid]. apply in_map_iff in Hpin as (f & <- & Hf).
  rewrite Forall_forall in Hnames. assert (Hen := Hnames f (proj2 (list_elem_of_In _ _) Hf)).
  apply getFileInfo_fields in Hfi as (Hn & _ & Hb & _).
  apply isValidFile_not_ignored in Hvalid.
  rewrite (basename_join _ _ Hen) in *. rewrite Hn, Hb.
  destruct (entry_name_spec _ Hen) as (Hne & _).
  split; [exact Hf|]. split; [exact Hvalid|]. split; [exact Hne|].
  rewrite split_fst_empty. split; [intros [?|?]; [contradiction | assumption] | auto].
Qed.

(** C5, as amended: every descriptor of a run has a non-empty [basename],
    which is the name of an entry of the directory that the filter let
    through; its [name] (the group key) is non-empty unless the base name
    begins with a dot, in which case the group key is the empty string. *)
Theorem descriptor_names schedules w st fileNames fileInfo :
  stages_of (pipeline schedules w) = Some st ->
  readdir w cwd = Some fileNames ->
  Forall (fun f => NodePath.entry_name f = true) fileNames ->
  In fileInfo (baseFilesInfo st) ->
  In (FileInfo.basename fileInfo) fileNames
  /\ ignored (FileInfo.basename fileInfo) = false
  /\ FileInfo.basename fileInfo <> ""
  /\ (FileInfo.name fileInfo = ""
      <-> exists rest, FileInfo.basename fileInfo = String "."%char rest).
Proof. apply descriptor_entry. Qed.

End Descriptors.

(** The group key of [.gitignore], a name that the filter lets through,
    is empty: the claim C5 as first stated fails on it. *)
Lemma empty_group_key_counterexample :
  let w := Demo.fresh [(".gitignore", Demo.File 0%Z 0%Z [])] in
  exists st fileInfo,
    stages_of (pipeline (C := Demo.collaborators) Demo.in_order w) = Some st
    /\ In fileInfo (baseFilesInfo st)
    /\ FileInfo.basename fileInfo = ".gitignore"
    /\ FileInfo.name fileInfo = "".
Proof.
  intros w. eexists. eexists.
  split; [vm_compute; reflexivity|]. split; [left; reflexivity|]. split; reflexivity.
Qed.

Lemma descriptor_names_witness :
  let w := Demo.fresh [("DSC0001.jpg", Demo.File 0%Z 0%Z [Byte.x00]);
                       (".gitignore", Demo.File 0%Z 0%Z [])] in
  exists st fileInfo,
    stages_of (pipeline (C := Demo.collaborators) Demo.in_order w) = Some st
    /\ In fileInfo (baseFilesInfo st)
    /\ FileInfo.basename fileInfo <> ""
    /\ (FileInfo.name fileInfo = ""
        <-> exists rest, FileInfo.basename fileInfo = String "."%char rest).
Proof.
  intros w. eexists. eexists.
  split; [vm_compute; reflexivity|]. split; [right; left; reflexivity|].
  eapply (descriptor_names (C := Demo.collaborators) Demo.in_order w _
            [ "DSC0001.jpg"; ".gitignore" ]).
  - vm_compute. reflexivity.
  - reflexivity.
  - repeat constructor.
  - right. left. reflexivity.
Defined.

(** ** The reduction of a group *)

Section Reducer.

Import JsString.

(** A member whose type is one of image, audio, video. *)
Lemma includes_media ty : includes media_types (Some ty) = true <-> In ty media_types.
Proof.
  unfold includes, media_types. simpl. rewrite !orb_true_iff, !String.eqb_eq.
  split; [intros [?|[?|[?|?]]] | intros [?|[?|[?|[]]]]]; auto; discriminate.
Qed.

Lemma not_media_includes (x : FileInfo.t) :
  ~ (exists ty, FileInfo.type x = Some ty /\ In ty media_types) ->
  includes media_types (FileInfo.type x) = false.
Proof.
  intros H. destruct (FileInfo.type x) as [ty|] eqn:E; [|reflexivity].
  destruct (includes media_types (Some ty)) eqn:Ei; [|reflexivity].
  exfalso. apply H. exists ty. split; [reflexivity|]. now apply includes_media.
Qed.

Lemma filter_none_media (l : list FileInfo.t) :
  (forall x, In x l -> ~ (exists ty, FileInfo.type x = Some ty /\ In ty media_types)) ->
  List.filter (fun fileInfo => includes media_types (FileInfo.type fileInfo)) l = [].
Proof.
  induction l as [|x l IH]; intros H; [reflexivity|]. cbn [List.filter].
  rewrite (not_media_includes x) by (apply H; now left).
  apply IH. intros y Hy. apply H. now right.
Qed.

(** C2: the type of a group is the type of its first member, in the order
    of the group, whose type is one of image, audio and video, and it is
    "other" when no member has such a type; members of types other,
    video, image, in that order, give "video". *)
Theorem groupType_first_media (fileInfos : list FileInfo.t) :
  (forall before member after ty,
      fileInfos = before ++ member :: after ->
      (forall x, In x before ->
                 ~ (exists t, FileInfo.type x = Some t /\ In t media_types)) ->
      FileInfo.type member = Some ty ->
      In ty media_types ->
      groupType fileInfos = ty)
  /\ ((forall x, In x fileInfos ->
                 ~ (exists t, FileInfo.type x = Some t /\ In t media_types)) ->
      groupType fileInfos = "other")
  /\ (map FileInfo.type fileInfos = [Some "other"; Some "video"; Some "image"] ->
      groupType fileInfos = "video").
Proof.
  assert (H1 : forall before member after ty,
             fileInfos = before ++ member :: after ->
             (forall x, In x before ->
                        ~ (exists t, FileInfo.type x = Some t /\ In t media_types)) ->
             FileInfo.type member = Some ty ->
             In ty media_types ->
             groupType fileInfos = ty).
  { intros before member after ty -> Hb Hm Hty. unfold groupType.
    rewrite List.filter_app, (filter_none_media before Hb). cbn [app List.filter].
    rewrite Hm, (proj2 (includes_media ty) Hty). cbn [map shift fst]. rewrite Hm.
    destruct Hty as [<-|[<-|[<-|[]]]]; reflexivity. }
  split; [exact H1|]. split.
  - intros H. unfold groupType. now rewrite (filter_none_media fileInfos H).
  - intros Hm. destruct fileInfos as [|a [|b [|c [|d l]]]]; try discriminate.
    injection Hm as Ha Hb Hc.
    apply (H1 [a] b [c] "video"); [reflexivity | | exact Hb | right; right; now left].
    intros x [<-|[]] (t & Ht & Hin). rewrite Ha in Ht. injection Ht as <-.
    destruct Hin as [E|[E|[E|[]]]]; discriminate.
Qed.

End Reducer.

(** ** The date of a group as a calendar day *)

Section CalendarDate.

Context `{C : Collaborators}.

Import JsString.







End CalendarDate.

Lemma groupType_first_media_witness :
  let member ty := FileInfo.mk "clip" "clip.x" (Some "x") "/photos/clip.x" None ty None 0%Z 0%Z in
  map FileInfo.type [member (Some "other"); member (Some "video"); member (Some "image")]
  = [Some "other"; Some "video"; Some "image"]
  /\ groupType [member (Some "other"); member (Some "video"); member (Some "image")] = "video".
Proof.
  intros member. split; [reflexivity|].
  apply (groupType_first_media
           [member (Some "other"); member (Some "video"); member (Some "image")]).
  reflexivity.
Defined.

(** C1 (the code departs from it): the date of a group is not always the
    earliest of the dates of its members.  On the example of the spec the
    earliest date is 2023-04-20, and the group date is 2023-05-01, both
    for the reducer alone and for a whole run over the two files. *)
Theorem groupDate_example_is_not_earliest :
  map taken_or_modified Demo.example_group = [JsDate.utc 2023 5 1; JsDate.utc 2023 4 20]
  /\ (JsDate.utc 2023 4 20 < JsDate.utc 2023 5 1)%Z
  /\ fst (JsString.split "T"%char (JsDate.toISOString (JsDate.utc 2023 4 20))) = "2023-04-20"
  /\ map (JsDate.toString 0 "Coordinated Universal Time") (map taken_or_modified Demo.example_group)
     = ["Mon May 01 2023 00:00:00 GMT+0000 (Coordinated Universal Time)";
        "Thu Apr 20 2023 00:00:00 GMT+0000 (Coordinated Universal Time)"]
  /\ groupDate (C := Demo.collaborators) Demo.example_group = Some (JsDate.utc 2023 5 1)
  /\ dateString (C := Demo.collaborators) Demo.example_group = inr "2023-05-01"
  /\ (let w := Demo.fresh
                 [("IMG_1.jpg", Demo.File 0%Z (JsDate.utc 2023 5 3)
                                  (Demo.with_date (JsDate.utc 2023 5 1)));
                  ("IMG_1.dng", Demo.File 0%Z (JsDate.utc 2023 4 20) [])] in
      exists st,
        stages_of (pipeline (C := Demo.collaborators) Demo.in_order w) = Some st
        /\ baseFilesInfo st = Demo.example_group
        /\ filesForInformation (plan st)
           = [mkRow "IMG_1.jpg" "image" "2023-05-01"; mkRow "IMG_1.dng" "image" "2023-05-01"]).
Proof.
  repeat (split; [vm_compute; reflexivity|]).
  eexists. split; [vm_compute; reflexivity|]. split; reflexivity.
Qed.

(** ** Reading the metadata *)

Section Metadata.

Context `{C : Collaborators}.

(** The file is read exactly for the two MIME types, once its [stat]
    succeeded. *)
Lemma getFileInfo_reads_file progress w filePath times :
  stat w filePath = Some times ->
  (In (EvReadFile filePath) (fst (getFileInfo progress w filePath))
   <-> getType filePath = Some "image/jpeg" \/ getType filePath = Some "image/tiff").
Proof.
  intros Hs. unfold getFileInfo. rewrite Hs. destruct times as [c m].
  unfold readTakenAt.
  assert (Hinc : JsString.includes ["image/jpeg"; "image/tiff"] (getType filePath) = true
                 <-> getType filePath = Some "image/jpeg" \/ getType filePath = Some "image/tiff").
  { destruct (getType filePath) as [mt|]; simpl.
    - rewrite !orb_true_iff, !String.eqb_eq.
      split; [intros [->|[->|?]]; auto; discriminate | intros [[= ->]|[= ->]]; auto].
    - split; [discriminate | intros [?|?]; discriminate]. }
  destruct (JsString.includes _ (getType filePath)).
  - split; [intros _; now apply Hinc|]. intros _.
    destruct (readFile w filePath) as [data|]; [destruct (exif_parse data)|];
      cbn; auto.
  - split; [|intros H; apply Hinc in H; discriminate].
    cbn. intros [H|H]; [discriminate|].
    destruct progress; cbn in H; [destruct H as [H|[]]; discriminate | destruct H].
Qed.

(** Metadata that has no date gives a descriptor without a date taken;
    so does every MIME type whose metadata is not read. *)
Lemma getFileInfo_no_date progress w filePath times :
  stat w filePath = Some times ->
  (getType filePath <> Some "image/jpeg" /\ getType filePath <> Some "image/tiff")
  \/ (exists data, readFile w filePath = Some data /\ exif_parse data = ExifObject None) ->
  exists fileInfo,
    snd (getFileInfo progress w filePath) = inr fileInfo
    /\ FileInfo.takenAt fileInfo = None.
Proof.
  intros Hs H. unfold getFileInfo. rewrite Hs. destruct times as [c m]. unfold readTakenAt.
  destruct (JsString.includes _ (getType filePath)) eqn:Ei.
  - destruct H as [[H1 H2]|(data & Hr & Hp)].
    + exfalso. destruct (getType filePath) as [mt|]; [|discriminate]. simpl in Ei.
      rewrite !orb_true_iff, !String.eqb_eq in Ei.
      destruct Ei as [->|[->|?]]; [now apply H1 | now apply H2 | discriminate].
    + rewrite Hr, Hp. eexists. split; reflexivity.
  - eexists. split; reflexivity.
Qed.

(** A file of one of the two MIME types in which the reader finds no
    metadata at all: [exifData] is [undefined], and reading its
    [DateTimeOriginal] throws. *)
Lemma getFileInfo_undefined_metadata progress w filePath times data :
  stat w filePath = Some times ->
  getType filePath = Some "image/jpeg" \/ getType filePath = Some "image/tiff" ->
  readFile w filePath = Some data ->
  exif_parse data = ExifUndefined ->
  exists message, snd (getFileInfo progress w filePath) = inl (TypeError message).
Proof.
  intros Hs Hm Hr Hp. unfold getFileInfo. rewrite Hs. destruct times as [c m].
  unfold readTakenAt. destruct Hm as [-> | ->]; simpl; rewrite Hr, Hp; eauto.
Qed.

End Metadata.

(** C6 (the code departs from it): for a JPEG file in which the metadata
    reader finds nothing, the extraction does not give a descriptor
    without a date taken: it throws, and the run is rejected. *)
Theorem getFileInfo_without_metadata_throws :
  let w := Demo.fresh [("scan.jpg", Demo.File 0%Z (JsDate.utc 2023 4 20) [])] in
  getType (Collaborators := Demo.collaborators) "/photos/scan.jpg" = Some "image/jpeg"
  /\ readFile (Collaborators := Demo.collaborators) w "/photos/scan.jpg" = Some []
  /\ exif_parse (Collaborators := Demo.collaborators) [] = ExifUndefined
  /\ getFileInfo (C := Demo.collaborators) true w "/photos/scan.jpg"
     = ([EvStat "/photos/scan.jpg"; EvReadFile "/photos/scan.jpg";
         EvExifParse "/photos/scan.jpg"],
        inl (TypeError "Cannot read properties of undefined (reading 'DateTimeOriginal')"))
  /\ outcome (main (C := Demo.collaborators) Demo.in_order None w)
     = Rejected (TypeError "Cannot read properties of undefined (reading 'DateTimeOriginal')").
Proof. repeat split; vm_compute; reflexivity. Qed.

(** ** The tasks of the moving stage *)

Section Pools.

Context `{C : Collaborators}.

Lemma app_split_cons {X} (l1 l2 pre post : list X) x :
  l1 ++ l2 = pre ++ x :: post ->
  (exists post1, l1 = pre ++ x :: post1 /\ post = post1 ++ l2)
  \/ (exists pre2, pre = l1 ++ pre2 /\ l2 = pre2 ++ x :: post).
Proof.
  revert pre. induction l1 as [|y l1 IH]; intros pre H.
  - right. exists pre. auto.
  - destruct pre as [|z pre].
    + injection H as -> H. left. exists l1. auto.
    + injection H as -> H. destruct (IH _ H) as [(post1 & -> & ->)|(pre2 & -> & ->)].
      * left. exists post1. auto.
      * right. exists pre2. auto.
Qed.

Lemma task_ok_extend o dir dirFiles tr new task :
  task_ok o dir dirFiles tr task ->
  (forall ev, ~ In (o, ev) new) ->
  task_ok o dir dirFiles (tr ++ new) task.
Proof.
  intros H Hnew. destruct task as [d rest|d rest|e]; cbn in *; [| |exact I].
  - destruct H as (-> & -> & H). repeat split; try reflexivity.
    intros ev Hin. apply in_app_or in Hin as [Hin|Hin]; [auto | now apply Hnew in Hin].
  - destruct H as (-> & Hr & moved & -> & Hm). split; [reflexivity|]. split.
    + destruct Hr as [Hr|Hr]; [left | right]; apply in_or_app; auto.
    + exists moved. split; [reflexivity|]. intros fi Hfi. apply in_or_app. auto.
Qed.

Lemma tagged_origin call i (evs : list Event) o ev :
  In (o, ev) (map (pair (OTask call i)) evs) -> o = OTask call i /\ In ev evs.
Proof. intros H. apply in_map_iff in H as (ev' & [= <- <-] & H). auto. Qed.

(** The five ways a task can take a step. *)
Lemma step_cases w task evs w' task' :
  step w task = (evs, w', task') ->
  (evs = [] /\ task' = task
   /\ ((exists d, task = Moving d []) \/ exists e, task = Failed e))
  \/ (exists d fs, task = Creating d fs /\ evs = [EvMkdir d true] /\ task' = Moving d fs)
  \/ (exists d fs e, task = Creating d fs /\ evs = [EvMkdir d false] /\ task' = Failed e)
  \/ (exists d fi rest,
        task = Moving d (fi :: rest)
        /\ evs = [rename_to d fi true; EvProgressIncrement] /\ task' = Moving d rest)
  \/ (exists d fi rest e,
        task = Moving d (fi :: rest) /\ evs = [rename_to d fi false] /\ task' = Failed e).
Proof.
  destruct task as [d fs|d [|fi rest]|e]; cbn [step].
  - destruct (mkdir w d); intros [= <- <- <-].
    + right. left. eauto.
    + right. right. left. eauto 6.
  - intros [= <- <- <-]. left. eauto 6.
  - destruct (rename w _ _); intros [= <- <- <-].
    + right. right. right. left. eauto 6.
    + right. right. right. right. eauto 8.
  - intros [= <- <- <-]. left. eauto 6.
Qed.

(** A step keeps a task in line with its directory and its files. *)
Lemma step_task_ok o dir dirFiles tr w task evs w' task' :
  task_ok o dir dirFiles tr task ->
  step w task = (evs, w', task') ->
  task_ok o dir dirFiles (tr ++ map (pair o) evs) task'.
Proof.
  intros Hok Hs.
  destruct (step_cases _ _ _ _ _ Hs)
    as [(-> & -> & _)|[(d & fs & -> & -> & ->)|[(d & fs & e & -> & -> & ->)
       |[(d & fi & rest & -> & -> & ->)|(d & fi & rest & e & -> & -> & ->)]]]];
    cbn [map]; try exact I.
  - now rewrite app_nil_r.
  - cbn in Hok. destruct Hok as (-> & -> & _). cbn. split; [reflexivity|]. split.
    + right. apply in_or_app. right. now left.
    + exists []. split; [reflexivity|]. intros ? [].
  - cbn in Hok. destruct Hok as (-> & Hr & moved & -> & Hm). cbn.
    split; [reflexivity|]. split.
    + destruct Hr as [Hr|Hr]; [left | right]; apply in_or_app; auto.
    + exists (moved ++ [fi]). split; [now rewrite <- app_assoc|].
      intros x Hx. apply in_app_or in Hx as [Hx|[<-|[]]]; apply in_or_app.
      * left. auto.
      * right. now left.
Qed.

(** A rename is the first operation of the step that performs it; it is
    the rename of a file of the task, whose directory is ready; a rename
    that is refused ends the task. *)
Lemma step_rename o dir dirFiles tr w task evs w' task' before src dst ok after :
  task_ok o dir dirFiles tr task ->
  step w task = (evs, w', task') ->
  evs = before ++ EvRename src dst ok :: after ->
  before = []
  /\ (exists fileInfo, In fileInfo dirFiles /\ EvRename src dst ok = rename_to dir fileInfo ok)
  /\ ready_by o dir tr
  /\ (ok = false -> after = [] /\ exists e, task' = Failed e).
Proof.
  intros Hok Hs He.
  destruct (step_cases _ _ _ _ _ Hs)
    as [(-> & -> & _)|[(d & fs & -> & -> & ->)|[(d & fs & e & -> & -> & ->)
       |[(d & fi & rest & -> & -> & ->)|(d & fi & rest & e & -> & -> & ->)]]]].
  - destruct before; discriminate.
  - destruct before as [|? [|? ?]]; discriminate.
  - destruct before as [|? [|? ?]]; discriminate.
  - cbn in Hok. destruct Hok as (-> & Hr & moved & -> & Hm).
    destruct before as [|? [|? [|? ?]]]; try discriminate.
    unfold rename_to in *. injection He as <- <- <- <-.
    split; [reflexivity|]. split; [|split; [exact Hr | discriminate]].
    exists fi. split; [|reflexivity]. apply in_or_app. right. now left.
  - cbn in Hok. destruct Hok as (-> & Hr & moved & -> & Hm).
    destruct before as [|? [|? ?]]; try discriminate.
    unfold rename_to in *. injection He as <- <- <- <-.
    split; [reflexivity|]. split; [|split; [exact Hr | eauto]].
    exists fi. split; [|reflexivity]. apply in_or_app. right. now left.
Qed.

Lemma step_failed w e : step w (Failed e) = ([], w, Failed e).
Proof. reflexivity. Qed.

Lemma tagged_split (o : Origin) (evs : list Event) (pre : list Entry) (x : Entry) post :
  map (pair o) evs = pre ++ x :: post ->
  exists before after,
    evs = before ++ snd x :: after /\ fst x = o
    /\ pre = map (pair o) before /\ post = map (pair o) after.
Proof.
  revert pre. induction evs as [|ev evs IH]; intros pre H.
  - destruct pre; discriminate.
  - destruct pre as [|y pre]; cbn in H.
    + injection H as <- <-. exists [], evs. auto.
    + injection H as <- H. destruct (IH _ H) as (before & after & -> & Ho & -> & ->).
      exists (ev :: before), after. auto.
Qed.

(** A step of a task keeps the pool in order. *)
Lemma advance_ok call dirs p i :
  pool_ok call dirs p -> pool_ok call dirs (advance call p i).
Proof.
  intros (P1 & P2 & P3 & P4 & P5 & P6). unfold advance.
  destruct (pool_tasks p !! i) as [task|] eqn:Et;
    [|exact (conj P1 (conj P2 (conj P3 (conj P4 (conj P5 P6)))))].
  assert (Hi : i < length dirs) by (rewrite <- P1; eapply lookup_lt_Some; eauto).
  assert (Hi' : i < length (pool_tasks p)) by now rewrite P1.
  destruct (lookup_lt_is_Some_2 dirs i Hi) as [[dir dirFiles] Ed].
  pose proof (P2 _ _ _ _ Ed Et) as Htask.
  destruct (step (pool_world p) task) as [[evs w'] task'] eqn:Es.
  unfold pool_ok. cbn [pool_tasks pool_trace pool_rejection].
  split; [now rewrite length_insert|].
  split.
  { intros j d fs t Hd Ht. destruct (decide (i = j)) as [<-|Hne].
    - rewrite list_lookup_insert_eq in Ht by exact Hi'. injection Ht as <-.
      rewrite Ed in Hd. injection Hd as <- <-.
      eapply step_task_ok; eauto.
    - rewrite list_lookup_insert_ne in Ht by exact Hne.
      apply task_ok_extend; [eauto|].
      intros ev Hin. apply tagged_origin in Hin as [[= ?] _]. congruence. }
  split.
  { intros pre o src dst ok post H.
    apply app_split_cons in H as [(post1 & H & ->)|(pre2 & -> & H)]; [eauto|].
    apply tagged_split in H as (before & after & He & Ho & -> & ->). cbn in He, Ho.
    destruct (step_rename _ _ _ _ _ _ _ _ _ _ _ _ _ _ Htask Es He) as (-> & (fi & Hfi & E) & Hr & _).
    exists i, dir, dirFiles, fi. subst o. rewrite app_nil_r. auto. }
  split.
  { intros pre j src dst post H.
    apply app_split_cons in H as [(post1 & H & ->)|(pre2 & -> & H)].
    - destruct (P4 _ _ _ _ _ H) as [[e He] Hpost]. split.
      + destruct (decide (i = j)) as [<-|Hne].
        * rewrite Et in He. injection He as ->. rewrite step_failed in Es.
          injection Es as <- <- <-. exists e. now apply list_lookup_insert_eq.
        * exists e. now rewrite list_lookup_insert_ne.
      + intros o ev Hin. apply in_app_or in Hin as [Hin|Hin]; [eauto|].
        apply tagged_origin in Hin as [-> Hev]. intros [= <-].
        rewrite Et in He. injection He as ->. rewrite step_failed in Es.
        injection Es as <- <- <-. destruct Hev.
    - apply tagged_split in H as (before & after & He & Ho & -> & ->). cbn in He, Ho.
      injection Ho as <-.
      destruct (step_rename _ _ _ _ _ _ _ _ _ _ _ _ _ _ Htask Es He)
        as (-> & _ & _ & Hf). destruct (Hf eq_refl) as [-> [e ->]]. split.
      + exists e. now apply list_lookup_insert_eq.
      + intros o ev []. }
  split.
  { intros Hr j e Ht. destruct (decide (i = j)) as [<-|Hne].
    - rewrite list_lookup_insert_eq in Ht by exact Hi'. injection Ht as ->.
      destruct (pool_rejection p); discriminate.
    - rewrite list_lookup_insert_ne in Ht by exact Hne.
      destruct (pool_rejection p) eqn:Er; [destruct task'; discriminate|].
      now apply (P5 eq_refl j e). }
  intros o ev Hin. apply in_app_or in Hin as [Hin|Hin]; [eauto|].
  apply tagged_origin in Hin as [-> _]. eauto.
Qed.

Lemma launch_all_spec call w k dirs evs tasks :
  launch_all call w k dirs = (evs, tasks) ->
  length tasks = length dirs
  /\ (forall j dir dirFiles, dirs !! j = Some (dir, dirFiles) ->
      tasks !! j = Some (snd (launch w dir dirFiles))
      /\ In (OTask call (k + j), fst (launch w dir dirFiles)) evs)
  /\ (forall o ev, In (o, ev) evs ->
      exists j dir dirFiles,
        dirs !! j = Some (dir, dirFiles) /\ o = OTask call (k + j)
        /\ ev = fst (launch w dir dirFiles)).
Proof.
  revert k evs tasks. induction dirs as [|[dir dirFiles] dirs IH]; intros k evs tasks H.
  - injection H as <- <-. split; [reflexivity|]. split; [intros j ? ? Hj; discriminate|].
    intros o ev [].
  - cbn [launch_all] in H. destruct (launch w dir dirFiles) as [ev0 task0] eqn:El.
    destruct (launch_all call w (S k) dirs) as [evs' tasks'] eqn:Ea.
    injection H as <- <-. destruct (IH _ _ _ Ea) as (I1 & I2 & I3).
    split; [cbn; now rewrite I1|]. split.
    + intros [|j] d fs Hj; cbn in Hj.
      * injection Hj as <- <-. rewrite El, Nat.add_0_r. cbn. auto.
      * destruct (I2 _ _ _ Hj) as [Ht Hin]. split; [exact Ht|].
        right. now replace (k + S j) with (S k + j) by lia.
    + intros o ev [[= <- <-]|Hin].
      * exists 0, dir, dirFiles. rewrite El, Nat.add_0_r. auto.
      * destruct (I3 _ _ Hin) as (j & d & fs & Hj & -> & ->).
        exists (S j), d, fs. replace (k + S j) with (S k + j) by lia. auto.
Qed.

Lemma launch_event w dir dirFiles :
  exists found, fst (launch w dir dirFiles) = EvExistsSync dir found.
Proof. unfold launch. destruct (existsSync w dir); eauto. Qed.

(** The pool is in order when its tasks have started. *)
Lemma launched_ok call w dirs evs tasks :
  launch_all call w 0 dirs = (evs, tasks) ->
  pool_ok call dirs (mkPool w evs tasks None).
Proof.
  intros H. destruct (launch_all_spec _ _ _ _ _ _ H) as (I1 & I2 & I3).
  unfold pool_ok. cbn [pool_tasks pool_trace pool_rejection].
  split; [exact I1|]. split.
  { intros i dir dirFiles task Hd Ht. destruct (I2 _ _ _ Hd) as [Ht' Hin].
    rewrite Ht in Ht'. injection Ht' as ->. cbn in Hin. unfold launch in *.
    destruct (existsSync w dir) eqn:Ex; cbn in *.
    - split; [reflexivity|]. split; [now left|]. exists []. split; [reflexivity|]. intros ? [].
    - split; [reflexivity|]. split; [reflexivity|]. intros ev Hev.
      destruct (I3 _ _ Hev) as (j & d & fs & Hj & [= <-] & ->).
      rewrite Hd in Hj. injection Hj as <- <-. now rewrite Ex. }
  split.
  { intros pre o src dst ok post E.
    assert (Hin : In (o, EvRename src dst ok) evs) by (rewrite E; apply in_elt).
    destruct (I3 _ _ Hin) as (j & d & fs & _ & _ & Hev).
    destruct (launch_event w d fs) as [found Hf]. congruence. }
  split.
  { intros pre i src dst post E.
    assert (Hin : In (OTask call i, EvRename src dst false) evs) by (rewrite E; apply in_elt).
    destruct (I3 _ _ Hin) as (j & d & fs & _ & _ & Hev).
    destruct (launch_event w d fs) as [found Hf]. congruence. }
  split.
  { intros _ i e Ht.
    assert (Hi : i < length dirs) by (rewrite <- I1; eapply lookup_lt_Some; eauto).
    destruct (lookup_lt_is_Some_2 dirs i Hi) as [[d fs] Hd].
    destruct (I2 _ _ _ Hd) as [Ht' _]. rewrite Ht in Ht'. injection Ht' as Ht'.
    unfold launch in Ht'. destruct (existsSync w d); discriminate. }
  intros o ev Hin. destruct (I3 _ _ Hin) as (j & d & fs & Hj & -> & _).
  exists j. split; [reflexivity|]. eapply lookup_lt_Some; eauto.
Qed.

Lemma fold_advance_ok call dirs order p :
  pool_ok call dirs p -> pool_ok call dirs (fold_left (advance call) order p).
Proof.
  revert p. induction order as [|i order IH]; intros p H; [exact H|].
  cbn [fold_left]. apply IH. now apply advance_ok.
Qed.

(** The pool is in order when [Promise.all] settles. *)
Lemma await_all_ok call schedule w dirs :
  pool_ok call dirs (await_all call schedule w dirs).
Proof.
  unfold await_all. destruct (launch_all call w 0 dirs) as [evs tasks] eqn:E.
  apply fold_advance_ok. now apply launched_ok.
Qed.

(** *** Every task comes to its end *)

Lemma step_steps_left w task evs w' task' :
  step w task = (evs, w', task') -> steps_left task' <= pred (steps_left task).
Proof.
  intros Hs.
  destruct (step_cases _ _ _ _ _ Hs)
    as [(-> & -> & [[d ->]|[e ->]])|[(d & fs & -> & -> & ->)|[(d & fs & e & -> & -> & ->)
       |[(d & fi & rest & -> & -> & ->)|(d & fi & rest & e & -> & -> & ->)]]]];
    cbn; lia.
Qed.

Lemma advance_left_other call p i j : i <> j -> left_of (advance call p i) j = left_of p j.
Proof.
  intros Hne. unfold left_of, advance.
  destruct (pool_tasks p !! i) as [task|]; [|reflexivity].
  destruct (step (pool_world p) task) as [[evs w'] task']. cbn [pool_tasks].
  now rewrite list_lookup_insert_ne.
Qed.

Lemma advance_left_self call p i : left_of (advance call p i) i <= pred (left_of p i).
Proof.
  unfold left_of, advance.
  destruct (pool_tasks p !! i) as [task|] eqn:Et; [|rewrite Et; lia].
  destruct (step (pool_world p) task) as [[evs w'] task'] eqn:Es. cbn [pool_tasks].
  rewrite list_lookup_insert_eq by (eapply lookup_lt_Some; eauto).
  eapply step_steps_left; eauto.
Qed.

Lemma advance_left_le call p i j : left_of (advance call p i) j <= left_of p j.
Proof.
  destruct (decide (i = j)) as [<-|Hne].
  - pose proof (advance_left_self call p i). lia.
  - now rewrite advance_left_other.
Qed.

Lemma fold_advance_left_le call order p j :
  left_of (fold_left (advance call) order p) j <= left_of p j.
Proof.
  revert p. induction order as [|i order IH]; intros p; [reflexivity|].
  cbn [fold_left]. etransitivity; [apply IH | apply advance_left_le].
Qed.

Lemma fold_replicate_left call n p i :
  left_of (fold_left (advance call) (replicate n i) p) i <= left_of p i - n.
Proof.
  revert p. induction n as [|n IH]; intros p; cbn [replicate fold_left]; [lia|].
  etransitivity; [apply IH|]. pose proof (advance_left_self call p i). lia.
Qed.

Lemma completion_left call tasks0 k p :
  (forall j task, tasks0 !! j = Some task -> left_of p (k + j) <= steps_left task) ->
  forall j, j < length tasks0 ->
            left_of (fold_left (advance call) (completion k tasks0) p) (k + j) = 0.
Proof.
  revert k p. induction tasks0 as [|task tasks0 IH]; intros k p H j Hj; [cbn in Hj; lia|].
  cbn [completion]. rewrite fold_left_app.
  set (p' := fold_left (advance call) (replicate (steps_left task) k) p).
  destruct j as [|j].
  - pose proof (fold_advance_left_le call (completion (S k) tasks0) p' (k + 0)) as H1.
    pose proof (fold_replicate_left call (steps_left task) p k) as H2. fold p' in H2.
    pose proof (H 0 task eq_refl) as H3. rewrite Nat.add_0_r in *. lia.
  - replace (k + S j) with (S k + j) by lia. apply IH; [|cbn in Hj; lia].
    intros j' t Ht. etransitivity; [apply fold_advance_left_le|].
    replace (S k + j') with (k + S j') by lia. now apply (H (S j')).
Qed.

Lemma fold_advance_length call order p :
  length (pool_tasks (fold_left (advance call) order p)) = length (pool_tasks p).
Proof.
  revert p. induction order as [|i order IH]; intros p; [reflexivity|].
  cbn [fold_left]. rewrite IH. unfold advance.
  destruct (pool_tasks p !! i) as [task|]; [|reflexivity].
  destruct (step (pool_world p) task) as [[evs w'] task']. cbn. apply length_insert.
Qed.

(** When [Promise.all] settles, no task has an operation left: each one
    has moved all its files, or has failed. *)
Lemma await_all_finished call schedule w dirs i task :
  pool_tasks (await_all call schedule w dirs) !! i = Some task ->
  (exists d, task = Moving d []) \/ exists e, task = Failed e.
Proof.
  unfold await_all. destruct (launch_all call w 0 dirs) as [evs tasks] eqn:E.
  rewrite fold_left_app. intros Ht.
  set (p1 := fold_left (advance call) schedule (mkPool w evs tasks None)) in *.
  assert (Hi : i < length tasks).
  { apply lookup_lt_Some in Ht. unfold p1 in Ht. now rewrite !fold_advance_length in Ht. }
  pose proof (completion_left call tasks 0 p1) as Hc.
  assert (H0 : left_of (fold_left (advance call) (completion 0 tasks) p1) i = 0).
  { apply (Hc) with (j := i); [|exact Hi]. intros j t Hj. cbn [Nat.add].
    etransitivity; [apply fold_advance_left_le|]. unfold left_of. cbn. now rewrite Hj. }
  unfold left_of in H0. rewrite Ht in H0.
  destruct task as [d fs|d [|fi rest]|e]; cbn in H0; try lia; eauto.
Qed.

(** A call that was not rejected has made every directory ready and has
    moved every file. *)
Lemma await_all_fulfilled call schedule w dirs i dir dirFiles :
  pool_rejection (await_all call schedule w dirs) = None ->
  dirs !! i = Some (dir, dirFiles) ->
  ready_by (OTask call i) dir (pool_trace (await_all call schedule w dirs))
  /\ forall fileInfo,
      In fileInfo dirFiles ->
      In (OTask call i, rename_to dir fileInfo true)
         (pool_trace (await_all call schedule w dirs)).
Proof.
  intros Hr Hd. destruct (await_all_ok call schedule w dirs) as (P1 & P2 & _ & _ & P5 & _).
  assert (Hi : i < length (pool_tasks (await_all call schedule w dirs))).
  { rewrite P1. eapply lookup_lt_Some; eauto. }
  destruct (lookup_lt_is_Some_2 _ _ Hi) as [task Ht].
  pose proof (P2 _ _ _ _ Hd Ht) as Hok.
  destruct (await_all_finished _ _ _ _ _ _ Ht) as [[d ->]|[e ->]].
  - cbn in Hok. destruct Hok as (-> & Hready & moved & -> & Hm).
    split; [exact Hready|]. intros fi Hfi. apply Hm. now rewrite app_nil_r in Hfi.
  - exfalso. now apply (P5 Hr i e).
Qed.


End Pools.

(** ** Objects used as maps *)

Section ObjectFacts.

Import JsObject.

Context {V : Type}.

Lemma insert_index_In n (e : string * V) l x :
  In x (map snd (insert_index n e l)) <-> x = e \/ In x (map snd l).
Proof.
  induction l as [|[m e'] l IH]; cbn [insert_index].
  - cbn. intuition.
  - destruct (m <=? n)%N; cbn [map snd In]; [rewrite IH|]; intuition.
Qed.

Lemma index_entries_In (o : t V) x :
  In x (map snd (index_entries o)) <-> In x o /\ is_index (fst x) = true.
Proof.
  induction o as [|[k v] o IH]; cbn [index_entries]; [cbn; tauto|].
  unfold is_index in *. destruct (array_index k) as [n|] eqn:E.
  - rewrite insert_index_In, IH. cbn [In]. split.
    + intros [->|[H1 H2]]; [cbn; rewrite E; auto | auto].
    + intros [[<-|H1] H2]; auto.
  - rewrite IH. cbn [In]. split; [tauto|].
    intros [[<-|H1] H2]; [cbn in H2; rewrite E in H2; discriminate | auto].
Qed.

(** The enumeration of an object lists its own properties, all of them. *)
Lemma entries_In (o : t V) x : In x (entries o) <-> In x o.
Proof.
  unfold entries. rewrite in_app_iff, index_entries_In, List.filter_In.
  destruct (is_index (fst x)); cbn; intuition discriminate.
Qed.

Lemma own_In (o : t V) k v : own o k = Some v -> In (k, v) o.
Proof.
  induction o as [|[k' v'] o IH]; cbn [own]; [discriminate|].
  destruct (String.eqb_spec k' k) as [->|Hne].
  - intros [= <-]. now left.
  - intros H. right. auto.
Qed.

Lemma set_In_new (o : t V) k v : In (k, v) (set o k v).
Proof.
  induction o as [|[k' v'] o IH]; cbn [set]; [now left|].
  destruct (String.eqb_spec k' k) as [->|Hne]; [now left | now right].
Qed.

(** An entry is kept by an assignment unless it is the one assigned to. *)
Lemma set_In_old (o : t V) k v k' v' :
  In (k', v') o -> In (k', v') (set o k v) \/ (k' = k /\ own o k = Some v').
Proof.
  induction o as [|[k0 v0] o IH]; intros Hin; [destruct Hin|]. cbn [set own].
  destruct (String.eqb_spec k0 k) as [->|Hne].
  - destruct Hin as [[= <- <-]|Hin]; [right; auto | left; now right].
  - destruct Hin as [[= <- <-]|Hin]; [left; now left|].
    destruct (IH Hin) as [H|H]; [left; now right | right; exact H].
Qed.

Lemma set_In_inv (o : t V) k v k' v' :
  In (k', v') (set o k v) -> In (k', v') o \/ (k' = k /\ v' = v).
Proof.
  induction o as [|[k0 v0] o IH]; cbn [set].
  - intros [[= <- <-]|[]]. auto.
  - destruct (String.eqb_spec k0 k) as [->|Hne].
    + intros [[= <- <-]|Hin]; [right; auto | left; now right].
    + intros [[= <- <-]|Hin]; [left; now left|].
      destruct (IH Hin) as [H|H]; [left; now right | right; exact H].
Qed.

Lemma get_Own (o : t V) k v : get o k = Own v -> own o k = Some v.
Proof.
  unfold get. destruct (own o k); [now intros [= ->]|].
  destruct (existsb _ _); discriminate.
Qed.

Lemma get_Undefined (o : t V) k : get o k = Undefined -> own o k = None.
Proof. unfold get. destruct (own o k); [discriminate | reflexivity]. Qed.

End ObjectFacts.

(** ** The plan *)

Section PlanFacts.

Context `{C : Collaborators}.

Import JsObject.

Lemma listed_iff perTypeAndDate ty date (fileInfo : FileInfo.t) :
  listed perTypeAndDate ty date fileInfo
  <-> exists perDate dirFiles,
      In (ty, perDate) perTypeAndDate /\ In (date, dirFiles) perDate /\ In fileInfo dirFiles.
Proof.
  unfold listed. split; intros (perDate & dirFiles & H1 & H2 & H3);
    exists perDate, dirFiles; (split; [|split; [|exact H3]]).
  - now apply entries_In.
  - now apply entries_In.
  - now apply entries_In.
  - now apply entries_In.
Qed.

(** The type of a group is one of the four names of the table. *)
Lemma groupType_range fileInfos :
  In (groupType fileInfos) ["image"; "audio"; "video"; "other"].
Proof.
  unfold groupType.
  destruct (List.filter _ fileInfos) as [|x l] eqn:E; [cbn; auto|].
  assert (Hx : In x (List.filter
                       (fun fileInfo => JsString.includes media_types (FileInfo.type fileInfo))
                       fileInfos)) by (rewrite E; now left).
  apply List.filter_In in Hx as [_ Hx]. cbn [map JsString.shift fst].
  destruct (FileInfo.type x) as [ty|]; [|discriminate].
  apply includes_media in Hx. destruct Hx as [<-|[<-|[<-|[]]]]; cbn; auto.
Qed.

Lemma groupType_not_inherited perTypeAndDate fileInfos :
  get (V := JsObject.t (list FileInfo.t)) perTypeAndDate (groupType fileInfos) <> Inherited.
Proof.
  unfold get. destruct (own _ _); [discriminate|].
  destruct (groupType_range fileInfos) as [<-|[<-|[<-|[<-|[]]]]]; discriminate.
Qed.

(** What a listing adds to the plan, and what it keeps. *)
Lemma add_listing_spec perTypeAndDate ty date fileInfos perTypeAndDate' :
  add_listing perTypeAndDate ty date fileInfos = inr perTypeAndDate' ->
  (get perTypeAndDate ty <> Inherited ->
   forall fileInfo, In fileInfo fileInfos -> listed perTypeAndDate' ty date fileInfo)
  /\ (forall ty0 date0 fileInfo,
         listed perTypeAndDate ty0 date0 fileInfo -> listed perTypeAndDate' ty0 date0 fileInfo)
  /\ (forall ty0 date0 fileInfo,
         listed perTypeAndDate' ty0 date0 fileInfo ->
         listed perTypeAndDate ty0 date0 fileInfo
         \/ (ty0 = ty /\ date0 = date /\ In fileInfo fileInfos)).
Proof.
  unfold add_listing. setoid_rewrite listed_iff.
  destruct (get perTypeAndDate ty) as [perDate| |] eqn:Eg.
  - apply get_Own in Eg.
    destruct (get perDate date) as [l| |] eqn:Ed; [|discriminate|]; intros [= <-].
    + apply get_Own in Ed. split; [|split].
      * intros _ fi Hfi. exists (set perDate date (l ++ fileInfos)), (l ++ fileInfos).
        split; [apply set_In_new|]. split; [apply set_In_new|]. apply in_or_app. auto.
      * intros ty0 date0 fi (pd & fs & H1 & H2 & H3).
        destruct (set_In_old _ ty (set perDate date (l ++ fileInfos)) _ _ H1) as [H|[-> Ho]].
        { exists pd, fs. auto. }
        rewrite Eg in Ho. injection Ho as <-.
        exists (set perDate date (l ++ fileInfos)).
        destruct (set_In_old _ date (l ++ fileInfos) _ _ H2) as [H|[-> Ho]].
        { exists fs. split; [apply set_In_new|]. auto. }
        rewrite Ed in Ho. injection Ho as <-. exists (l ++ fileInfos).
        split; [apply set_In_new|]. split; [apply set_In_new|]. apply in_or_app. auto.
      * intros ty0 date0 fi (pd & fs & H1 & H2 & H3).
        apply set_In_inv in H1 as [H1|[-> ->]]; [left; exists pd, fs; auto|].
        apply set_In_inv in H2 as [H2|[-> ->]].
        { left. exists perDate, fs. split; [now apply own_In | auto]. }
        apply in_app_or in H3 as [H3|H3]; [|right; auto].
        left. exists perDate, l. split; [now apply own_In|]. split; [now apply own_In | exact H3].
    + apply get_Undefined in Ed. split; [|split].
      * intros _ fi Hfi. exists (set perDate date fileInfos), fileInfos.
        split; [apply set_In_new|]. split; [apply set_In_new | exact Hfi].
      * intros ty0 date0 fi (pd & fs & H1 & H2 & H3).
        destruct (set_In_old _ ty (set perDate date fileInfos) _ _ H1) as [H|[-> Ho]].
        { exists pd, fs. auto. }
        rewrite Eg in Ho. injection Ho as <-.
        exists (set perDate date fileInfos).
        destruct (set_In_old _ date fileInfos _ _ H2) as [H|[-> Ho]].
        { exists fs. split; [apply set_In_new|]. auto. }
        rewrite Ed in Ho. discriminate.
      * intros ty0 date0 fi (pd & fs & H1 & H2 & H3).
        apply set_In_inv in H1 as [H1|[-> ->]]; [left; exists pd, fs; auto|].
        apply set_In_inv in H2 as [H2|[-> ->]]; [|right; auto].
        left. exists perDate, fs. split; [now apply own_In | auto].
  - intros [= <-]. split; [congruence|]. split; auto.
  - apply get_Undefined in Eg. intros [= <-]. split; [|split].
    + intros _ fi Hfi. exists (set [] date fileInfos), fileInfos.
      split; [apply set_In_new|]. split; [now left | exact Hfi].
    + intros ty0 date0 fi (pd & fs & H1 & H2 & H3).
      destruct (set_In_old _ ty (set [] date fileInfos) _ _ H1) as [H|[-> Ho]].
      { exists pd, fs. auto. }
      rewrite Eg in Ho. discriminate.
    + intros ty0 date0 fi (pd & fs & H1 & H2 & H3).
      apply set_In_inv in H1 as [H1|[-> ->]]; [left; exists pd, fs; auto|].
      destruct H2 as [[= <- <-]|[]]. right. auto.
Qed.

(** The plan after the groups were processed: every member of a group is
    in the table and is listed with the type and the date of its group,
    and nothing else was added. *)
Lemma process_from_spec groups plan0 plan1 :
  process_from plan0 groups = inr plan1 ->
  (forall name fileInfos,
      In (name, fileInfos) groups ->
      exists date,
        dateString fileInfos = inr date
        /\ forall fileInfo,
            In fileInfo fileInfos ->
            In (info_row (groupType fileInfos) date fileInfo) (filesForInformation plan1)
            /\ listed (filesPerTypeAndDate plan1) (groupType fileInfos) date fileInfo)
  /\ (forall row, In row (filesForInformation plan0) -> In row (filesForInformation plan1))
  /\ (forall ty date fileInfo,
         listed (filesPerTypeAndDate plan0) ty date fileInfo ->
         listed (filesPerTypeAndDate plan1) ty date fileInfo)
  /\ (forall ty date fileInfo,
         listed (filesPerTypeAndDate plan1) ty date fileInfo ->
         listed (filesPerTypeAndDate plan0) ty date fileInfo
         \/ exists name fileInfos,
             In (name, fileInfos) groups /\ In fileInfo fileInfos
             /\ ty = groupType fileInfos /\ dateString fileInfos = inr date).
Proof.
  revert plan0. induction groups as [|[name fileInfos] groups IH]; intros plan0 H.
  - injection H as <-. split; [intros ? ? []|]. split; [auto|]. split; auto.
  - cbn [process_from] in H. destruct (process_group plan0 fileInfos) as [e|plan'] eqn:Ep;
      [discriminate|].
    destruct (IH _ H) as (I1 & I2 & I3 & I4). unfold process_group in Ep.
    destruct (dateString fileInfos) as [e|date] eqn:Ed; [discriminate|].
    destruct (add_listing _ _ _ _) as [e|perTypeAndDate] eqn:Ea; [discriminate|].
    injection Ep as <-. cbn [filesForInformation filesPerTypeAndDate] in *.
    destruct (add_listing_spec _ _ _ _ _ Ea) as (A1 & A2 & A3).
    split; [|split; [|split]].
    + intros n fis [[= <- <-]|Hin]; [|now apply (I1 n)].
      exists date. split; [exact Ed|]. intros fi Hfi. split.
      * apply I2. apply in_or_app. right. now apply in_map.
      * apply I3. apply A1; [apply groupType_not_inherited | exact Hfi].
    + intros row Hrow. apply I2. apply in_or_app. now left.
    + intros ty d fi Hl. apply I3. now apply A2.
    + intros ty d fi Hl. destruct (I4 _ _ _ Hl) as [Hl'|(n & fis & Hin & Hfi & -> & Hd)].
      * destruct (A3 _ _ _ Hl') as [?|(-> & -> & Hfi)]; [now left|].
        right. exists name, fileInfos. split; [now left | auto].
      * right. exists n, fis. split; [now right | auto].
Qed.

Lemma listed_empty ty date (fileInfo : FileInfo.t) : ~ listed [] ty date fileInfo.
Proof. intros (pd & fs & H & _). apply entries_In in H. destruct H. Qed.

(** The plan of a run: the members of every group, with the type and the
    date of the group, and nothing else. *)
Lemma process_groups_spec groups pl :
  process_groups groups = inr pl ->
  (forall name fileInfos,
      In (name, fileInfos) (entries groups) ->
      exists date,
        dateString fileInfos = inr date
        /\ forall fileInfo,
            In fileInfo fileInfos ->
            In (info_row (groupType fileInfos) date fileInfo) (filesForInformation pl)
            /\ listed (filesPerTypeAndDate pl) (groupType fileInfos) date fileInfo)
  /\ (forall ty date fileInfo,
         listed (filesPerTypeAndDate pl) ty date fileInfo ->
         exists name fileInfos,
           In (name, fileInfos) (entries groups) /\ In fileInfo fileInfos
           /\ ty = groupType fileInfos /\ dateString fileInfos = inr date).
Proof.
  unfold process_groups. intros H. destruct (process_from_spec _ _ _ H) as (I1 & _ & _ & I4).
  split; [exact I1|]. intros ty date fi Hl.
  destruct (I4 _ _ _ Hl) as [Hl'|?]; [|assumption]. now apply listed_empty in Hl'.
Qed.

(** The groups of a run: every descriptor is a member of the group of its
    name, and the members of the groups are the descriptors. *)
Lemma group_from_spec infos groups0 groups1 :
  group_from groups0 infos = inr groups1 ->
  (forall fileInfo, In fileInfo infos ->
                    exists l, In (FileInfo.name fileInfo, l) groups1 /\ In fileInfo l)
  /\ (forall k l fileInfo, In (k, l) groups0 -> In fileInfo l ->
                           exists l', In (k, l') groups1 /\ In fileInfo l')
  /\ (forall k l fileInfo, In (k, l) groups1 -> In fileInfo l ->
                           (exists l0, In (k, l0) groups0 /\ In fileInfo l0)
                           \/ (In fileInfo infos /\ FileInfo.name fileInfo = k)).
Proof.
  revert groups0. induction infos as [|x infos IH]; intros groups0 H.
  - injection H as <-. split; [intros ? []|]. split; eauto.
  - cbn [group_from] in H. destruct (group_step groups0 x) as [e|groups'] eqn:Es; [discriminate|].
    destruct (IH _ H) as (I1 & I2 & I3). unfold group_step in Es.
    assert (Hnew : exists l, In (FileInfo.name x, l) groups' /\ In x l).
    { destruct (get groups0 (FileInfo.name x)) as [l| |]; [|discriminate|]; injection Es as <-.
      - exists (l ++ [x]). split; [apply set_In_new | apply in_or_app; right; now left].
      - exists [x]. split; [apply set_In_new | now left]. }
    assert (Hold : forall k l fi, In (k, l) groups0 -> In fi l ->
                                  exists l', In (k, l') groups' /\ In fi l').
    { intros k l fi Hk Hfi.
      destruct (get groups0 (FileInfo.name x)) as [l0| |] eqn:Eg; [|discriminate|];
        injection Es as <-.
      - apply get_Own in Eg.
        destruct (set_In_old _ (FileInfo.name x) (l0 ++ [x]) _ _ Hk) as [?|[-> Ho]]; [eauto|].
        rewrite Eg in Ho. injection Ho as <-. exists (l0 ++ [x]).
        split; [apply set_In_new | apply in_or_app; now left].
      - apply get_Undefined in Eg.
        destruct (set_In_old _ (FileInfo.name x) [x] _ _ Hk) as [?|[-> Ho]]; [eauto|].
        rewrite Eg in Ho. discriminate. }
    assert (Hinv : forall k l fi, In (k, l) groups' -> In fi l ->
                                  (exists l0, In (k, l0) groups0 /\ In fi l0)
                                  \/ (fi = x /\ FileInfo.name x = k)).
    { intros k l fi Hk Hfi.
      destruct (get groups0 (FileInfo.name x)) as [l0| |] eqn:Eg; [|discriminate|];
        injection Es as <-.
      - apply get_Own in Eg. apply set_In_inv in Hk as [Hk|[-> ->]]; [eauto|].
        apply in_app_or in Hfi as [Hfi|[<-|[]]]; [|auto].
        left. exists l0. split; [now apply own_In | exact Hfi].
      - apply set_In_inv in Hk as [Hk|[-> ->]]; [eauto|].
        destruct Hfi as [<-|[]]. auto. }
    split; [|split].
    + intros fi [<-|Hin]; [|auto]. destruct Hnew as (l & Hl & Hx). eapply I2; eauto.
    + intros k l fi Hk Hfi. destruct (Hold _ _ _ Hk Hfi) as (l' & Hk' & Hfi'). eapply I2; eauto.
    + intros k l fi Hk Hfi. destruct (I3 _ _ _ Hk Hfi) as [(l0 & Hk0 & Hfi0)|[Hin Hn]].
      * destruct (Hinv _ _ _ Hk0 Hfi0) as [?|[-> <-]]; [now left|]. right. split; [now left | reflexivity].
      * right. split; [now right | exact Hn].
Qed.

End PlanFacts.

(** ** The moving stage *)

Section Moving.

Context `{C : Collaborators}.

Lemma ready_by_dir_ready o dir tr : ready_by o dir tr -> dir_ready dir tr.
Proof. intros H. exists o. exact H. Qed.

Lemma dir_ready_app dir a b : dir_ready dir a \/ dir_ready dir b -> dir_ready dir (a ++ b).
Proof.
  intros [[o [H|H]]|[o [H|H]]]; exists o; rewrite !in_app_iff; auto.
Qed.

Lemma dir_ready_cons dir e tr : dir_ready dir tr -> dir_ready dir (e :: tr).
Proof. intros [o [H|H]]; exists o; [left | right]; now right. Qed.

(** A trace without renames. *)
Lemma rename_after {X} (a b pre post : list X) (x : X) :
  ~ In x a -> a ++ b = pre ++ x :: post ->
  exists pre2, pre = a ++ pre2 /\ b = pre2 ++ x :: post.
Proof.
  intros Hn H. apply app_split_cons in H as [(post1 & -> & _)|?]; [|assumption].
  exfalso. apply Hn. apply in_elt.
Qed.

Lemma date_dirs_lookup ty perDate i dir dirFiles :
  date_dirs ty perDate !! i = Some (dir, dirFiles) ->
  exists date, In (date, dirFiles) (JsObject.entries perDate) /\ dir = dirDate ty date.
Proof.
  unfold date_dirs. rewrite lookup_map.
  destruct (JsObject.entries perDate !! i) as [[date fs]|] eqn:E; [|discriminate].
  cbn. intros [= <- <-]. exists date. split; [|reflexivity].
  apply list_elem_of_In. eapply list_elem_of_lookup_2; eauto.
Qed.


(** Every rename of the types' loop moves a listed file to the directory
    of its type and date, which is ready by then. *)
Lemma move_types_renames schedules types call w tr w' r pre o src dst ok post :
  move_types schedules call w types = (tr, w', r) ->
  tr = pre ++ (o, EvRename src dst ok) :: post ->
  exists ty perDate date dirFiles fileInfo,
    In (ty, perDate) types /\ In (date, dirFiles) (JsObject.entries perDate)
    /\ In fileInfo dirFiles
    /\ EvRename src dst ok = rename_to (dirDate ty date) fileInfo ok
    /\ dir_ready (dirDate ty date) pre.
Proof.
  revert call w tr w' r pre.
  induction types as [|[ty perDate] types IH]; intros call w tr w' r pre H E.
  - injection H as <- _ _. destruct pre; discriminate.
  - cbn [move_types] in H.
    set (p := await_all call (schedules call) w (date_dirs ty perDate)) in *.
    destruct (await_all_ok call (schedules call) w (date_dirs ty perDate))
      as (_ & _ & P3 & _). fold p in P3.
    assert (Hpool : forall pre1 post1,
               pool_trace p = pre1 ++ (o, EvRename src dst ok) :: post1 ->
               exists date dirFiles fileInfo,
                 In (date, dirFiles) (JsObject.entries perDate) /\ In fileInfo dirFiles
                 /\ EvRename src dst ok = rename_to (dirDate ty date) fileInfo ok
                 /\ dir_ready (dirDate ty date) pre1).
    { intros pre1 post1 E1.
      destruct (P3 _ _ _ _ _ _ E1) as (i & dir & fs & fi & _ & Hd & Hfi & Hev & Hr).
      apply date_dirs_lookup in Hd as (date & Hin & ->).
      exists date, fs, fi. repeat split; try assumption. eapply ready_by_dir_ready; eauto. }
    destruct (pool_rejection p) as [e|].
    + injection H as <- _ _. destruct (Hpool _ _ E) as (date & fs & fi & H1 & H2 & H3 & H4).
      exists ty, perDate, date, fs, fi. repeat split; try assumption. now left.
    + destruct (move_types schedules (S call) (pool_world p) types) as [[tr2 w2] r2] eqn:Em.
      injection H as <- _ _.
      apply app_split_cons in E as [(post1 & E1 & _)|(pre2 & -> & E2)].
      * destruct (Hpool _ _ E1) as (date & fs & fi & H1 & H2 & H3 & H4).
        exists ty, perDate, date, fs, fi. repeat split; try assumption. now left.
      * destruct (IH _ _ _ _ _ _ Em E2) as (ty' & pd & date & fs & fi & H0 & H1 & H2 & H3 & H4).
        exists ty', pd, date, fs, fi. repeat split; try assumption; [now right|].
        apply dir_ready_app. now right.
Qed.



Lemma type_dirs_lookup perTypeAndDate i dir dirFiles :
  type_dirs perTypeAndDate !! i = Some (dir, dirFiles) -> dirFiles = [].
Proof.
  unfold type_dirs. rewrite lookup_map.
  destruct (JsObject.keys perTypeAndDate !! i); [|discriminate]. now intros [= _ <-].
Qed.

Lemma type_dirs_In perTypeAndDate ty :
  In ty (JsObject.keys perTypeAndDate) ->
  exists i, type_dirs perTypeAndDate !! i = Some (dirType ty, []).
Proof.
  intros H. apply list_elem_of_In, list_elem_of_lookup_1 in H as [i Hi].
  exists i. unfold type_dirs. rewrite lookup_map, Hi. reflexivity.
Qed.

(** Creating the directories of the types renames nothing. *)
Lemma type_dirs_no_rename schedule w perTypeAndDate o src dst ok :
  ~ In (o, EvRename src dst ok)
      (pool_trace (await_all 1 schedule w (type_dirs perTypeAndDate))).
Proof.
  intros H. apply in_split in H as (pre & post & E).
  destruct (await_all_ok 1 schedule w (type_dirs perTypeAndDate)) as (_ & _ & P3 & _).
  destruct (P3 _ _ _ _ _ _ E) as (i & dir & fs & fi & _ & Hd & Hfi & _).
  apply type_dirs_lookup in Hd as ->. destruct Hfi.
Qed.

(** The shape of the trace of the moving stage: the creation of the
    directories of the types, then the loop over the types, then the
    closing messages of a run that went through. *)
Lemma move_files_trace schedules w pl tr w' out :
  move_files schedules w pl = (tr, w', out) ->
  exists head tr2 tail,
    tr = head ++ tr2 ++ tail
    /\ (forall o src dst ok, ~ In (o, EvRename src dst ok) head)
    /\ (forall o src dst ok, ~ In (o, EvRename src dst ok) tail)
    /\ ((tr2 = [] /\ tail = [] /\ exists e, out = Rejected e)
        \/ exists w1 r,
            move_types schedules 2 w1 (JsObject.entries (filesPerTypeAndDate pl)) = (tr2, w', r)
            /\ (forall ty, In ty (JsObject.keys (filesPerTypeAndDate pl)) ->
                           dir_ready (dirType ty) head)
            /\ ((r = None /\ out = Returned 0)
                \/ (tail = [] /\ exists e, r = Some e /\ out = Rejected e))).
Proof.
  unfold move_files.
  set (p := await_all 1 (schedules 1) w (type_dirs (filesPerTypeAndDate pl))).
  assert (Hno : forall o src dst ok,
             ~ In (o, EvRename src dst ok) ((OMain, EvLog "Moving files...") :: pool_trace p)).
  { intros o src dst ok [H|H]; [discriminate|]. now apply type_dirs_no_rename in H. }
  destruct (pool_rejection p) as [e|] eqn:Er.
  - intros [= <- <- <-]. exists ((OMain, EvLog "Moving files...") :: pool_trace p), [], [].
    split; [now rewrite app_nil_r|]. split; [exact Hno|]. split; [intros ? ? ? ? []|].
    left. eauto.
  - destruct (move_types schedules 2 (pool_world p) _) as [[tr2 w2] r] eqn:Em.
    set (head := ((OMain, EvLog "Moving files...") :: pool_trace p)
                   ++ [(OMain, EvProgressStart (length (filesForInformation pl)))]).
    assert (Hhead : forall o src dst ok, ~ In (o, EvRename src dst ok) head).
    { intros o src dst ok H. apply in_app_or in H as [H|[H|[]]]; [|discriminate].
      now apply Hno in H. }
    assert (Hready : forall ty, In ty (JsObject.keys (filesPerTypeAndDate pl)) ->
                                dir_ready (dirType ty) head).
    { intros ty Hty. apply type_dirs_In in Hty as [i Hi].
      destruct (await_all_fulfilled _ _ _ _ _ _ _ Er Hi) as [Hr _].
      apply dir_ready_app. left. apply dir_ready_cons. eapply ready_by_dir_ready; eauto. }
    destruct r as [e|]; intros [= <- <- <-].
    + exists head, tr2, []. split; [unfold head; now rewrite <- !app_assoc, app_nil_r|].
      split; [exact Hhead|]. split; [intros ? ? ? ? []|].
      right. exists (pool_world p), (Some e). split; [exact Em|]. split; [exact Hready|].
      right. eauto.
    + exists head, tr2,
        [(OMain, EvProgressStop); (OMain, EvLog "Files organized successfully!")].
      split; [unfold head; now rewrite <- !app_assoc|].
      split; [exact Hhead|]. split; [intros ? ? ? ? [H|[H|[]]]; discriminate|].
      right. exists (pool_world p), None. split; [exact Em|]. split; [exact Hready|].
      left. auto.
Qed.

(** Where a rename stands in the trace of the moving stage. *)
Lemma rename_in_loop (head tr2 tail pre post : list Entry) o src dst ok :
  (forall o src dst ok, ~ In (o, EvRename src dst ok) head) ->
  (forall o src dst ok, ~ In (o, EvRename src dst ok) tail) ->
  head ++ tr2 ++ tail = pre ++ (o, EvRename src dst ok) :: post ->
  exists pre2 post2,
    pre = head ++ pre2 /\ tr2 = pre2 ++ (o, EvRename src dst ok) :: post2
    /\ post = post2 ++ tail.
Proof.
  intros Hh Ht E. apply rename_after in E as (pre2 & -> & E); [|apply Hh].
  apply app_split_cons in E as [(post2 & E & ->)|(pre3 & _ & E)]; [eauto|].
  exfalso. apply (Ht o src dst ok). rewrite E. apply in_elt.
Qed.

Lemma reads_no_rename (tr : list Entry) :
  Forall (fun e : Entry => mutates (snd e) = false) tr ->
  forall o src dst ok, ~ In (o, EvRename src dst ok) tr.
Proof.
  intros H o src dst ok Hin. rewrite Forall_forall in H.
  apply list_elem_of_In, H in Hin. discriminate.
Qed.

(** The shape of the trace of a run in move mode. *)
Lemma main_move_trace schedules w st :
  stages_of (pipeline schedules w) = Some st ->
  exists head tr2 tail,
    trace (main schedules (Some "move") w) = head ++ tr2 ++ tail
    /\ (forall o src dst ok, ~ In (o, EvRename src dst ok) head)
    /\ (forall o src dst ok, ~ In (o, EvRename src dst ok) tail)
    /\ ((tr2 = [] /\ tail = []
         /\ exists e, outcome (main schedules (Some "move") w) = Rejected e)
        \/ exists w1 w2 r,
            move_types schedules 2 w1 (JsObject.entries (filesPerTypeAndDate (plan st)))
            = (tr2, w2, r)
            /\ (forall ty, In ty (JsObject.keys (filesPerTypeAndDate (plan st))) ->
                           dir_ready (dirType ty) head)
            /\ ((r = None /\ outcome (main schedules (Some "move") w) = Returned 0)
                \/ (tail = []
                    /\ exists e, r = Some e
                                 /\ outcome (main schedules (Some "move") w) = Rejected e))).
Proof.
  intros Hst. unfold main. pose proof (pipeline_reads schedules w) as Hr.
  unfold stages_of in Hst. destruct (pipeline schedules w) as [trp [e|st']]; [discriminate|].
  cbn [snd fst] in *. injection Hst as ->. cbn [JsString.includes existsb negb].
  change (String.eqb "move" "move" || false) with true. cbn [negb].
  destruct (move_files schedules w (plan st)) as [[tr2 w2] out] eqn:Em. cbn [trace outcome].
  destruct (move_files_trace _ _ _ _ _ _ Em) as (head & tr3 & tail & -> & Hh & Ht & Hc).
  exists ((trp ++ [(OMain, EvTable (filesForInformation (plan st)))]) ++ head), tr3, tail.
  split; [now rewrite <- !app_assoc|]. split.
  { intros o src dst ok H. apply in_app_or in H as [H|H]; [|now apply Hh in H].
    apply in_app_or in H as [H|[H|[]]]; [|discriminate].
    now apply (reads_no_rename _ Hr) in H. }
  split; [exact Ht|].
  destruct Hc as [Hc|(w1 & r & Hm & Hready & Hout)]; [now left|].
  right. exists w1, w2, r. split; [exact Hm|]. split; [|exact Hout].
  intros ty Hty. apply dir_ready_app. right. now apply Hready.
Qed.

(** Every rename of a run in move mode moves a listed file into the
    directory of its type and date; that directory is ready by then,
    and so are the directories of all the types. *)
Lemma move_rename_explained schedules w st pre o src dst ok post :
  stages_of (pipeline schedules w) = Some st ->
  trace (main schedules (Some "move") w) = pre ++ (o, EvRename src dst ok) :: post ->
  (forall ty, In ty (JsObject.keys (filesPerTypeAndDate (plan st))) ->
              dir_ready (dirType ty) pre)
  /\ exists ty date fileInfo,
      listed (filesPerTypeAndDate (plan st)) ty date fileInfo
      /\ src = FileInfo.path fileInfo
      /\ dst = NodePath.join (dirDate ty date) (FileInfo.basename fileInfo)
      /\ dir_ready (dirDate ty date) pre.
Proof.
  intros Hst E.
  destruct (main_move_trace _ _ _ Hst) as (head & tr2 & tail & Etr & Hh & Ht & Hc).
  rewrite Etr in E.
  destruct (rename_in_loop _ _ _ _ _ _ _ _ _ Hh Ht E) as (pre2 & post2 & -> & E2 & ->).
  destruct Hc as [(-> & _)|(w1 & w2 & r & Hm & Hready & _)]; [destruct pre2; discriminate|].
  split.
  - intros ty Hty. apply dir_ready_app. left. now apply Hready.
  - destruct (move_types_renames _ _ _ _ _ _ _ _ _ _ _ _ _ Hm E2)
      as (ty & perDate & date & fs & fi & H1 & H2 & H3 & H4 & H5).
    exists ty, date, fi. unfold rename_to in H4. injection H4 as -> ->.
    split; [exists perDate, fs; auto|]. split; [reflexivity|]. split; [reflexivity|].
    apply dir_ready_app. now right.
Qed.


(** C8, as amended: in every run in move mode, the directory of every
    type of the plan is ready (found, or created) before the first file
    is renamed, and the directory of a type and date is ready before a
    file is renamed into it.  (The directory of a date is created by the
    task that moves its files, so it may come after renames into other
    directories.) *)
Theorem directories_before_renames schedules w st pre o src dst ok post :
  stages_of (pipeline schedules w) = Some st ->
  trace (main schedules (Some "move") w) = pre ++ (o, EvRename src dst ok) :: post ->
  (forall ty, In ty (JsObject.keys (filesPerTypeAndDate (plan st))) ->
              dir_ready (dirType ty) pre)
  /\ exists ty date fileInfo,
      listed (filesPerTypeAndDate (plan st)) ty date fileInfo
      /\ src = FileInfo.path fileInfo
      /\ dst = NodePath.join (dirDate ty date) (FileInfo.basename fileInfo)
      /\ dir_ready (dirDate ty date) pre.
Proof. apply move_rename_explained. Qed.




End Moving.



(** The directory of a date is created when its type is reached: for a
    photo and a clip, the photo is renamed before the directory that the
    clip goes to exists.  The claim C8 as first stated fails on them. *)
Lemma date_directory_after_rename_counterexample :
  let run := main (C := Demo.collaborators) Demo.in_order (Some "move") Demo.photo_and_clip in
  exists pre post,
    trace run
    = pre ++ (OTask 2 0, EvRename "/photos/a.jpg" "/photos/Image/2023-05-01/a.jpg" true) :: post
    /\ ~ dir_ready "/photos/Video/2023-06-01" pre
    /\ In (OTask 3 0, EvMkdir "/photos/Video/2023-06-01" true) post
    /\ In (OTask 3 0, EvRename "/photos/b.mp4" "/photos/Video/2023-06-01/b.mp4" true) post.
Proof.
  intros run. exists (firstn 21 (trace run)), (skipn 22 (trace run)).
  split; [vm_compute; reflexivity|]. split; [|split; vm_compute; tauto].
  intros [o H]. vm_compute in H.
  repeat match goal with
         | H : _ \/ _ |- _ => destruct H as [H|H]
         | H : (_, _) = (_, _) |- _ => discriminate H
         | H : False |- _ => destruct H
         end.
Qed.

Lemma directories_before_renames_witness :
  let run := main (C := Demo.collaborators) Demo.in_order (Some "move") Demo.photo_and_clip in
  exists st,
    stages_of (pipeline (C := Demo.collaborators) Demo.in_order Demo.photo_and_clip) = Some st
    /\ trace run
       = firstn 25 (trace run)
           ++ (OTask 3 0, EvRename "/photos/b.mp4" "/photos/Video/2023-06-01/b.mp4" true)
           :: skipn 26 (trace run)
    /\ (forall ty, In ty (JsObject.keys (filesPerTypeAndDate (plan st))) ->
                   dir_ready (dirType (C := Demo.collaborators) ty) (firstn 25 (trace run))).
Proof.
  intros run. eexists. split; [vm_compute; reflexivity|]. split; [vm_compute; reflexivity|].
  eapply (directories_before_renames (C := Demo.collaborators) Demo.in_order
            Demo.photo_and_clip _ (firstn 25 (trace run)) (OTask 3 0)
            "/photos/b.mp4" "/photos/Video/2023-06-01/b.mp4" true (skipn 26 (trace run))).
  - vm_compute. reflexivity.
  - vm_compute. reflexivity.
Defined.


(** * More of the program *)

(** ** The scan *)

Section Scan.

Context `{C : Collaborators}.

Lemma isValidFile_cases w p :
  (scanned w p = true /\ snd (isValidFile w p) = inr true)
  \/ (scanned w p = false /\ unreadable w p = false /\ snd (isValidFile w p) = inr false)
  \/ (scanned w p = false /\ unreadable w p = true
      /\ snd (isValidFile w p) = inl (FsError "stat" p)).
Proof.
  unfold scanned, unreadable, isValidFile.
  destruct (ignored (NodePath.basename p)); cbn; [auto|].
  destruct (isDirectory w p) as [[|]|]; cbn; auto.
Qed.

Lemma filter_valid_filter w paths kept :
  snd (filter_valid w paths) = inr kept ->
  kept = List.filter (scanned w) paths
  /\ Forall (fun p => unreadable w p = false) paths.
Proof.
  revert kept. induction paths as [|p rest IH]; intros kept H; cbn [filter_valid] in H.
  - injection H as <-. split; [reflexivity | constructor].
  - destruct (isValidFile_cases w p) as [[Hs Hv]|[(Hs & Hu & Hv)|(Hs & Hu & Hv)]];
      destruct (isValidFile w p) as [evs [e|keep]]; cbn [snd] in Hv; try discriminate;
      injection Hv as Hv; subst.
    + destruct (filter_valid w rest) as [evs' [e|kept']]; [discriminate|].
      cbn [snd] in *. injection H as <-. destruct (IH _ eq_refl) as [-> Hf].
      cbn [List.filter]. rewrite Hs. split; [reflexivity|]. constructor; [|exact Hf].
      unfold scanned, unreadable in *. destruct (ignored _); [reflexivity|].
      destruct (isDirectory w p) as [[|]|]; cbn in *; congruence.
    + destruct (filter_valid w rest) as [evs' [e|kept']]; [discriminate|].
      cbn [snd] in *. injection H as <-. destruct (IH _ eq_refl) as [-> Hf].
      cbn [List.filter]. rewrite Hs. split; [reflexivity|]. now constructor.
Qed.

Lemma filter_valid_throws w paths e :
  snd (filter_valid w paths) = inl e ->
  exists before p after,
    paths = before ++ p :: after /\ e = FsError "stat" p
    /\ unreadable w p = true /\ Forall (fun q => unreadable w q = false) before.
Proof.
  induction paths as [|p rest IH]; intros H; cbn [filter_valid] in H; [discriminate|].
  destruct (isValidFile_cases w p) as [[Hs Hv]|[(Hs & Hu & Hv)|(Hs & Hu & Hv)]];
    destruct (isValidFile w p) as [evs [e'|keep]]; cbn [snd] in Hv; try discriminate.
  - destruct (filter_valid w rest) as [evs' [e'|kept']]; [|discriminate].
    cbn [snd] in *. injection H as <-.
    destruct (IH eq_refl) as (before & q & after & -> & -> & Hq & Hb).
    exists (p :: before), q, after. repeat split; try assumption. constructor; [|exact Hb].
    unfold scanned, unreadable in *. destruct (ignored _); [reflexivity|].
    destruct (isDirectory w p) as [[|]|]; cbn in *; congruence.
  - destruct (filter_valid w rest) as [evs' [e'|kept']]; [|discriminate].
    cbn [snd] in *. injection H as <-.
    destruct (IH eq_refl) as (before & q & after & -> & -> & Hq & Hb).
    exists (p :: before), q, after. repeat split; try assumption. now constructor.
  - cbn [snd] in H. injection H as <-. injection Hv as ->.
    exists [], p, rest. repeat split; [exact Hu | constructor].
Qed.

Lemma filter_valid_stats w paths p :
  In (EvStatSync p) (fst (filter_valid w paths)) ->
  In p paths /\ ignored (NodePath.basename p) = false.
Proof.
  induction paths as [|q rest IH]; cbn [filter_valid]; [intros []|].
  assert (Hq : forall x, In (EvStatSync x) (fst (isValidFile w q)) ->
                         x = q /\ ignored (NodePath.basename q) = false).
  { unfold isValidFile. destruct (ignored (NodePath.basename q)); [cbn; intros ? []|].
    destruct (isDirectory w q) as [[|]|]; cbn; intros x [[= <-]|[]]; auto. }
  destruct (isValidFile w q) as [evs [e|keep]]; cbn [fst] in *.
  - intros H. destruct (Hq _ H) as [-> Hi]. split; [now left | exact Hi].
  - destruct (filter_valid w rest) as [evs' [e|kept']]; cbn [fst] in *;
      intros H; apply in_app_or in H as [H|H].
    + destruct (Hq _ H) as [-> Hi]. split; [now left | exact Hi].
    + destruct (IH H). split; [now right | assumption].
    + destruct (Hq _ H) as [-> Hi]. split; [now left | exact Hi].
    + destruct (IH H). split; [now right | assumption].
Qed.

(** X1: the scan keeps, in the order of the listing, exactly the entries
    whose name is not ignored and which are not directories; and it
    calls [statSync] only on entries whose name is not ignored. *)
Theorem scan_keeps_files w fileNames paths :
  readdir w cwd = Some fileNames ->
  snd (scan w) = inr paths ->
  paths = List.filter (scanned w) (map (NodePath.join cwd) fileNames)
  /\ forall p, In (EvStatSync p) (fst (scan w)) ->
               In p (map (NodePath.join cwd) fileNames)
               /\ ignored (NodePath.basename p) = false.
Proof.
  intros Hrd. unfold scan. rewrite Hrd.
  pose proof (filter_valid_filter w (map (NodePath.join cwd) fileNames)) as Hf.
  pose proof (filter_valid_stats w (map (NodePath.join cwd) fileNames)) as Hst.
  destruct (filter_valid w _) as [evs r]. cbn [fst snd] in *.
  intros ->. split; [now apply Hf|].
  intros p [H|H]; [discriminate | now apply Hst].
Qed.

(** X2: the scan throws exactly when [statSync] fails on an entry whose
    name is not ignored, and then with the error of the first such entry
    of the listing; entries with an ignored name never make it throw. *)
Theorem scan_throws_on_unreadable w fileNames :
  readdir w cwd = Some fileNames ->
  ((exists e, snd (scan w) = inl e)
   <-> exists p, In p (map (NodePath.join cwd) fileNames) /\ unreadable w p = true)
  /\ forall e,
      snd (scan w) = inl e ->
      exists before p after,
        map (NodePath.join cwd) fileNames = before ++ p :: after
        /\ e = FsError "stat" p /\ unreadable w p = true
        /\ Forall (fun q => unreadable w q = false) before.
Proof.
  intros Hrd. unfold scan. rewrite Hrd.
  pose proof (filter_valid_filter w (map (NodePath.join cwd) fileNames)) as Hf.
  pose proof (filter_valid_throws w (map (NodePath.join cwd) fileNames)) as Ht.
  destruct (filter_valid w _) as [evs [e|kept]]; cbn [fst snd] in *.
  - split; [|intros e' [= <-]; now apply Ht]. split; [|eauto].
    intros _. destruct (Ht e eq_refl) as (before & p & after & -> & _ & Hp & _).
    exists p. split; [apply in_elt | exact Hp].
  - split; [|discriminate]. split; [intros [e He]; discriminate|].
    intros (p & Hin & Hp). destruct (Hf _ eq_refl) as [_ Hall].
    rewrite Forall_forall in Hall. apply list_elem_of_In, Hall in Hin. congruence.
Qed.

End Scan.

(** ** The extraction *)

Section Extraction.

Context `{C : Collaborators}.

(** X3: [getFileInfo] gives a descriptor exactly when [stat] succeeds
    and, for the MIME types whose metadata are read, the file can be read
    and the reader gives an object; the date taken is then the
    [DateTimeOriginal] of that object, and none for the other MIME types.
    The progress bar is ticked exactly by the extractions that succeed. *)
Theorem getFileInfo_outcome w filePath :
  ((exists fileInfo, snd (getFileInfo true w filePath) = inr fileInfo)
   <-> (exists times, stat w filePath = Some times)
       /\ (reads_metadata filePath = false
           \/ exists data dateTimeOriginal,
               readFile w filePath = Some data
               /\ exif_parse data = ExifObject dateTimeOriginal))
  /\ (forall fileInfo,
         snd (getFileInfo true w filePath) = inr fileInfo ->
         (reads_metadata filePath = false -> FileInfo.takenAt fileInfo = None)
         /\ (forall data, readFile w filePath = Some data ->
                          reads_metadata filePath = true ->
                          exif_parse data = ExifObject (FileInfo.takenAt fileInfo))
         /\ stat w filePath
            = Some (FileInfo.createdAt fileInfo, FileInfo.modifiedAt fileInfo))
  /\ (In EvProgressIncrement (fst (getFileInfo true w filePath))
      <-> exists fileInfo, snd (getFileInfo true w filePath) = inr fileInfo).
Proof.
  unfold getFileInfo, readTakenAt, reads_metadata.
  destruct (stat w filePath) as [[c m]|].
  2:{ cbn. split; [|split].
      - split; [intros [? ?]; discriminate | intros [[? ?] _]; discriminate].
      - discriminate.
      - split; [intros [?|[]]; discriminate | intros [? ?]; discriminate]. }
  destruct (JsString.includes _ (getType filePath)).
  - destruct (readFile w filePath) as [data|].
    + destruct (exif_parse data) as [| |dto] eqn:Ep; cbn.
      * split; [|split].
        -- split; [intros [? ?]; discriminate|].
           intros [_ [?|(d & o & [= <-] & Ho)]]; [discriminate | congruence].
        -- discriminate.
        -- split; [intros [?|[?|[?|[]]]]; discriminate | intros [? ?]; discriminate].
      * split; [|split].
        -- split; [intros [? ?]; discriminate|].
           intros [_ [?|(d & o & [= <-] & Ho)]]; [discriminate | congruence].
        -- discriminate.
        -- split; [intros [?|[?|[?|[]]]]; discriminate | intros [? ?]; discriminate].
      * split; [|split].
        -- split; [intros _; split; [eauto | right; eauto] | eauto].
        -- intros fi [= <-]. cbn. split; [discriminate|]. split; [|reflexivity].
           intros d [= <-] _. exact Ep.
        -- split; [eauto | intros _; auto].
    + cbn. split; [|split].
      * split; [intros [? ?]; discriminate|].
        intros [_ [?|(d & o & ? & _)]]; discriminate.
      * discriminate.
      * split; [intros [?|[?|[]]]; discriminate | intros [? ?]; discriminate].
  - cbn. split; [|split].
    + split; [intros _; split; [eauto | now left] | eauto].
    + intros fi [= <-]. cbn. split; [reflexivity|]. split; [discriminate | reflexivity].
    + split; [eauto | intros _; auto].
Qed.

Lemma results_paths w paths infos :
  map snd (map (getFileInfo true w) paths) = map inr infos ->
  map FileInfo.path infos = paths
  /\ map FileInfo.basename infos = map NodePath.basename paths
  /\ map FileInfo.mime infos = map getType paths
  /\ map FileInfo.name infos
     = map (fun p => fst (JsString.split "."%char (NodePath.basename p))) paths.
Proof.
  revert infos. induction paths as [|p paths IH]; intros [|fi infos] H; try discriminate.
  - repeat split.
  - cbn in H. injection H as Hp H. destruct (IH _ H) as (I1 & I2 & I3 & I4).
    apply getFileInfo_fields in Hp as (Hn & _ & Hb & Hpath & Hm & _).
    cbn. rewrite I1, I2, I3, I4, Hn, Hb, Hpath, Hm. repeat split.
Qed.

(** X4: a run has one descriptor for every scanned path, in the order of
    the scan, whatever the order in which the extractions settle: the
    paths of the descriptors are the scanned paths, and so are their base
    names, MIME types and group keys. *)
Theorem descriptors_follow_scan schedules w st :
  stages_of (pipeline schedules w) = Some st ->
  map FileInfo.path (baseFilesInfo st) = baseFiles st
  /\ map FileInfo.basename (baseFilesInfo st) = map NodePath.basename (baseFiles st)
  /\ map FileInfo.mime (baseFilesInfo st) = map getType (baseFiles st)
  /\ map FileInfo.name (baseFilesInfo st)
     = map (fun p => fst (JsString.split "."%char (NodePath.basename p))) (baseFiles st)
  /\ length (baseFilesInfo st) = length (baseFiles st).
Proof.
  intros Hst. apply pipeline_stages in Hst as (_ & Hm & _).
  destruct (results_paths _ _ _ Hm) as (I1 & I2 & I3 & I4).
  repeat split; try assumption. rewrite <- I1. now rewrite length_map.
Qed.

End Extraction.

(** ** Runs that move nothing *)

Section Nothing.

Context `{C : Collaborators}.

Lemma getFileInfo_extracting progress w filePath :
  Forall (fun ev => extracting ev = true) (fst (getFileInfo progress w filePath)).
Proof.
  unfold getFileInfo, readTakenAt. destruct (stat w filePath) as [[c m]|]; [|repeat constructor].
  destruct (JsString.includes _ (getType filePath)).
  - destruct (readFile w filePath) as [data|]; [|repeat constructor].
    destruct (exif_parse data); destruct progress; repeat constructor.
  - destruct progress; repeat constructor.
Qed.

Lemma filter_valid_extracting w paths :
  Forall (fun ev => extracting ev = true) (fst (filter_valid w paths)).
Proof.
  induction paths as [|p rest IH]; [constructor|]. cbn [filter_valid].
  assert (Hv : Forall (fun ev => extracting ev = true) (fst (isValidFile w p))).
  { unfold isValidFile. destruct (ignored (NodePath.basename p)); [constructor|].
    destruct (isDirectory w p) as [[|]|]; repeat constructor. }
  destruct (isValidFile w p) as [evs [e|keep]]; [exact Hv|].
  destruct (filter_valid w rest) as [evs' [e|kept]]; apply Forall_app; auto.
Qed.

(** The pipeline prints no table and does not touch a directory. *)
Lemma pipeline_extracting schedules w :
  Forall (fun e : Entry => extracting (snd e) = true) (fst (pipeline schedules w)).
Proof.
  unfold pipeline, scan.
  assert (Hon : forall evs, Forall (fun ev => extracting ev = true) evs ->
                            Forall (fun e : Entry => extracting (snd e) = true) (on_main evs)).
  { intros evs H. unfold on_main. now apply Forall_map. }
  destruct (readdir w cwd) as [names|]; [|repeat constructor].
  pose proof (filter_valid_extracting w (map (NodePath.join cwd) names)) as Hs.
  destruct (filter_valid w _) as [evs [e|paths]]; cbn [fst] in *.
  { apply Hon. now constructor. }
  assert (H0 : Forall (fun e : Entry => extracting (snd e) = true)
                 (on_main ((EvReaddir cwd :: evs)
                             ++ [EvLog "Extracting file information...";
                                 EvProgressStart (length paths)]))).
  { apply Hon. apply Forall_app. split; [now constructor | repeat constructor]. }
  assert (H1 : Forall (fun e : Entry => extracting (snd e) = true)
                 (fst (promise_all 0 (schedules 0) (map (getFileInfo true w) paths)))).
  { apply Forall_forall. intros [o ev] Hin. apply list_elem_of_In in Hin.
    apply promise_all_trace in Hin as (i & evs' & r & _ & Hi & Hev).
    rewrite lookup_map in Hi. destruct (paths !! i) as [p|]; [|discriminate].
    injection Hi as Hi. pose proof (getFileInfo_extracting true w p) as Hr.
    rewrite Hi in Hr. cbn [fst snd] in *.
    rewrite Forall_forall in Hr. apply Hr. now apply list_elem_of_In. }
  destruct (promise_all 0 (schedules 0) (map (getFileInfo true w) paths))
    as [tr1 [e|infos]]; cbn [fst] in *.
  { apply Forall_app. auto. }
  assert (H2 : Forall (fun e : Entry => extracting (snd e) = true)
                 (on_main ((EvReaddir cwd :: evs)
                             ++ [EvLog "Extracting file information...";
                                 EvProgressStart (length paths)])
                  ++ tr1 ++ [(OMain, EvProgressStop)])).
  { apply Forall_app. split; [exact H0|]. apply Forall_app. split; [exact H1|].
    repeat constructor. }
  destruct (group_files infos); [exact H2|].
  destruct (process_groups t); exact H2.
Qed.

(** X5: when the pipeline fails (the scan, an extraction or the
    grouping throws), the run is rejected whatever the command, without
    having printed the table and without having tested, created or
    renamed anything: the filesystem is as it was. *)
Theorem failed_pipeline_moves_nothing schedules command w :
  stages_of (pipeline schedules w) = None ->
  (exists e, outcome (main schedules command w) = Rejected e)
  /\ final (main schedules command w) = w
  /\ Forall (fun e : Entry => extracting (snd e) = true)
       (trace (main schedules command w)).
Proof.
  intros Hst. unfold main, stages_of in *.
  pose proof (pipeline_extracting schedules w) as He.
  destruct (pipeline schedules w) as [tr [e|st]]; [|discriminate].
  cbn [fst trace final outcome] in *. eauto.
Qed.

Lemma settle_nothing {A} call order (st : Settling A) :
  slots st = [] -> fold_left (settle call []) order st = st.
Proof.
  intros Hs. induction order as [|i order IH]; [reflexivity|]. cbn [fold_left].
  unfold settle at 2. rewrite Hs. exact IH.
Qed.

Lemma promise_all_nothing {A} call schedule :
  promise_all (A := A) call schedule [] = ([], inr []).
Proof.
  unfold promise_all. cbn [length seq replicate]. rewrite app_nil_r.
  now rewrite settle_nothing.
Qed.

Lemma advance_nothing call order p :
  pool_tasks p = [] -> fold_left (advance call) order p = p.
Proof.
  intros Ht. induction order as [|i order IH]; [reflexivity|]. cbn [fold_left].
  unfold advance at 2. rewrite Ht. exact IH.
Qed.

Lemma await_all_nothing call schedule w :
  await_all call schedule w [] = mkPool w [] [] None.
Proof.
  unfold await_all. cbn [launch_all completion]. rewrite app_nil_r.
  now apply advance_nothing.
Qed.

(** X6: a directory in which the scan keeps nothing (it is empty, or it
    holds only directories and ignored names): the run prints an empty
    table and returns 0; in move mode too it tests, creates and renames
    nothing, and leaves the filesystem as it was. *)
Theorem nothing_to_organize schedules command w :
  snd (scan w) = inr [] ->
  outcome (main schedules command w) = Returned 0
  /\ final (main schedules command w) = w
  /\ In (OMain, EvTable []) (trace (main schedules command w))
  /\ forall o ev,
      In (o, ev) (trace (main schedules command w)) ->
      mutates ev = false /\ forall p found, ev <> EvExistsSync p found.
Proof.
  intros Hs. pose proof (pipeline_extracting schedules w) as He.
  unfold main, pipeline in *. destruct (scan w) as [evs [e|paths]]; [discriminate|].
  cbn [snd] in Hs. injection Hs as ->. cbn [map] in *. rewrite promise_all_nothing in *.
  cbn [group_files group_from process_groups JsObject.entries JsObject.index_entries
         List.filter map app process_from plan filesForInformation fst] in *.
  assert (Hq : forall tail : list Entry,
             Forall (fun e : Entry => extracting (snd e) = true) tail ->
             forall o ev,
               In (o, ev)
                  (((on_main (evs ++ [EvLog "Extracting file information...";
                                      EvProgressStart (length (@nil string))])
                     ++ [] ++ [(OMain, EvProgressStop)])
                    ++ [(OMain, EvTable [])]) ++ tail) ->
               mutates ev = false /\ forall p found, ev <> EvExistsSync p found).
  { intros tail Ht o ev Hin. rewrite Forall_forall in He, Ht.
    assert (Hx : extracting ev = true \/ ev = EvTable []).
    { apply in_app_or in Hin as [Hin|Hin].
      - apply in_app_or in Hin as [Hin|[[= _ <-]|[]]]; [|now right].
        left. apply (He (o, ev)). now apply list_elem_of_In.
      - left. apply (Ht (o, ev)). now apply list_elem_of_In. }
    destruct Hx as [Hx| ->]; [|split; [reflexivity | discriminate]].
    destruct ev; try discriminate; split; try reflexivity; discriminate. }
  destruct (negb (JsString.includes ["move"] command)).
  - cbn [trace final outcome]. split; [reflexivity|]. split; [reflexivity|]. split.
    + apply in_or_app. left. apply in_or_app. right. now left.
    + apply Hq. repeat constructor.
  - unfold move_files. cbn [filesPerTypeAndDate filesForInformation type_dirs
                             JsObject.keys JsObject.entries JsObject.index_entries
                             List.filter map app].
    rewrite await_all_nothing. cbn [pool_rejection pool_trace pool_world move_types
                                      trace final outcome length].
    split; [reflexivity|]. split; [reflexivity|]. split.
    + apply in_or_app. left. apply in_or_app. right. now left.
    + apply Hq. repeat constructor.
Qed.

End Nothing.

(** ** More on objects used as maps *)

Section MoreObjectFacts.

Import JsObject.

Context {V : Type}.

Lemma own_None (o : t V) k : own o k = None <-> ~ In k (map fst o).
Proof.
  induction o as [|[k' v'] o IH]; cbn [own map fst In]; [tauto|].
  destruct (String.eqb_spec k' k) as [->|Hne].
  - split; [discriminate | intros H; exfalso; auto].
  - rewrite IH. tauto.
Qed.

Lemma own_Some_key (o : t V) k v : own o k = Some v -> In k (map fst o).
Proof. intros H. apply own_In in H. now apply (in_map fst) in H. Qed.

Lemma get_cases (o : t V) k :
  (exists v, get o k = Own v /\ own o k = Some v)
  \/ (get o k = Undefined /\ own o k = None /\ inherited k = false)
  \/ (get o k = Inherited /\ own o k = None /\ inherited k = true).
Proof.
  unfold get, inherited. destruct (own o k) as [v|]; [eauto|].
  destruct (existsb _ _); auto.
Qed.

Lemma set_new (o : t V) k v : own o k = None -> set o k v = o ++ [(k, v)].
Proof.
  induction o as [|[k' v'] o IH]; cbn [own set]; [reflexivity|].
  destruct (String.eqb k' k); [discriminate|]. intros H. cbn. now rewrite IH.
Qed.

Lemma set_old (o : t V) k v v0 :
  own o k = Some v0 ->
  exists o1 o2, o = o1 ++ (k, v0) :: o2 /\ set o k v = o1 ++ (k, v) :: o2
                /\ ~ In k (map fst o1).
Proof.
  induction o as [|[k' v'] o IH]; cbn [own set]; [discriminate|].
  destruct (String.eqb_spec k' k) as [->|Hne].
  - intros [= <-]. exists [], o. auto.
  - intros H. destruct (IH H) as (o1 & o2 & -> & -> & Hn).
    exists ((k', v') :: o1), o2. repeat split. cbn. intros [?|?]; auto.
Qed.

Lemma set_keys (o : t V) k v :
  (own o k <> None /\ map fst (set o k v) = map fst o)
  \/ (own o k = None /\ map fst (set o k v) = map fst o ++ [k]).
Proof.
  destruct (own o k) as [v0|] eqn:E.
  - left. split; [discriminate|]. destruct (set_old o k v v0 E) as (o1 & o2 & -> & -> & _).
    now rewrite !map_app.
  - right. split; [reflexivity|]. rewrite (set_new _ _ _ E). now rewrite map_app.
Qed.

Lemma set_keys_NoDup (o : t V) k v :
  NoDup (map fst o) -> NoDup (map fst (set o k v)).
Proof.
  intros H. destruct (set_keys o k v) as [[_ ->]|[Hn ->]]; [exact H|].
  apply NoDup_app. split; [exact H|]. split; [|apply NoDup_singleton].
  intros x Hx [<-|[]]%list_elem_of_In. apply own_None in Hn.
  now apply Hn, list_elem_of_In.
Qed.

Lemma set_In_NoDup (o : t V) k v k' v' :
  NoDup (map fst o) -> In (k', v') (set o k v) ->
  (k' = k /\ v' = v) \/ (k' <> k /\ In (k', v') o).
Proof.
  intros Hnd Hin. destruct (own o k) as [v0|] eqn:E.
  - destruct (set_old o k v v0 E) as (o1 & o2 & -> & Hs & Hn). rewrite Hs in Hin.
    rewrite map_app in Hnd. cbn in Hnd. apply NoDup_app in Hnd as (_ & Hd & Hnd2).
    apply NoDup_cons in Hnd2 as [Hk _].
    apply in_app_or in Hin as [Hin|[[= <- <-]|Hin]]; [|now left|].
    + right. split; [|apply in_or_app; now left].
      intros ->. apply Hn. now apply (in_map fst) in Hin.
    + right. split; [|apply in_or_app; right; now right].
      intros ->. apply Hk. apply list_elem_of_In. now apply (in_map fst) in Hin.
  - rewrite (set_new _ _ _ E) in Hin. apply own_None in E.
    apply in_app_or in Hin as [Hin|[[= <- <-]|[]]]; [|now left].
    right. split; [|exact Hin]. intros ->. apply E. now apply (in_map fst) in Hin.
Qed.

Lemma insert_index_perm n (e : string * V) l :
  map snd (insert_index n e l) ≡ₚ e :: map snd l.
Proof.
  induction l as [|[m e'] l IH]; cbn [insert_index]; [reflexivity|].
  destruct (m <=? n)%N; cbn [map snd]; [|reflexivity].
  rewrite IH. apply Permutation_swap.
Qed.

(** The enumeration of an object is a rearrangement of its properties. *)
Lemma entries_perm (o : t V) : entries o ≡ₚ o.
Proof.
  unfold entries. induction o as [|[k v] o IH]; [reflexivity|].
  cbn [index_entries List.filter fst]. unfold is_index at 1.
  destruct (array_index k) as [n|]; cbn [negb].
  - rewrite insert_index_perm. cbn. now rewrite IH.
  - rewrite <- Permutation_middle. now rewrite IH.
Qed.

Lemma keys_perm (o : t V) : keys o ≡ₚ map fst o.
Proof. unfold keys. now rewrite entries_perm. Qed.

End MoreObjectFacts.

(** ** The groups *)

Section Groups.

Import JsObject.

Lemma filter_snoc {X} (f : X -> bool) l x :
  List.filter f (l ++ [x]) = List.filter f l ++ (if f x then [x] else []).
Proof. rewrite List.filter_app. reflexivity. Qed.

Lemma filter_nil_iff {X} (f : X -> bool) l :
  (forall x, In x l -> f x = false) -> List.filter f l = [].
Proof.
  induction l as [|x l IH]; intros H; [reflexivity|]. cbn.
  rewrite (H x) by now left. apply IH. intros y Hy. apply H. now right.
Qed.

(** What holds of the groups once the descriptors [seen] were added. *)
Lemma group_from_partition infos groups0 seen groups1 :
  group_from groups0 infos = inr groups1 ->
  NoDup (map fst groups0) ->
  (forall k l, In (k, l) groups0 ->
               l <> [] /\ l = List.filter (fun fi => String.eqb (FileInfo.name fi) k) seen) ->
  (forall fi, In fi seen -> In (FileInfo.name fi) (map fst groups0)) ->
  (forall k, In k (map fst groups0) -> inherited k = false) ->
  NoDup (map fst groups1)
  /\ (forall k l, In (k, l) groups1 ->
                  l <> []
                  /\ l = List.filter (fun fi => String.eqb (FileInfo.name fi) k) (seen ++ infos))
  /\ (forall fi, In fi (seen ++ infos) -> In (FileInfo.name fi) (map fst groups1))
  /\ (forall k, In k (map fst groups1) -> inherited k = false)
  /\ concat (map snd groups1) ≡ₚ concat (map snd groups0) ++ infos.
Proof.
  revert groups0 seen. induction infos as [|x infos IH]; intros groups0 seen H Hnd Hl Hs Hi.
  - injection H as <-. rewrite !app_nil_r. auto.
  - cbn [group_from] in H.
    destruct (group_step groups0 x) as [e|groups'] eqn:Es; [discriminate|].
    unfold group_step in Es.
    assert (Hstep : NoDup (map fst groups')
                    /\ (forall k l, In (k, l) groups' ->
                                    l <> []
                                    /\ l = List.filter
                                             (fun fi => String.eqb (FileInfo.name fi) k)
                                             (seen ++ [x]))
                    /\ (forall fi, In fi (seen ++ [x]) ->
                                   In (FileInfo.name fi) (map fst groups'))
                    /\ (forall k, In k (map fst groups') -> inherited k = false)
                    /\ concat (map snd groups') ≡ₚ concat (map snd groups0) ++ [x]).
    { destruct (get_cases groups0 (FileInfo.name x))
        as [(l & Eg & Eo)|[(Eg & Eo & Ei)|(Eg & Eo & Ei)]]; rewrite Eg in Es;
        [| |discriminate]; injection Es as <-.
      - split; [now apply set_keys_NoDup|].
        destruct (set_keys groups0 (FileInfo.name x) (l ++ [x])) as [[_ Hk]|[Hn _]];
          [|congruence].
        split; [|split; [|split]].
        + intros k l' Hin. apply set_In_NoDup in Hin as [[-> ->]|[Hne Hin]]; [| |exact Hnd].
          * split; [destruct l; discriminate|]. rewrite filter_snoc, String.eqb_refl.
            f_equal. now apply (Hl _ _ (own_In _ _ _ Eo)).
          * destruct (Hl _ _ Hin) as [Hne' ->]. split; [exact Hne'|].
            rewrite filter_snoc. apply String.eqb_neq in Hne.
            rewrite String.eqb_sym, Hne. now rewrite app_nil_r.
        + intros fi Hfi. rewrite Hk. apply in_app_or in Hfi as [Hfi|[<-|[]]]; [auto|].
          eapply own_Some_key; eauto.
        + intros k Hk'. rewrite Hk in Hk'. auto.
        + destruct (set_old _ _ (l ++ [x]) _ Eo) as (o1 & o2 & -> & -> & _).
          rewrite !map_app, !concat_app. cbn [map snd concat].
          rewrite <- ?app_assoc. do 2 apply Permutation_app_head.
          apply Permutation_app_comm.
      - rewrite (set_new _ _ _ Eo). apply own_None in Eo.
        split; [|split; [|split; [|split]]].
        + rewrite map_app. apply NoDup_app. split; [exact Hnd|].
          split; [|apply NoDup_singleton].
          intros k Hk [<-|[]]%list_elem_of_In. now apply Eo, list_elem_of_In.
        + intros k l' Hin. apply in_app_or in Hin as [Hin|[[= <- <-]|[]]].
          * destruct (Hl _ _ Hin) as [Hne' ->]. split; [exact Hne'|].
            rewrite filter_snoc.
            destruct (String.eqb_spec (FileInfo.name x) k) as [<-|_];
              [|now rewrite app_nil_r].
            exfalso. apply Eo. now apply (in_map fst) in Hin.
          * split; [discriminate|]. rewrite filter_snoc, String.eqb_refl.
            rewrite filter_nil_iff; [reflexivity|].
            intros fi Hfi. apply String.eqb_neq. intros E. apply Eo. rewrite <- E. auto.
        + intros fi Hfi. rewrite map_app. apply in_or_app.
          apply in_app_or in Hfi as [Hfi|[<-|[]]]; [left; auto | right; now left].
        + intros k Hk. rewrite map_app in Hk. apply in_app_or in Hk as [Hk|[<-|[]]]; auto.
        + rewrite map_app, concat_app. cbn. reflexivity. }
    destruct Hstep as (S1 & S2 & S3 & S4 & S5).
    destruct (IH _ _ H S1 S2 S3 S4) as (I1 & I2 & I3 & I4 & I5).
    rewrite <- app_assoc in I2, I3. cbn [app] in I2, I3.
    split; [exact I1|]. split; [exact I2|]. split; [exact I3|]. split; [exact I4|].
    rewrite I5, S5, <- app_assoc. reflexivity.
Qed.

(** No group is empty, and the members of the groups are the
    descriptors. *)
Lemma groups_members baseFilesInfo files :
  group_files baseFilesInfo = inr files ->
  (forall key members, In (key, members) (JsObject.entries files) -> members <> [])
  /\ concat (map snd (JsObject.entries files)) ≡ₚ baseFilesInfo.
Proof.
  intros H. unfold group_files in H.
  destruct (group_from_partition _ [] [] _ H) as (_ & I2 & _ & _ & I5).
  - constructor.
  - intros ? ? [].
  - intros ? [].
  - intros ? [].
  - cbn [app] in *. split; [|now rewrite entries_perm].
    intros k l Hin. apply (proj1 (entries_In _ _)) in Hin. now destruct (I2 _ _ Hin).
Qed.

(** X7: the groups of a run split the descriptors by group key: the
    keys are distinct, no group is empty, and the group of a key holds
    exactly the descriptors with that key, in the order of the scan;
    every descriptor is in the group of its key. *)
Theorem groups_partition_descriptors baseFilesInfo files :
  group_files baseFilesInfo = inr files ->
  NoDup (map fst files)
  /\ (forall key members,
         In (key, members) (JsObject.entries files) ->
         members <> []
         /\ members
            = List.filter (fun fi => String.eqb (FileInfo.name fi) key) baseFilesInfo)
  /\ (forall fi, In fi baseFilesInfo -> In (FileInfo.name fi) (JsObject.keys files))
  /\ concat (map snd (JsObject.entries files)) ≡ₚ baseFilesInfo.
Proof.
  intros H. unfold group_files in H.
  destruct (group_from_partition _ [] [] _ H) as (I1 & I2 & I3 & _ & I5).
  - constructor.
  - intros ? ? [].
  - intros ? [].
  - intros ? [].
  - cbn [app] in *. split; [exact I1|]. split; [|split].
    + intros k l Hin. apply I2. now apply entries_In.
    + intros fi Hfi. apply list_elem_of_In. rewrite keys_perm.
      apply list_elem_of_In. auto.
    + now rewrite entries_perm.
Qed.

(** When adding descriptors to groups throws. *)
Lemma group_from_throws infos groups0 :
  (forall k, In k (map fst groups0) -> inherited k = false) ->
  ((exists e, group_from groups0 infos = inl e)
   <-> exists fi, In fi infos /\ inherited (FileInfo.name fi) = true).
Proof.
  revert groups0. induction infos as [|x infos IH]; intros groups0 Hk; cbn [group_from].
  - split; [intros [? ?]; discriminate | intros (? & [] & _)].
  - unfold group_step.
    destruct (get_cases groups0 (FileInfo.name x))
      as [(l & Eg & Eo)|[(Eg & Eo & Ei)|(Eg & Eo & Ei)]]; rewrite Eg.
    + rewrite IH.
      * split; [intros (y & Hy & Hi); exists y; split; [now right | exact Hi]|].
        intros (y & [Hy|Hy] & Hi); [subst y|eauto].
        rewrite (Hk _ (own_Some_key _ _ _ Eo)) in Hi. discriminate.
      * intros k Hin. destruct (set_keys groups0 (FileInfo.name x) (l ++ [x]))
          as [[_ E]|[E _]]; [|congruence]. rewrite E in Hin. auto.
    + rewrite IH.
      * split; [intros (y & Hy & Hi); exists y; split; [now right | exact Hi]|].
        intros (y & [Hy|Hy] & Hi); [subst y; congruence | eauto].
      * intros k Hin. rewrite (set_new _ _ _ Eo), map_app in Hin.
        apply in_app_or in Hin as [Hin|[<-|[]]]; auto.
    + split; [|eauto]. intros _. exists x. split; [now left | exact Ei].
Qed.

(** X8: grouping throws exactly when the group key of some descriptor is
    the name of a property that objects inherit ([constructor],
    [toString], [__proto__], ...): the lookup finds the inherited value,
    which has no [push]. *)
Theorem grouping_throws_on_inherited_key baseFilesInfo :
  (exists e, group_files baseFilesInfo = inl e)
  <-> exists fi, In fi baseFilesInfo /\ inherited (FileInfo.name fi) = true.
Proof.
  unfold group_files. apply group_from_throws. intros k Hk. destruct Hk.
Qed.

End Groups.

(** ** Planning *)

Section Planning.

Context `{C : Collaborators}.

Import JsObject.








Lemma add_listing_keys perTypeAndDate ty date fileInfos perTypeAndDate' :
  add_listing perTypeAndDate ty date fileInfos = inr perTypeAndDate' ->
  NoDup (map fst perTypeAndDate) ->
  NoDup (map fst perTypeAndDate')
  /\ forall k, In k (map fst perTypeAndDate') -> In k (map fst perTypeAndDate) \/ k = ty.
Proof.
  unfold add_listing. intros H Hnd.
  assert (Hset : forall v, NoDup (map fst (set perTypeAndDate ty v))
                           /\ forall k, In k (map fst (set perTypeAndDate ty v)) ->
                                        In k (map fst perTypeAndDate) \/ k = ty).
  { intros v. split; [now apply set_keys_NoDup|]. intros k Hk.
    destruct (set_keys perTypeAndDate ty v) as [[_ E]|[_ E]]; rewrite E in Hk; [auto|].
    apply in_app_or in Hk as [?|[<-|[]]]; auto. }
  destruct (get perTypeAndDate ty) as [perDate| |].
  - destruct (get perDate date) as [l| |]; [|discriminate|]; injection H as <-; apply Hset.
  - injection H as <-. auto.
  - injection H as <-. apply Hset.
Qed.

Lemma process_from_keys groups pl pl' :
  process_from pl groups = inr pl' ->
  NoDup (map fst (filesPerTypeAndDate pl)) ->
  (forall k, In k (map fst (filesPerTypeAndDate pl)) -> In k type_names) ->
  NoDup (map fst (filesPerTypeAndDate pl'))
  /\ (forall k, In k (map fst (filesPerTypeAndDate pl')) -> In k type_names).
Proof.
  revert pl. induction groups as [|[k l] groups IH]; intros pl H Hnd Hk.
  - injection H as <-. auto.
  - cbn [process_from] in H. destruct (process_group pl l) as [e|pl1] eqn:Ep; [discriminate|].
    unfold process_group in Ep. destruct (dateString l) as [e|date]; [discriminate|].
    destruct (add_listing _ _ _ _) as [e|ptd] eqn:Ea; [discriminate|].
    injection Ep as <-. destruct (add_listing_keys _ _ _ _ _ Ea Hnd) as [N1 N2].
    apply (IH _ H); cbn [filesPerTypeAndDate]; [exact N1|].
    intros ty Hty. destruct (N2 _ Hty) as [?| ->]; [auto | apply groupType_range].
Qed.

(** X10: the types of a plan are distinct and are among image, audio,
    video and other: a plan has at most four types, so that at most four
    directories of types are created. *)
Theorem plan_types_bounded files pl :
  process_groups files = inr pl ->
  NoDup (keys (filesPerTypeAndDate pl))
  /\ (forall ty, In ty (keys (filesPerTypeAndDate pl)) -> In ty type_names)
  /\ length (type_dirs (filesPerTypeAndDate pl)) <= 4.
Proof.
  intros H. unfold process_groups in H.
  destruct (process_from_keys _ _ _ H) as [N1 N2]; [constructor | intros ? []|].
  assert (Hnd : NoDup (keys (filesPerTypeAndDate pl))) by now rewrite keys_perm.
  assert (Hin : forall ty, In ty (keys (filesPerTypeAndDate pl)) -> In ty type_names).
  { intros ty Hty. apply N2. apply list_elem_of_In. rewrite <- keys_perm.
    now apply list_elem_of_In. }
  split; [exact Hnd|]. split; [exact Hin|].
  unfold type_dirs. rewrite length_map.
  change 4 with (length type_names). apply NoDup_incl_length.
  - now apply NoDup_ListNoDup.
  - exact Hin.
Qed.

Lemma process_from_rows groups pl pl' :
  process_from pl groups = inr pl' ->
  map File (filesForInformation pl')
  = map File (filesForInformation pl)
      ++ map FileInfo.basename (concat (map snd groups)).
Proof.
  revert pl. induction groups as [|[k l] groups IH]; intros pl H.
  - injection H as <-. now rewrite app_nil_r.
  - cbn [process_from] in H. destruct (process_group pl l) as [e|pl1] eqn:Ep; [discriminate|].
    rewrite (IH _ H). unfold process_group in Ep.
    destruct (dateString l) as [e|date]; [discriminate|].
    destruct (add_listing _ _ _ _) as [e|ptd]; [discriminate|]. injection Ep as <-.
    cbn [filesForInformation map snd concat]. rewrite !map_app, map_map. cbn [info_row File].
    now rewrite <- app_assoc.
Qed.

(** X11: the table has one row for every descriptor of the run: its
    column of file names is a rearrangement of the base names of the
    descriptors (group by group, in the order of the enumeration). *)
Theorem table_lists_every_descriptor schedules w st :
  stages_of (pipeline schedules w) = Some st ->
  map File (filesForInformation (plan st))
  = map FileInfo.basename (concat (map snd (entries (files st))))
  /\ map File (filesForInformation (plan st)) ≡ₚ map FileInfo.basename (baseFilesInfo st)
  /\ length (filesForInformation (plan st)) = length (baseFilesInfo st).
Proof.
  intros Hst. apply pipeline_stages in Hst as (_ & _ & Hg & Hp).
  unfold process_groups in Hp. apply process_from_rows in Hp. cbn in Hp.
  destruct (groups_members _ _ Hg) as [_ Hperm].
  split; [exact Hp|].
  assert (H2 : map File (filesForInformation (plan st))
               ≡ₚ map FileInfo.basename (baseFilesInfo st)).
  { rewrite Hp. now apply Permutation_map. }
  split; [exact H2|]. apply Permutation_length in H2. now rewrite !length_map in H2.
Qed.



End Planning.

(** ** The script of a task *)

Section Scripts.

Context `{C : Collaborators}.

Lemma origin_eqb_eq o1 o2 : origin_eqb o1 o2 = true <-> o1 = o2.
Proof.
  destruct o1 as [|c i], o2 as [|c' i']; cbn; split; try congruence; try discriminate.
  - intros H. apply andb_true_iff in H as [H1 H2].
    apply Nat.eqb_eq in H1, H2. congruence.
  - intros [= -> ->]. now rewrite !Nat.eqb_refl.
Qed.

Lemma origin_eqb_refl o : origin_eqb o o = true.
Proof. now apply origin_eqb_eq. Qed.

Lemma origin_eqb_neq o1 o2 : o1 <> o2 -> origin_eqb o1 o2 = false.
Proof.
  intros H. destruct (origin_eqb o1 o2) eqn:E; [|reflexivity].
  now apply origin_eqb_eq in E.
Qed.

Lemma by_origin_app o a b : by_origin o (a ++ b) = by_origin o a ++ by_origin o b.
Proof. unfold by_origin. now rewrite List.filter_app, map_app. Qed.

Lemma by_origin_cons o o' ev tr :
  by_origin o ((o', ev) :: tr)
  = if origin_eqb o' o then ev :: by_origin o tr else by_origin o tr.
Proof. unfold by_origin. cbn. now destruct (origin_eqb o' o). Qed.

Lemma by_origin_In o ev tr : In ev (by_origin o tr) <-> In (o, ev) tr.
Proof.
  unfold by_origin. rewrite in_map_iff. split.
  - intros ([o' ev'] & <- & H). apply List.filter_In in H as [H E].
    cbn in E. apply origin_eqb_eq in E as ->. exact H.
  - intros H. exists (o, ev). split; [reflexivity|]. apply List.filter_In.
    split; [exact H | apply origin_eqb_refl].
Qed.

Lemma by_origin_nil o tr : (forall ev, ~ In (o, ev) tr) -> by_origin o tr = [].
Proof.
  intros H. destruct (by_origin o tr) as [|ev l] eqn:E; [reflexivity|].
  exfalso. apply (H ev), by_origin_In. rewrite E. now left.
Qed.

Lemma by_origin_tagged o o' (evs : list Event) :
  by_origin o (map (pair o') evs) = if origin_eqb o' o then evs else [].
Proof.
  induction evs as [|ev evs IH]; [now destruct (origin_eqb o' o)|].
  cbn [map]. rewrite by_origin_cons, IH. now destruct (origin_eqb o' o).
Qed.

Lemma by_origin_split o ev pre post :
  by_origin o (pre ++ (o, ev) :: post) = by_origin o pre ++ ev :: by_origin o post.
Proof. now rewrite by_origin_app, by_origin_cons, origin_eqb_refl. Qed.

Lemma moves_app dir a b : moves dir (a ++ b) = moves dir a ++ moves dir b.
Proof. unfold moves. now rewrite flat_map_app. Qed.

Lemma moves_In dir l ev :
  In ev (moves dir l) ->
  ev = EvProgressIncrement \/ exists fileInfo, In fileInfo l /\ ev = rename_to dir fileInfo true.
Proof.
  unfold moves. rewrite in_flat_map. intros (fi & Hfi & [<-|[<-|[]]]); eauto.
Qed.

Lemma opening_In dir found ev :
  In ev (opening dir found) ->
  ev = EvExistsSync dir found \/ (found = false /\ ev = EvMkdir dir true).
Proof. destruct found; cbn; intuition. Qed.

(** The operations of a task that went through hold no refusal. *)
Lemma completed_no_refusal dir found l ev :
  In ev (opening dir found ++ moves dir l) -> refusal ev = false.
Proof.
  intros H. apply in_app_or in H as [H|H].
  - apply opening_In in H as [->|[_ ->]]; reflexivity.
  - apply moves_In in H as [->|(fi & _ & ->)]; reflexivity.
Qed.

(** The operations of the tasks when they have started. *)
Lemma launch_all_by_origin call w k dirs evs tasks :
  launch_all call w k dirs = (evs, tasks) ->
  forall j dir dirFiles,
    dirs !! j = Some (dir, dirFiles) ->
    by_origin (OTask call (k + j)) evs = [fst (launch w dir dirFiles)].
Proof.
  revert k evs tasks. induction dirs as [|[d fs] dirs IH]; intros k evs tasks H j dir dirFiles Hj;
    [discriminate|].
  cbn [launch_all] in H. destruct (launch w d fs) as [ev0 task0] eqn:El.
  destruct (launch_all call w (S k) dirs) as [evs' tasks'] eqn:Ea.
  injection H as <- <-. rewrite by_origin_cons. destruct j as [|j]; cbn in Hj.
  - injection Hj as <- <-. rewrite Nat.add_0_r, origin_eqb_refl, El. cbn [fst]. f_equal.
    apply by_origin_nil. intros ev Hin.
    destruct (launch_all_spec _ _ _ _ _ _ Ea) as (_ & _ & I3).
    destruct (I3 _ _ Hin) as (j & _ & _ & _ & [= E] & _). lia.
  - rewrite origin_eqb_neq by (intros [= E]; lia).
    replace (k + S j) with (S k + j) by lia. eapply IH; eauto.
Qed.

Lemma launched_script call w dirs evs tasks :
  launch_all call w 0 dirs = (evs, tasks) ->
  pool_script call dirs (mkPool w evs tasks None).
Proof.
  intros H. destruct (launch_all_spec _ _ _ _ _ _ H) as (I1 & I2 & _).
  split; [exact I1|]. cbn [pool_tasks pool_trace].
  intros i dir dirFiles task Hd Ht. destruct (I2 _ _ _ Hd) as [Ht' _].
  rewrite Ht in Ht'. injection Ht' as ->.
  pose proof (launch_all_by_origin _ _ _ _ _ _ H _ _ _ Hd) as Hb. cbn [Nat.add] in Hb.
  unfold launch in *. destruct (existsSync w dir); cbn [fst snd task_script] in *.
  - split; [reflexivity|]. exists true, []. split; [reflexivity|]. exact Hb.
  - auto.
Qed.

(** A step of a task keeps every task on its script. *)
Lemma advance_script call dirs p i :
  pool_script call dirs p -> pool_script call dirs (advance call p i).
Proof.
  intros [S1 S2]. unfold advance.
  destruct (pool_tasks p !! i) as [task|] eqn:Et; [|exact (conj S1 S2)].
  assert (Hi : i < length dirs) by (rewrite <- S1; eapply lookup_lt_Some; eauto).
  assert (Hi' : i < length (pool_tasks p)) by now rewrite S1.
  destruct (lookup_lt_is_Some_2 dirs i Hi) as [[dir dirFiles] Ed].
  pose proof (S2 _ _ _ _ Ed Et) as Htask.
  destruct (step (pool_world p) task) as [[evs w'] task'] eqn:Es.
  split; cbn [pool_tasks pool_trace]; [now rewrite length_insert|].
  intros j d fs t Hd Ht. destruct (decide (i = j)) as [<-|Hne].
  - rewrite list_lookup_insert_eq in Ht by exact Hi'. injection Ht as <-.
    rewrite Ed in Hd. injection Hd as <- <-.
    assert (Hb : by_origin (OTask call i) (pool_trace p ++ map (pair (OTask call i)) evs)
                 = by_origin (OTask call i) (pool_trace p) ++ evs).
    { now rewrite by_origin_app, by_origin_tagged, origin_eqb_refl. }
    destruct (step_cases _ _ _ _ _ Es)
      as [(-> & -> & _)|[(d0 & fs0 & -> & -> & ->)|[(d0 & fs0 & e & -> & -> & ->)
         |[(d0 & fi & rest & -> & -> & ->)|(d0 & fi & rest & e & -> & -> & ->)]]]];
      cbn [task_script] in *; rewrite ?Hb.
    + cbn [map]. now rewrite app_nil_r.
    + destruct Htask as (-> & -> & E). split; [reflexivity|].
      exists false, []. split; [reflexivity|]. rewrite E. reflexivity.
    + destruct Htask as (-> & -> & E). left. rewrite E. reflexivity.
    + destruct Htask as (-> & found & moved & -> & E). split; [reflexivity|].
      exists found, (moved ++ [fi]). split; [now rewrite <- app_assoc|].
      rewrite E, moves_app, <- app_assoc. reflexivity.
    + destruct Htask as (-> & found & moved & -> & E). right.
      exists found, moved, fi, rest. split; [reflexivity|].
      rewrite E, <- app_assoc. reflexivity.
  - rewrite list_lookup_insert_ne in Ht by exact Hne.
    pose proof (S2 _ _ _ _ Hd Ht) as Hj.
    assert (Hb : by_origin (OTask call j) (pool_trace p ++ map (pair (OTask call i)) evs)
                 = by_origin (OTask call j) (pool_trace p)).
    { rewrite by_origin_app, by_origin_tagged, origin_eqb_neq by congruence.
      apply app_nil_r. }
    destruct t; cbn [task_script] in *; now rewrite Hb.
Qed.

Lemma await_all_script call schedule w dirs :
  pool_script call dirs (await_all call schedule w dirs).
Proof.
  unfold await_all. destruct (launch_all call w 0 dirs) as [evs tasks] eqn:E.
  generalize (schedule ++ completion 0 tasks). intros order.
  assert (H : pool_script call dirs (mkPool w evs tasks None)) by now apply launched_script.
  revert H. generalize (mkPool w evs tasks None). induction order as [|i order IH]; intros p H;
    [exact H|].
  cbn [fold_left]. apply IH. now apply advance_script.
Qed.

(** Whatever the interleaving, when [Promise.all] settles every task has
    done what its script says; the tasks of a call that was not rejected
    went through, and a task that stopped has rejected the call. *)
Lemma await_all_story call schedule w dirs i dir dirFiles :
  dirs !! i = Some (dir, dirFiles) ->
  let p := await_all call schedule w dirs in
  Story dir dirFiles (by_origin (OTask call i) (pool_trace p))
  /\ (pool_rejection p = None ->
      exists found, by_origin (OTask call i) (pool_trace p) = opening dir found ++ moves dir dirFiles).
Proof.
  intros Hd p. destruct (await_all_script call schedule w dirs) as [S1 S2]. fold p in S1, S2.
  destruct (await_all_ok call schedule w dirs) as (_ & _ & _ & _ & P5 & _). fold p in P5.
  assert (Hi : i < length (pool_tasks p)) by (rewrite S1; eapply lookup_lt_Some; eauto).
  destruct (lookup_lt_is_Some_2 _ _ Hi) as [task Ht].
  pose proof (S2 _ _ _ _ Hd Ht) as Hs.
  destruct (await_all_finished _ _ _ _ _ _ Ht) as [[d ->]|[e ->]]; cbn [task_script] in Hs.
  - destruct Hs as (-> & found & moved & -> & E). rewrite app_nil_r in *. rewrite E.
    split; [constructor | eauto].
  - split; [|intros Hr; exfalso; now apply (P5 Hr i e)].
    destruct Hs as [E|(found & moved & fi & rest & Hf & E)]; rewrite E.
    + constructor.
    + now apply (RenameRefused dir dirFiles found moved fi rest).
Qed.

(** An operation that was refused rejects the call. *)
Lemma await_all_refusal call schedule w dirs o ev :
  In (o, ev) (pool_trace (await_all call schedule w dirs)) ->
  refusal ev = true ->
  pool_rejection (await_all call schedule w dirs) <> None.
Proof.
  intros Hin Hev Hr.
  destruct (await_all_ok call schedule w dirs) as (_ & _ & _ & _ & _ & P6).
  destruct (P6 _ _ Hin) as (i & -> & Hi).
  destruct (lookup_lt_is_Some_2 dirs i Hi) as [[dir dirFiles] Hd].
  destruct (await_all_story call schedule w dirs i dir dirFiles Hd) as [_ Hc].
  destruct (Hc Hr) as [found E]. apply by_origin_In in Hin. rewrite E in Hin.
  apply completed_no_refusal in Hin. congruence.
Qed.

(** Where a [mkdir] stands in the story of its task. *)
Lemma story_mkdir dir dirFiles a d ok b :
  Story dir dirFiles (a ++ EvMkdir d ok :: b) ->
  d = dir /\ a = [EvExistsSync d false] /\ (ok = false -> b = []).
Proof.
  assert (Hm : forall l a' b', moves dir l = a' ++ EvMkdir d ok :: b' -> False).
  { intros l a' b' E.
    assert (Hin : In (EvMkdir d ok) (moves dir l)) by (rewrite E; apply in_elt).
    apply moves_In in Hin as [?|(? & _ & ?)]; discriminate. }
  assert (Hr : forall l fi a' b',
             moves dir l ++ [rename_to dir fi false] = a' ++ EvMkdir d ok :: b' -> False).
  { intros l fi a' b' E.
    assert (Hin : In (EvMkdir d ok) (moves dir l ++ [rename_to dir fi false]))
      by (rewrite E; apply in_elt).
    apply in_app_or in Hin as [Hin|[?|[]]]; [|discriminate].
    apply moves_In in Hin as [?|(? & _ & ?)]; discriminate. }
  intros H. remember (a ++ EvMkdir d ok :: b) as evs eqn:E.
  destruct H as [found| |found moved fi rest Hf].
  - destruct found; cbn [opening app] in E.
    + destruct a as [|x a]; [discriminate|]. injection E as _ E. now apply Hm in E.
    + destruct a as [|x [|y a]]; [discriminate| |].
      * injection E as <- <- <- _. repeat split. discriminate.
      * injection E as _ _ E. now apply Hm in E.
  - destruct a as [|x [|y a]]; [discriminate| |].
    + injection E as <- <- <- <-. auto.
    + injection E as _ _ E. destruct a; discriminate.
  - destruct found; cbn [opening app] in E.
    + destruct a as [|x a]; [discriminate|]. injection E as _ E. now apply Hr in E.
    + destruct a as [|x [|y a]]; [discriminate| |].
      * injection E as <- <- <- _. repeat split. discriminate.
      * injection E as _ _ E. now apply Hr in E.
Qed.

(** ** The tasks of a run *)

Lemma pipeline_origins schedules w o ev :
  In (o, ev) (fst (pipeline schedules w)) -> o = OMain \/ exists i, o = OTask 0 i.
Proof.
  assert (Hm : forall evs, In (o, ev) (on_main evs) -> o = OMain).
  { intros evs H. unfold on_main in H. apply in_map_iff in H as (? & [= <- _] & _).
    reflexivity. }
  unfold pipeline. destruct (scan w) as [evs [e|paths]]; cbn [fst]; [eauto|].
  assert (Hp : In (o, ev) (fst (promise_all 0 (schedules 0) (map (getFileInfo true w) paths)))
               -> exists i, o = OTask 0 i).
  { intros H. apply promise_all_trace in H as (i & _ & _ & -> & _). eauto. }
  destruct (promise_all 0 (schedules 0) (map (getFileInfo true w) paths))
    as [tr1 [e|infos]]; cbn [fst] in *.
  { intros H. apply in_app_or in H as [H|H]; eauto. }
  assert (H2 : In (o, ev) (on_main (evs ++ [EvLog "Extracting file information...";
                                            EvProgressStart (length paths)])
                           ++ tr1 ++ [(OMain, EvProgressStop)])
               -> o = OMain \/ exists i, o = OTask 0 i).
  { intros H. apply in_app_or in H as [H|H]; [eauto|].
    apply in_app_or in H as [H|[[= <- _]|[]]]; eauto. }
  destruct (group_files infos); [exact H2|].
  destruct (process_groups t); exact H2.
Qed.

(** Every operation of the types' loop is done by a task of one of its
    calls, for a directory of the type of that call. *)
Lemma move_types_origins schedules types call w tr w' r o ev :
  move_types schedules call w types = (tr, w', r) ->
  In (o, ev) tr ->
  exists k i ty perDate,
    o = OTask (call + k) i /\ types !! k = Some (ty, perDate)
    /\ i < length (date_dirs ty perDate).
Proof.
  revert call w tr w' r.
  induction types as [|[ty perDate] types IH]; intros call w tr w' r H Hin.
  - injection H as <- _ _. destruct Hin.
  - cbn [move_types] in H.
    set (p := await_all call (schedules call) w (date_dirs ty perDate)) in *.
    destruct (await_all_ok call (schedules call) w (date_dirs ty perDate))
      as (_ & _ & _ & _ & _ & P6). fold p in P6.
    assert (Hp : In (o, ev) (pool_trace p) ->
                 exists k i ty0 perDate0,
                   o = OTask (call + k) i
                   /\ ((ty, perDate) :: types) !! k = Some (ty0, perDate0)
                   /\ i < length (date_dirs ty0 perDate0)).
    { intros Hi. destruct (P6 _ _ Hi) as (i & -> & Hlt).
      exists 0, i, ty, perDate. rewrite Nat.add_0_r. auto. }
    destruct (pool_rejection p) as [e|].
    + injection H as <- _ _. auto.
    + destruct (move_types schedules (S call) (pool_world p) types) as [[tr2 w2] r2] eqn:Em.
      injection H as <- _ _. apply in_app_or in Hin as [Hin|Hin]; [auto|].
      destruct (IH _ _ _ _ _ Em Hin) as (k & i & ty0 & pd0 & -> & Hk & Hlt).
      exists (S k), i, ty0, pd0. replace (call + S k) with (S call + k) by lia. auto.
Qed.

(** The story of a task of the types' loop. *)
Lemma move_types_story schedules types call w tr w' r k ty perDate i dir dirFiles :
  move_types schedules call w types = (tr, w', r) ->
  types !! k = Some (ty, perDate) ->
  date_dirs ty perDate !! i = Some (dir, dirFiles) ->
  (by_origin (OTask (call + k) i) tr = [] \/ Story dir dirFiles (by_origin (OTask (call + k) i) tr))
  /\ (r = None ->
      exists found, by_origin (OTask (call + k) i) tr = opening dir found ++ moves dir dirFiles).
Proof.
  revert call w tr w' r k.
  induction types as [|[ty0 perDate0] types IH]; intros call w tr w' r k H Hk Hd;
    [discriminate|].
  cbn [move_types] in H.
  set (p := await_all call (schedules call) w (date_dirs ty0 perDate0)) in *.
  destruct (await_all_ok call (schedules call) w (date_dirs ty0 perDate0))
    as (_ & _ & _ & _ & _ & P6). fold p in P6.
  destruct k as [|k]; cbn in Hk.
  - injection Hk as -> ->. rewrite Nat.add_0_r.
    destruct (await_all_story call (schedules call) w _ _ _ _ Hd) as [Hs Hc].
    fold p in Hs, Hc.
    destruct (pool_rejection p) as [e|] eqn:Er.
    + injection H as <- _ <-. split; [now right | discriminate].
    + destruct (move_types schedules (S call) (pool_world p) types) as [[tr2 w2] r2] eqn:Em.
      injection H as <- _ <-.
      assert (E2 : by_origin (OTask call i) tr2 = []).
      { apply by_origin_nil. intros ev Hin.
        destruct (move_types_origins _ _ _ _ _ _ _ _ _ Em Hin) as (k & j & _ & _ & [= E _] & _).
        lia. }
      rewrite by_origin_app, E2, app_nil_r. split; [now right|]. intros _. now apply Hc.
  - assert (E1 : by_origin (OTask (call + S k) i) (pool_trace p) = []).
    { apply by_origin_nil. intros ev Hin. destruct (P6 _ _ Hin) as (j & [= E _] & _). lia. }
    destruct (pool_rejection p) as [e|] eqn:Er.
    + injection H as <- _ <-. rewrite E1. split; [now left | discriminate].
    + destruct (move_types schedules (S call) (pool_world p) types) as [[tr2 w2] r2] eqn:Em.
      injection H as <- _ <-. rewrite by_origin_app, E1. cbn [app].
      replace (call + S k) with (S call + k) by lia. eapply IH; eauto.
Qed.

(** An operation refused in the types' loop: the loop is rejected, and
    what follows in the trace is done by the tasks of the same call. *)
Lemma move_types_refusal schedules types call w tr w' r pre c i ev post :
  move_types schedules call w types = (tr, w', r) ->
  tr = pre ++ (OTask c i, ev) :: post ->
  refusal ev = true ->
  r <> None /\ forall o ev', In (o, ev') post -> exists j, o = OTask c j.
Proof.
  revert call w tr w' r pre.
  induction types as [|[ty perDate] types IH]; intros call w tr w' r pre H E Hev.
  - injection H as <- _ _. destruct pre; discriminate.
  - cbn [move_types] in H.
    set (p := await_all call (schedules call) w (date_dirs ty perDate)) in *.
    destruct (await_all_ok call (schedules call) w (date_dirs ty perDate))
      as (_ & _ & _ & _ & _ & P6). fold p in P6.
    assert (Hc : forall pre1 post1,
               pool_trace p = pre1 ++ (OTask c i, ev) :: post1 -> c = call).
    { intros pre1 post1 E1.
      destruct (P6 (OTask c i) ev) as (j & [= -> _] & _);
        [rewrite E1; apply in_elt | reflexivity]. }
    destruct (pool_rejection p) as [e|] eqn:Er.
    + injection H as <- _ <-. split; [discriminate|].
      pose proof (Hc _ _ E) as ->. intros o ev' Hin.
      destruct (P6 o ev') as (j & -> & _); [rewrite E; apply in_or_app; right; now right|].
      eauto.
    + destruct (move_types schedules (S call) (pool_world p) types) as [[tr2 w2] r2] eqn:Em.
      injection H as <- _ <-.
      apply app_split_cons in E as [(post1 & E1 & _)|(pre2 & -> & E2)].
      * exfalso. apply (await_all_refusal call (schedules call) w (date_dirs ty perDate)
                          (OTask c i) ev); [|exact Hev|exact Er].
        fold p. rewrite E1. apply in_elt.
      * now apply (IH _ _ _ _ _ _ Em E2).
Qed.

(** The parts of the trace of a run in move mode: the pipeline, the
    table and the opening message, the creation of the directories of
    the types, and the loop over the types. *)
Lemma main_move_unfolded schedules w st :
  stages_of (pipeline schedules w) = Some st ->
  let run := main schedules (Some "move") w in
  let p1 := await_all 1 (schedules 1) w (type_dirs (filesPerTypeAndDate (plan st))) in
  let front := fst (pipeline schedules w)
                 ++ [(OMain, EvTable (filesForInformation (plan st)));
                     (OMain, EvLog "Moving files...")] in
  (pool_rejection p1 <> None
   /\ trace run = front ++ pool_trace p1
   /\ exists e, outcome run = Rejected e)
  \/ (pool_rejection p1 = None
      /\ exists tr2 w2 r tail,
          move_types schedules 2 (pool_world p1)
            (JsObject.entries (filesPerTypeAndDate (plan st))) = (tr2, w2, r)
          /\ trace run
             = front ++ pool_trace p1
                 ++ (OMain, EvProgressStart (length (filesForInformation (plan st))))
                 :: tr2 ++ tail
          /\ ((r = None /\ outcome run = Returned 0
               /\ tail = [(OMain, EvProgressStop);
                          (OMain, EvLog "Files organized successfully!")])
              \/ (tail = [] /\ exists e, r = Some e /\ outcome run = Rejected e))).
Proof.
  intros Hst run p1 front. unfold front, run, main.
  unfold stages_of in Hst. destruct (pipeline schedules w) as [trp [e|st']]; [discriminate|].
  cbn [snd fst] in *. injection Hst as ->. cbn [JsString.includes existsb negb].
  change (String.eqb "move" "move" || false) with true. cbn [negb].
  unfold move_files. fold p1.
  destruct (pool_rejection p1) as [e|] eqn:Er.
  - left. cbn [trace outcome]. split; [discriminate|]. split; [|eauto].
    now rewrite <- !app_assoc.
  - right. split; [reflexivity|].
    destruct (move_types schedules 2 (pool_world p1) _) as [[tr2 w2] r] eqn:Em.
    destruct r as [e|]; cbn [trace outcome].
    + exists tr2, w2, (Some e), []. split; [reflexivity|].
      split; [now rewrite <- !app_assoc, app_nil_r|]. right. eauto.
    + exists tr2, w2, None,
        [(OMain, EvProgressStop); (OMain, EvLog "Files organized successfully!")].
      split; [reflexivity|]. split; [now rewrite <- !app_assoc|]. left. auto.
Qed.

Lemma main_move_parts schedules w st :
  stages_of (pipeline schedules w) = Some st ->
  let run := main schedules (Some "move") w in
  let p1 := await_all 1 (schedules 1) w (type_dirs (filesPerTypeAndDate (plan st))) in
  exists front,
    (forall o ev, In (o, ev) front ->
                  mutates ev = false /\ (o = OMain \/ exists i, o = OTask 0 i))
    /\ ((pool_rejection p1 <> None
         /\ trace run = front ++ pool_trace p1
         /\ exists e, outcome run = Rejected e)
        \/ (pool_rejection p1 = None
            /\ exists tr2 w2 r tail,
                move_types schedules 2 (pool_world p1)
                  (JsObject.entries (filesPerTypeAndDate (plan st))) = (tr2, w2, r)
                /\ trace run
                   = front ++ pool_trace p1
                       ++ (OMain, EvProgressStart (length (filesForInformation (plan st))))
                       :: tr2 ++ tail
                /\ (forall o ev, In (o, ev) tail -> mutates ev = false /\ o = OMain)
                /\ ((r = None /\ outcome run = Returned 0
                     /\ tail = [(OMain, EvProgressStop);
                                (OMain, EvLog "Files organized successfully!")])
                    \/ (tail = [] /\ exists e, r = Some e /\ outcome run = Rejected e)))).
Proof.
  intros Hst run p1.
  exists (fst (pipeline schedules w)
            ++ [(OMain, EvTable (filesForInformation (plan st)));
                (OMain, EvLog "Moving files...")]).
  split.
  { pose proof (pipeline_reads schedules w) as Hr.
    pose proof (pipeline_origins schedules w) as Ho.
    intros o ev Hin. apply in_app_or in Hin as [Hin|[[= <- <-]|[[= <- <-]|[]]]]; auto.
    split; [|eauto]. rewrite Forall_forall in Hr.
    apply (Hr (o, ev)). now apply list_elem_of_In. }
  destruct (main_move_unfolded _ _ _ Hst) as [H|(Hr & tr2 & w2 & r & tail & Hm & E & Hout)];
    [now left|].
  right. split; [exact Hr|]. exists tr2, w2, r, tail. split; [exact Hm|]. split; [exact E|].
  split; [|exact Hout].
  destruct Hout as [(_ & _ & ->)|(-> & _)]; [|intros ? ? []].
  intros o ev [[= <- <-]|[[= <- <-]|[]]]; auto.
Qed.

Lemma front_by_origin (front : list Entry) c i :
  (forall o ev, In (o, ev) front ->
                mutates ev = false /\ (o = OMain \/ exists i, o = OTask 0 i)) ->
  by_origin (OTask (S c) i) front = [].
Proof.
  intros H. apply by_origin_nil. intros ev Hin.
  destruct (H _ _ Hin) as [_ [?|[? ?]]]; discriminate.
Qed.

Lemma tail_by_origin (tail : list Entry) c i :
  (forall o ev, In (o, ev) tail -> mutates ev = false /\ o = OMain) ->
  by_origin (OTask c i) tail = [].
Proof.
  intros H. apply by_origin_nil. intros ev Hin.
  destruct (H _ _ Hin) as [_ ?]; discriminate.
Qed.

(** The story of a task of a run in move mode. *)
Lemma main_story schedules w st call i dir dirFiles :
  stages_of (pipeline schedules w) = Some st ->
  task_dirs (plan st) call !! i = Some (dir, dirFiles) ->
  let run := main schedules (Some "move") w in
  (by_origin (OTask call i) (trace run) = []
   \/ Story dir dirFiles (by_origin (OTask call i) (trace run)))
  /\ (outcome run = Returned 0 ->
      exists found,
        by_origin (OTask call i) (trace run) = opening dir found ++ moves dir dirFiles).
Proof.
  intros Hst Hd run.
  destruct (main_move_parts _ _ _ Hst) as (front & Hfront & Hparts). fold run in Hparts.
  set (p1 := await_all 1 (schedules 1) w (type_dirs (filesPerTypeAndDate (plan st)))) in *.
  destruct (await_all_ok 1 (schedules 1) w (type_dirs (filesPerTypeAndDate (plan st))))
    as (_ & _ & _ & _ & _ & P6). fold p1 in P6.
  destruct call as [|[|k]]; [discriminate| |]; cbn [task_dirs] in Hd.
  - (* the directories of the types *)
    destruct (await_all_story 1 (schedules 1) w _ _ _ _ Hd) as [Hs Hc]. fold p1 in Hs, Hc.
    destruct Hparts as [(Hrej & -> & e & He)|(Hrej & tr2 & w2 & r & tail & Hm & -> & Htail & Hout)].
    + rewrite by_origin_app, (front_by_origin front) by exact Hfront. cbn [app].
      split; [now right | congruence].
    + assert (E2 : by_origin (OTask 1 i) tr2 = []).
      { apply by_origin_nil. intros ev Hin.
        destruct (move_types_origins _ _ _ _ _ _ _ _ _ Hm Hin) as (k & j & _ & _ & Ho & _).
        cbn in Ho. discriminate. }
      rewrite !by_origin_app, by_origin_cons, by_origin_app, E2.
      rewrite (front_by_origin front) by exact Hfront.
      rewrite (tail_by_origin tail) by exact Htail. cbn [origin_eqb app]. rewrite app_nil_r.
      split; [now right|]. intros _. now apply Hc.
  - (* the dates of a type *)
    destruct (JsObject.entries (filesPerTypeAndDate (plan st)) !! k) as [[ty perDate]|] eqn:Ek;
      [|discriminate].
    assert (E1 : by_origin (OTask (S (S k)) i) (pool_trace p1) = []).
    { apply by_origin_nil. intros ev Hin. destruct (P6 _ _ Hin) as (j & [= E _] & _). }
    destruct Hparts as [(Hrej & -> & e & He)|(Hrej & tr2 & w2 & r & tail & Hm & -> & Htail & Hout)].
    + rewrite by_origin_app, (front_by_origin front), E1 by exact Hfront.
      split; [now left | congruence].
    + destruct (move_types_story _ _ _ _ _ _ _ _ _ _ _ _ _ Hm Ek Hd) as [Hs Hc].
      cbn [Nat.add] in Hs, Hc.
      rewrite !by_origin_app, by_origin_cons, by_origin_app, E1.
      rewrite (front_by_origin front) by exact Hfront.
      rewrite (tail_by_origin tail) by exact Htail. cbn [origin_eqb app]. rewrite app_nil_r.
      split; [exact Hs|]. intros Hret. apply Hc.
      destruct Hout as [[-> _]|(_ & e & _ & He)]; [reflexivity | congruence].
Qed.

Lemma includes_move_inv command :
  JsString.includes ["move"] command = true -> command = Some "move".
Proof.
  destruct command as [c|]; [|discriminate]. cbn.
  destruct (String.eqb_spec c "move"); [congruence | discriminate].
Qed.

(** An operation that changes the filesystem is done in move mode, after
    the pipeline went through, by a task of the moving stage. *)
Lemma mutation_origin schedules command w o ev :
  In (o, ev) (trace (main schedules command w)) ->
  mutates ev = true ->
  command = Some "move"
  /\ exists st call i dir dirFiles,
      stages_of (pipeline schedules w) = Some st
      /\ o = OTask call i
      /\ task_dirs (plan st) call !! i = Some (dir, dirFiles).
Proof.
  intros Hin Hev.
  destruct (JsString.includes ["move"] command) eqn:Ec.
  2:{ exfalso. pose proof (preview_reads schedules command w Ec) as Hr.
      rewrite Forall_forall in Hr. apply list_elem_of_In, Hr in Hin. cbn in Hin. congruence. }
  apply includes_move_inv in Ec as ->. split; [reflexivity|].
  destruct (stages_of (pipeline schedules w)) as [st|] eqn:Hst.
  2:{ exfalso. unfold main, stages_of in *. pose proof (pipeline_reads schedules w) as Hr.
      destruct (pipeline schedules w) as [trp [e|st]]; [|discriminate]. cbn [trace fst] in *.
      rewrite Forall_forall in Hr. apply list_elem_of_In, Hr in Hin. cbn in Hin. congruence. }
  exists st.
  destruct (main_move_parts _ _ _ Hst) as (front & Hfront & Hparts).
  set (p1 := await_all 1 (schedules 1) w (type_dirs (filesPerTypeAndDate (plan st)))) in *.
  destruct (await_all_ok 1 (schedules 1) w (type_dirs (filesPerTypeAndDate (plan st))))
    as (_ & _ & _ & _ & _ & P6). fold p1 in P6.
  assert (H1 : In (o, ev) (pool_trace p1) ->
               exists call i dir dirFiles,
                 Some st = Some st /\ o = OTask call i
                 /\ task_dirs (plan st) call !! i = Some (dir, dirFiles)).
  { intros Hp. destruct (P6 _ _ Hp) as (i & -> & Hi).
    destruct (lookup_lt_is_Some_2 _ _ Hi) as [[dir dirFiles] Hd].
    exists 1, i, dir, dirFiles. auto. }
  assert (H0 : ~ In (o, ev) front).
  { intros Hf. destruct (Hfront _ _ Hf) as [? _]. congruence. }
  destruct Hparts as [(Hrej & E & _)|(Hrej & tr2 & w2 & r & tail & Hm & E & Htail & _)];
    rewrite E in Hin.
  - apply in_app_or in Hin as [Hin|Hin]; [contradiction | auto].
  - apply in_app_or in Hin as [Hin|Hin]; [contradiction|].
    apply in_app_or in Hin as [Hin|[Hin|Hin]]; [auto| |].
    + injection Hin as <- <-. discriminate.
    + apply in_app_or in Hin as [Hin|Hin].
      * destruct (move_types_origins _ _ _ _ _ _ _ _ _ Hm Hin) as (k & i & ty & pd & -> & Hk & Hi).
        destruct (lookup_lt_is_Some_2 _ _ Hi) as [[dir dirFiles] Hd].
        exists (2 + k), i, dir, dirFiles. split; [reflexivity|]. split; [reflexivity|].
        cbn [Nat.add task_dirs]. now rewrite Hk.
      * destruct (Htail _ _ Hin) as [? _]. congruence.
Qed.

(** X13: a directory is created only by a task that has just found it
    missing: in every run, an attempt to create a directory is the
    second operation of its task, the first being the test that did not
    find that directory. *)
Theorem mkdir_follows_missing_test schedules command w pre o d ok post :
  trace (main schedules command w) = pre ++ (o, EvMkdir d ok) :: post ->
  by_origin o pre = [EvExistsSync d false]
  /\ In (o, EvExistsSync d false) pre.
Proof.
  intros E.
  assert (Hin : In (o, EvMkdir d ok) (trace (main schedules command w)))
    by (rewrite E; apply in_elt).
  destruct (mutation_origin _ _ _ _ _ Hin eq_refl)
    as (-> & st & call & i & dir & dirFiles & Hst & -> & Hd).
  destruct (main_story _ _ _ _ _ _ _ Hst Hd) as [Hs _].
  rewrite E, by_origin_split in Hs.
  destruct Hs as [Hs|Hs]; [destruct (by_origin _ pre); discriminate|].
  apply story_mkdir in Hs as (_ & Ha & _).
  split; [exact Ha|]. apply by_origin_In. rewrite Ha. now left.
Qed.

(** X14: a [mkdir] that is refused rejects the run; the task that
    attempted it does nothing more, and what is still done is done by the
    other tasks of the same [Promise.all]. *)
Theorem refused_mkdir_ends_task schedules command w pre call i d post :
  trace (main schedules command w) = pre ++ (OTask call i, EvMkdir d false) :: post ->
  (exists e, outcome (main schedules command w) = Rejected e)
  /\ forall o ev, In (o, ev) post -> exists j, o = OTask call j /\ j <> i.
Proof.
  intros E.
  assert (Hin : In (OTask call i, EvMkdir d false) (trace (main schedules command w)))
    by (rewrite E; apply in_elt).
  destruct (mutation_origin _ _ _ _ _ Hin eq_refl)
    as (-> & st & call' & i' & dir & dirFiles & Hst & [= <- <-] & Hd).
  destruct (main_story _ _ _ _ _ _ _ Hst Hd) as [Hs Hc].
  rewrite E, by_origin_split in Hs, Hc.
  assert (Hown : forall ev, ~ In (OTask call i, ev) post).
  { intros ev Hev. destruct Hs as [Hs|Hs]; [destruct (by_origin _ pre); discriminate|].
    apply story_mkdir in Hs as (_ & _ & Hb). apply by_origin_In in Hev.
    rewrite (Hb eq_refl) in Hev. destruct Hev. }
  assert (Hrej : outcome (main schedules (Some "move") w) <> Returned 0).
  { intros Hret. destruct (Hc Hret) as [found Ef].
    assert (Hr : refusal (EvMkdir d false) = false).
    { apply (completed_no_refusal dir found dirFiles). rewrite <- Ef. apply in_elt. }
    discriminate. }
  destruct (main_move_parts _ _ _ Hst) as (front & Hfront & Hparts).
  set (p1 := await_all 1 (schedules 1) w (type_dirs (filesPerTypeAndDate (plan st)))) in *.
  destruct (await_all_ok 1 (schedules 1) w (type_dirs (filesPerTypeAndDate (plan st))))
    as (_ & _ & _ & _ & _ & P6). fold p1 in P6.
  assert (H0 : ~ In (OTask call i, EvMkdir d false) front).
  { intros Hf. destruct (Hfront _ _ Hf) as [? _]. discriminate. }
  assert (Hsame : forall o ev, In (o, ev) post -> exists j, o = OTask call j).
  { destruct Hparts as [(Hr1 & E1 & _)|(Hr1 & tr2 & w2 & r & tail & Hm & E1 & Htail & Hout)];
      rewrite E1 in E.
    - apply rename_after in E as (pre2 & -> & E); [|exact H0].
      destruct (P6 (OTask call i) (EvMkdir d false)) as (j0 & [= -> _] & _);
        [rewrite E; apply in_elt|].
      intros o ev Hpost. destruct (P6 o ev) as (j & -> & _); [|eauto].
      rewrite E. apply in_or_app. right. now right.
    - apply rename_after in E as (pre2 & -> & E); [|exact H0].
      apply app_split_cons in E as [(post1 & E2 & _)|(pre3 & -> & E)].
      + exfalso. apply (await_all_refusal 1 (schedules 1) w
                          (type_dirs (filesPerTypeAndDate (plan st)))
                          (OTask call i) (EvMkdir d false)); [|reflexivity|exact Hr1].
        fold p1. rewrite E2. apply in_elt.
      + destruct pre3 as [|x pre3]; [discriminate|]. injection E as _ E.
        apply app_split_cons in E as [(post2 & E2 & ->)|(pre4 & -> & E)].
        * destruct (move_types_refusal _ _ _ _ _ _ _ _ _ _ _ _ Hm E2 eq_refl) as [Hr Hpost].
          destruct Hout as [[-> _]|(-> & _)]; [congruence|].
          intros o ev Hp. rewrite app_nil_r in Hp. eauto.
        * exfalso. destruct (Htail (OTask call i) (EvMkdir d false)) as [? _]; [|discriminate].
          rewrite E. apply in_elt. }
  split.
  - destruct Hparts as [(_ & _ & He)|(_ & tr2 & w2 & r & tail & _ & _ & _ & Hout)];
      [exact He|].
    destruct Hout as [(_ & Hret & _)|(_ & e & _ & He)]; [contradiction | eauto].
  - intros o ev Hp. destruct (Hsame _ _ Hp) as [j ->]. exists j. split; [reflexivity|].
    intros ->. now apply (Hown ev).
Qed.


End Scripts.

(** ** Every file is moved once *)

Section OnceFacts.

Context `{C : Collaborators}.

Lemma sources_app a b : sources (a ++ b) = sources a ++ sources b.
Proof. unfold sources. apply omap_app. Qed.

Lemma renamed_app a b : renamed (a ++ b) = renamed a ++ renamed b.
Proof. unfold renamed. now rewrite map_app, sources_app. Qed.

Lemma renamed_tagged (o : Origin) evs : renamed (map (pair o) evs) = sources evs.
Proof. unfold renamed. rewrite map_map. cbn. now rewrite map_id. Qed.

Lemma renamed_reads (tr : list Entry) :
  (forall o ev, In (o, ev) tr -> mutates ev = false) -> renamed tr = [].
Proof.
  induction tr as [|[o ev] tr IH]; intros H; [reflexivity|].
  unfold renamed in *. cbn [map snd sources omap].
  assert (Hev : mutates ev = false) by (apply (H o); now left).
  destruct ev; try discriminate; cbn; apply IH; intros o' ev' Hin; apply (H o'); now right.
Qed.

Lemma flat_map_middle {X Y} (f : X -> list Y) (l : list X) i x :
  l !! i = Some x ->
  forall x', flat_map f (<[i := x']> l)
             = flat_map f (take i l) ++ f x' ++ flat_map f (drop (S i) l).
Proof.
  intros Hi x'. rewrite insert_take_drop by (eapply lookup_lt_Some; eauto).
  now rewrite flat_map_app.
Qed.

Lemma flat_map_at {X Y} (f : X -> list Y) (l : list X) i x :
  l !! i = Some x ->
  flat_map f l = flat_map f (take i l) ++ f x ++ flat_map f (drop (S i) l).
Proof.
  intros Hi. rewrite <- (take_drop_middle l i x Hi) at 1. now rewrite flat_map_app.
Qed.

(** What a step does to the files of its task. *)
Lemma step_once w task evs w' task' :
  step w task = (evs, w', task') ->
  sources evs ++ pending task' ⊆+ pending task
  /\ ((forall e, task' <> Failed e) -> sources evs ++ pending task' ≡ₚ pending task).
Proof.
  intros Hs.
  destruct (step_cases _ _ _ _ _ Hs)
    as [(-> & -> & _)|[(d & fs & -> & -> & ->)|[(d & fs & e & -> & -> & ->)
       |[(d & fi & rest & -> & -> & ->)|(d & fi & rest & e & -> & -> & ->)]]]];
    cbn [sources omap pending app map rename_to].
  - split; reflexivity.
  - split; reflexivity.
  - split; [apply submseteq_nil_l|]. intros H. now destruct (H e).
  - split; reflexivity.
  - split; [|intros H; now destruct (H e)].
    apply submseteq_skip, submseteq_nil_l.
Qed.

Lemma shuffle_sub (X new PA pt pt' PB : list string) :
  new ++ pt' ⊆+ pt -> (X ++ new) ++ PA ++ pt' ++ PB ⊆+ X ++ PA ++ pt ++ PB.
Proof.
  intros H.
  assert (E : (X ++ new) ++ PA ++ pt' ++ PB ≡ₚ X ++ PA ++ (new ++ pt') ++ PB).
  { rewrite <- !app_assoc. apply Permutation_app_head.
    rewrite !app_assoc. do 2 apply Permutation_app_tail. apply Permutation_app_comm. }
  rewrite E. apply submseteq_app; [reflexivity|]. apply submseteq_app; [reflexivity|].
  apply submseteq_app; [exact H | reflexivity].
Qed.

Lemma shuffle_perm (X new PA pt pt' PB : list string) :
  new ++ pt' ≡ₚ pt -> (X ++ new) ++ PA ++ pt' ++ PB ≡ₚ X ++ PA ++ pt ++ PB.
Proof.
  intros H.
  assert (E : (X ++ new) ++ PA ++ pt' ++ PB ≡ₚ X ++ PA ++ (new ++ pt') ++ PB).
  { rewrite <- !app_assoc. apply Permutation_app_head.
    rewrite !app_assoc. do 2 apply Permutation_app_tail. apply Permutation_app_comm. }
  rewrite E, H. reflexivity.
Qed.

Lemma advance_once call dirs p i : pool_once dirs p -> pool_once dirs (advance call p i).
Proof.
  intros [A B]. unfold advance.
  destruct (pool_tasks p !! i) as [task|] eqn:Et; [|exact (conj A B)].
  destruct (step (pool_world p) task) as [[evs w'] task'] eqn:Es.
  destruct (step_once _ _ _ _ _ Es) as [Hsub Hperm].
  unfold pool_once. cbn [pool_tasks pool_trace pool_rejection].
  rewrite renamed_app, renamed_tagged, (flat_map_middle _ _ _ _ Et).
  rewrite (flat_map_at pending _ _ _ Et) in A, B.
  split.
  - etransitivity; [|exact A]. now apply shuffle_sub.
  - intros Hr.
    assert (Hnf : forall e, task' <> Failed e).
    { intros e ->. destruct (pool_rejection p); discriminate. }
    assert (Hr0 : pool_rejection p = None).
    { destruct (pool_rejection p); [destruct task'; discriminate | reflexivity]. }
    rewrite <- (B Hr0). apply shuffle_perm. now apply Hperm.
Qed.

Lemma launched_once call w k dirs evs tasks :
  launch_all call w k dirs = (evs, tasks) ->
  renamed evs = [] /\ flat_map pending tasks = planned dirs.
Proof.
  revert k evs tasks. induction dirs as [|[d fs] dirs IH]; intros k evs tasks H.
  - injection H as <- <-. auto.
  - cbn [launch_all] in H. destruct (launch w d fs) as [ev0 task0] eqn:El.
    destruct (launch_all call w (S k) dirs) as [evs' tasks'] eqn:Ea.
    injection H as <- <-. destruct (IH _ _ _ Ea) as [I1 I2].
    change ((OTask call k, ev0) :: evs') with ([(OTask call k, ev0)] ++ evs').
    rewrite renamed_app, I1. unfold planned in *. cbn [flat_map snd]. rewrite I2.
    unfold launch in El.
    destruct (existsSync w d); injection El as <- <-; split; reflexivity.
Qed.

Lemma await_all_once call schedule w dirs :
  pool_once dirs (await_all call schedule w dirs).
Proof.
  unfold await_all. destruct (launch_all call w 0 dirs) as [evs tasks] eqn:E.
  destruct (launched_once _ _ _ _ _ _ E) as [I1 I2].
  assert (H : pool_once dirs (mkPool w evs tasks None)).
  { unfold pool_once. cbn [pool_trace pool_tasks]. rewrite I1, I2. split; reflexivity. }
  revert H. generalize (mkPool w evs tasks None).
  generalize (schedule ++ completion 0 tasks). intros order.
  induction order as [|i order IH]; intros p H; [exact H|].
  cbn [fold_left]. apply IH. now apply advance_once.
Qed.

Lemma finished_pending (tasks : list Task) :
  (forall i task, tasks !! i = Some task ->
                  (exists d, task = Moving d []) \/ exists e, task = Failed e) ->
  flat_map pending tasks = [].
Proof.
  induction tasks as [|t tasks IH]; intros H; [reflexivity|]. cbn [flat_map].
  rewrite IH by (intros i; apply (H (S i))).
  destruct (H 0 t eq_refl) as [[d ->]|[e ->]]; reflexivity.
Qed.

(** When [Promise.all] settles, the files it has attempted are among those
    it was started for, each at most once; when it is fulfilled, they
    are all of them. *)
Lemma await_all_renamed call schedule w dirs :
  renamed (pool_trace (await_all call schedule w dirs)) ⊆+ planned dirs
  /\ (pool_rejection (await_all call schedule w dirs) = None ->
      renamed (pool_trace (await_all call schedule w dirs)) ≡ₚ planned dirs).
Proof.
  destruct (await_all_once call schedule w dirs) as [A B].
  assert (Hf : flat_map pending (pool_tasks (await_all call schedule w dirs)) = []).
  { apply finished_pending. intros i task. apply await_all_finished. }
  rewrite Hf, app_nil_r in A, B. auto.
Qed.

Lemma move_types_once schedules types call w tr w' r :
  move_types schedules call w types = (tr, w', r) ->
  renamed tr ⊆+ planned_types types
  /\ (r = None -> renamed tr ≡ₚ planned_types types).
Proof.
  revert call w tr w' r.
  induction types as [|[ty perDate] types IH]; intros call w tr w' r H.
  - injection H as <- _ <-. split; reflexivity.
  - cbn [move_types] in H. cbn [planned_types flat_map fst snd].
    destruct (await_all_renamed call (schedules call) w (date_dirs ty perDate)) as [A B].
    destruct (pool_rejection _) as [e|] eqn:Er.
    + injection H as <- _ <-. split; [|discriminate].
      etransitivity; [exact A|]. apply submseteq_inserts_r. reflexivity.
    + destruct (move_types schedules (S call) _ types) as [[tr2 w2] r2] eqn:Em.
      injection H as <- _ <-. destruct (IH _ _ _ _ _ Em) as [A2 B2].
      rewrite renamed_app. split.
      * apply submseteq_app; [rewrite (B eq_refl); reflexivity | exact A2].
      * intros Hr. rewrite (B eq_refl), (B2 Hr). reflexivity.
Qed.

(** *** The files listed in the plan *)

Import JsObject.

Lemma all_listed_app a b : all_listed (a ++ b) = all_listed a ++ all_listed b.
Proof. unfold all_listed. apply flat_map_app. Qed.

Lemma get_own_cases {V} (o : t V) k :
  match get o k with
  | Own v => own o k = Some v
  | _ => own o k = None
  end.
Proof. unfold get. destruct (own o k); [reflexivity|]. now destruct (existsb _ _). Qed.

Lemma set_fresh_flat {V Y} (f : V -> list Y) (o : t V) k v :
  own o k = None ->
  flat_map (fun e => f (snd e)) (set o k v) = flat_map (fun e => f (snd e)) o ++ f v.
Proof.
  intros H. rewrite (set_new _ _ _ H), flat_map_app. cbn. now rewrite app_nil_r.
Qed.

Lemma set_replace_flat {V Y} (f : V -> list Y) (o : t V) k v v0 extra :
  own o k = Some v0 ->
  f v ≡ₚ f v0 ++ extra ->
  flat_map (fun e => f (snd e)) (set o k v) ≡ₚ flat_map (fun e => f (snd e)) o ++ extra.
Proof.
  intros Ho Hv. induction o as [|[k' v'] o IH]; [discriminate|].
  cbn [own set] in *. destruct (String.eqb k' k).
  - injection Ho as ->. cbn [flat_map snd]. rewrite Hv, <- !app_assoc.
    apply Permutation_app_head, Permutation_app_comm.
  - cbn [flat_map snd]. rewrite (IH Ho), <- app_assoc. reflexivity.
Qed.

Lemma add_listing_listed perTypeAndDate ty date fileInfos perTypeAndDate' :
  add_listing perTypeAndDate ty date fileInfos = inr perTypeAndDate' ->
  get perTypeAndDate ty <> Inherited ->
  all_listed perTypeAndDate' ≡ₚ all_listed perTypeAndDate ++ fileInfos.
Proof.
  unfold add_listing, all_listed. intros H Hni.
  pose proof (get_own_cases perTypeAndDate ty) as Ho.
  destruct (get perTypeAndDate ty) as [perDate| |]; [|contradiction|].
  - pose proof (get_own_cases perDate date) as Hd.
    destruct (get perDate date) as [l| |]; [|discriminate|]; injection H as <-;
      apply (set_replace_flat (fun pd : t (list FileInfo.t) => flat_map snd pd) _ _ _ perDate);
      try exact Ho.
    + apply (set_replace_flat (fun l : list FileInfo.t => l) _ _ _ l); [exact Hd|reflexivity].
    + now rewrite (set_fresh_flat (fun l : list FileInfo.t => l)).
  - injection H as <-.
    rewrite (set_fresh_flat (fun pd : t (list FileInfo.t) => flat_map snd pd)) by exact Ho.
    cbn. now rewrite app_nil_r.
Qed.

Lemma process_from_listed groups pl pl' :
  process_from pl groups = inr pl' ->
  all_listed (filesPerTypeAndDate pl')
  ≡ₚ all_listed (filesPerTypeAndDate pl) ++ concat (map snd groups).
Proof.
  revert pl. induction groups as [|[k l] groups IH]; intros pl H.
  - injection H as <-. cbn. now rewrite app_nil_r.
  - cbn [process_from] in H. destruct (process_group pl l) as [e|pl1] eqn:Ep; [discriminate|].
    rewrite (IH _ H). unfold process_group in Ep.
    destruct (dateString l) as [e|date]; [discriminate|].
    destruct (add_listing _ _ _ _) as [e|ptd] eqn:Ea; [discriminate|]. injection Ep as <-.
    cbn [filesPerTypeAndDate map snd concat].
    rewrite (add_listing_listed _ _ _ _ _ Ea) by apply groupType_not_inherited.
    now rewrite <- app_assoc.
Qed.

(** The files the types' loop is to move are the files of the
    descriptors listed in the plan. *)
Lemma planned_listed (perTypeAndDate : t (t (list FileInfo.t))) :
  planned_types (entries perTypeAndDate) ≡ₚ map FileInfo.path (all_listed perTypeAndDate).
Proof.
  unfold planned_types, all_listed.
  rewrite (Permutation_flat_map _ (entries_perm perTypeAndDate)).
  induction perTypeAndDate as [|[ty perDate] o IH]; [reflexivity|].
  cbn [flat_map fst snd]. rewrite map_app, IH. apply Permutation_app_tail.
  unfold planned, date_dirs. rewrite flat_map_concat_map, map_map. cbn [snd].
  rewrite <- flat_map_concat_map.
  rewrite (Permutation_flat_map _ (entries_perm perDate)).
  clear. induction perDate as [|[d fs] pd IH]; [reflexivity|].
  cbn [flat_map snd]. now rewrite map_app, IH.
Qed.

(** The files the plan lists are the scanned files. *)
Lemma plan_lists_scan schedules w st :
  stages_of (pipeline schedules w) = Some st ->
  planned_types (entries (filesPerTypeAndDate (plan st))) ≡ₚ baseFiles st.
Proof.
  intros Hst. apply pipeline_stages in Hst as (_ & Hm & Hg & Hp).
  destruct (results_paths _ _ _ Hm) as (<- & _).
  rewrite planned_listed. apply Permutation_map.
  unfold process_groups in Hp. apply process_from_listed in Hp. cbn in Hp. rewrite Hp.
  unfold group_files in Hg.
  destruct (group_from_partition _ [] [] _ Hg) as (_ & _ & _ & _ & I5).
  - constructor.
  - intros ? ? [].
  - intros ? [].
  - intros ? [].
  - cbn [app] in I5. now rewrite entries_perm.
Qed.

(** The renames of a run in move mode are those of the types' loop. *)
Lemma main_renamed schedules w st :
  stages_of (pipeline schedules w) = Some st ->
  renamed (trace (main schedules (Some "move") w))
  ⊆+ planned_types (entries (filesPerTypeAndDate (plan st)))
  /\ (outcome (main schedules (Some "move") w) = Returned 0 ->
      renamed (trace (main schedules (Some "move") w))
      ≡ₚ planned_types (entries (filesPerTypeAndDate (plan st)))).
Proof.
  intros Hst.
  destruct (main_move_parts _ _ _ Hst) as (front & Hfront & Hparts).
  set (p1 := await_all 1 (schedules 1) w (type_dirs (filesPerTypeAndDate (plan st)))) in *.
  assert (E0 : renamed front = []).
  { apply renamed_reads. intros o ev Hin. now destruct (Hfront _ _ Hin). }
  assert (E1 : renamed (pool_trace p1) = []).
  { destruct (await_all_renamed 1 (schedules 1) w (type_dirs (filesPerTypeAndDate (plan st))))
      as [A _]. fold p1 in A.
    assert (Hp : planned (type_dirs (filesPerTypeAndDate (plan st))) = []).
    { unfold planned, type_dirs. induction (keys _); [reflexivity | exact IHl]. }
    rewrite Hp in A. now apply submseteq_nil_r in A. }
  destruct Hparts as [(Hrej & -> & e & He)|(Hrej & tr2 & w2 & r & tail & Hm & -> & Htail & Hout)].
  - rewrite renamed_app, E0, E1. split; [apply submseteq_nil_l | congruence].
  - assert (E2 : renamed tail = []).
    { apply renamed_reads. intros o ev Hin. now destruct (Htail _ _ Hin). }
    destruct (move_types_once _ _ _ _ _ _ _ Hm) as [A B].
    rewrite !renamed_app, E0, E1. cbn [app].
    change (renamed ((OMain, EvProgressStart (length (filesForInformation (plan st))))
                       :: tr2 ++ tail)) with (renamed (tr2 ++ tail)).
    rewrite renamed_app, E2, app_nil_r. split; [exact A|].
    intros Hret. apply B. destruct Hout as [[-> _]|(_ & e & _ & He)]; [reflexivity | congruence].
Qed.

(** X16: a run in move mode attempts to rename scanned files only, and
    none of them twice, whatever the interleaving of the tasks; a run
    that returns has renamed every scanned file exactly once, and none
    of its renames was refused. *)
Theorem every_file_moved_once schedules w st :
  stages_of (pipeline schedules w) = Some st ->
  renamed (trace (main schedules (Some "move") w)) ⊆+ baseFiles st
  /\ (outcome (main schedules (Some "move") w) = Returned 0 ->
      renamed (trace (main schedules (Some "move") w)) ≡ₚ baseFiles st
      /\ forall o src dst ok,
          In (o, EvRename src dst ok) (trace (main schedules (Some "move") w)) ->
          ok = true).
Proof.
  intros Hst. destruct (main_renamed _ _ _ Hst) as [A B].
  pose proof (plan_lists_scan _ _ _ Hst) as Hp.
  split; [now rewrite <- Hp|]. intros Hret. split; [rewrite <- Hp; now apply B|].
  intros o src dst ok Hin.
  destruct (mutation_origin _ _ _ _ _ Hin eq_refl)
    as (_ & st' & call & i & dir & dirFiles & Hst' & -> & Hd).
  destruct (main_story _ _ _ _ _ _ _ Hst' Hd) as [_ Hc].
  destruct (Hc Hret) as [found E]. apply by_origin_In in Hin. rewrite E in Hin.
  apply completed_no_refusal in Hin. now destruct ok.
Qed.

End OnceFacts.

(** ** The progress bar ends full *)

Section Bar.

Context `{C : Collaborators}.

Lemma ticks_app a b : ticks (a ++ b) = ticks a + ticks b.
Proof. unfold ticks. now rewrite List.filter_app, length_app. Qed.

Lemma ticks_of_app a b : ticks_of (a ++ b) = ticks_of a + ticks_of b.
Proof. unfold ticks_of. now rewrite map_app, ticks_app. Qed.

Lemma ticks_of_tagged (o : Origin) evs : ticks_of (map (pair o) evs) = ticks evs.
Proof. unfold ticks_of. rewrite map_map. cbn. now rewrite map_id. Qed.

Lemma bar_no_start evs total value :
  Forall (fun ev => is_start ev = false) evs ->
  fold_left bar_step evs (Some (total, value)) = Some (total, value + ticks evs).
Proof.
  revert value. induction evs as [|ev evs IH]; intros value H.
  - cbn. f_equal. f_equal. unfold ticks. cbn. lia.
  - apply Forall_cons in H as [Hev H]. cbn [fold_left].
    change (ev :: evs) with ([ev] ++ evs). rewrite ticks_app.
    destruct ev; try discriminate; cbn [bar_step]; rewrite (IH _ H); unfold ticks at 2;
      cbn; f_equal; f_equal; lia.
Qed.

Lemma bar_from_start a total b init :
  fold_left bar_step (a ++ EvProgressStart total :: b) init
  = fold_left bar_step b (Some (total, 0)).
Proof. now rewrite fold_left_app. Qed.

(** *** The extractions *)

Lemma getFileInfo_ticks w filePath fileInfo :
  snd (getFileInfo true w filePath) = inr fileInfo ->
  ticks (fst (getFileInfo true w filePath)) = 1.
Proof.
  unfold getFileInfo, readTakenAt. destruct (stat w filePath) as [[c m]|]; [|discriminate].
  destruct (JsString.includes _ (getType filePath)).
  - destruct (readFile w filePath) as [data|]; [|discriminate].
    destruct (exif_parse data); try discriminate. reflexivity.
  - reflexivity.
Qed.

Lemma getFileInfo_no_start progress w filePath :
  Forall (fun ev => is_start ev = false) (fst (getFileInfo progress w filePath)).
Proof.
  unfold getFileInfo, readTakenAt. destruct (stat w filePath) as [[c m]|]; [|repeat constructor].
  destruct (JsString.includes _ (getType filePath)).
  - destruct (readFile w filePath) as [data|]; [|repeat constructor].
    destruct (exif_parse data); destruct progress; repeat constructor.
  - destruct progress; repeat constructor.
Qed.

Lemma weights_insert {A} (slots : list (option (JsError + A))) tasks i s t s' :
  slots !! i = Some s -> tasks !! i = Some t ->
  list_sum (zip_with weight (<[i := s']> slots) tasks) + weight s t
  = list_sum (zip_with weight slots tasks) + weight s' t.
Proof.
  revert tasks i. induction slots as [|x slots IH]; intros [|y tasks] [|i] Hs Ht;
    try discriminate; simpl in Hs, Ht; simpl zip_with; simpl list_sum.
  - injection Hs as ->. injection Ht as ->.
    generalize (weight s' t) (weight s t). intros a b. lia.
  - specialize (IH _ _ Hs Ht). revert IH.
    generalize (weight s' t) (weight s t) (weight x y). intros a b c. lia.
Qed.

Lemma settle_ticks {A} call (tasks : list (list Event * (JsError + A))) order st :
  ticks_of (settled_trace st) = list_sum (zip_with weight (slots st) tasks) ->
  ticks_of (settled_trace (fold_left (settle call tasks) order st))
  = list_sum (zip_with weight (slots (fold_left (settle call tasks) order st)) tasks).
Proof.
  revert st. induction order as [|i order IH]; intros st H; [exact H|].
  cbn [fold_left]. apply IH. unfold settle.
  destruct (slots st !! i) as [[r0|]|] eqn:Es; try exact H.
  destruct (tasks !! i) as [[evs r]|] eqn:Et; [|exact H].
  cbn [slots settled_trace]. rewrite ticks_of_app, ticks_of_tagged.
  pose proof (weights_insert _ _ _ _ _ (Some r) Es Et) as Hw. cbn [weight fst] in Hw.
  rewrite Nat.add_0_r in Hw. etransitivity; [|symmetry; exact Hw]. f_equal. exact H.
Qed.

Lemma full_weights {A} (tasks : list (list Event * (JsError + A))) :
  list_sum (zip_with weight (map (fun t => Some (snd t)) tasks) tasks)
  = list_sum (map (fun t => ticks (fst t)) tasks).
Proof.
  induction tasks as [|t tasks IH]; [reflexivity|]. simpl map. simpl zip_with.
  simpl list_sum. f_equal. exact IH.
Qed.

(** The increments of a [Promise.all] over tasks that only read are
    those of its tasks, whatever the order in which they settle. *)
Lemma promise_all_ticks {A} call schedule (tasks : list (list Event * (JsError + A))) :
  ticks_of (fst (promise_all call schedule tasks))
  = list_sum (map (fun t => ticks (fst t)) tasks).
Proof.
  unfold promise_all. cbn [fst].
  destruct (promise_all_slots call tasks schedule) as [_ Hsl]. cbn zeta in Hsl.
  rewrite settle_ticks, Hsl; [apply full_weights|].
  cbn [settled_trace slots map]. clear.
  generalize (length tasks) at 1. intros n. revert tasks.
  induction n as [|n IH]; intros tasks; [reflexivity|].
  destruct tasks as [|t tasks]; [reflexivity|]. cbn. apply IH.
Qed.

Lemma extraction_ticks w paths infos :
  map snd (map (getFileInfo true w) paths) = map inr infos ->
  list_sum (map (fun t => ticks (fst t)) (map (getFileInfo true w) paths)) = length paths.
Proof.
  revert infos. induction paths as [|p paths IH]; intros [|fi infos] H; try discriminate;
    [reflexivity|].
  cbn in H. injection H as Hp H. simpl map. simpl list_sum. simpl length.
  change (S (length paths)) with (1 + length paths).
  f_equal; [exact (getFileInfo_ticks _ _ _ Hp) | exact (IH _ H)].
Qed.

(** The bar after the pipeline: started for the scanned files, and full. *)
Lemma pipeline_bar schedules w st :
  stages_of (pipeline schedules w) = Some st ->
  bar_after (fst (pipeline schedules w))
  = Some (length (baseFiles st), length (baseFiles st)).
Proof.
  intros Hst. pose proof Hst as Hst'. apply pipeline_stages in Hst' as (Hs & Hm & Hg & Hp).
  unfold stages_of, pipeline in *. destruct (scan w) as [evs [e|paths]]; [discriminate|].
  cbn [snd] in Hs. injection Hs as Hs. rewrite <- Hs in *.
  pose proof (promise_all_ticks 0 (schedules 0) (map (getFileInfo true w) paths)) as Ht.
  rewrite (extraction_ticks _ _ _ Hm) in Ht.
  assert (Hns : Forall (fun ev => is_start ev = false)
                  (map snd (fst (promise_all 0 (schedules 0)
                                   (map (getFileInfo true w) paths))))).
  { apply Forall_forall. intros ev Hin. apply list_elem_of_In, in_map_iff in Hin
      as ([o ev'] & <- & Hin).
    apply promise_all_trace in Hin as (i & evs' & r & _ & Hi & Hev).
    rewrite lookup_map in Hi. destruct (paths !! i) as [p|]; [|discriminate].
    injection Hi as Hi. pose proof (getFileInfo_no_start true w p) as Hr.
    rewrite Hi in Hr. cbn [fst snd] in *.
    rewrite Forall_forall in Hr. apply Hr. now apply list_elem_of_In. }
  destruct (promise_all 0 (schedules 0) (map (getFileInfo true w) paths))
    as [tr1 [e|infos]]; [discriminate|].
  cbn [fst snd] in *.
  assert (E : bar_after (on_main (evs ++ [EvLog "Extracting file information...";
                                          EvProgressStart (length paths)])
                         ++ tr1 ++ [(OMain, EvProgressStop)])
              = Some (length paths, length paths)).
  { unfold bar_after, on_main. rewrite !map_app, !map_map. cbn [snd map]. rewrite map_id.
    rewrite <- !app_assoc. cbn [app].
    rewrite fold_left_app. cbn [fold_left bar_step]. rewrite bar_no_start.
    - rewrite ticks_app. f_equal. f_equal. cbn [Nat.add].
      change (ticks [EvProgressStop]) with 0. rewrite Nat.add_0_r. exact Ht.
    - apply Forall_app. split; [exact Hns | repeat constructor]. }
  destruct (group_files infos); [discriminate|].
  destruct (process_groups t); [discriminate|]. exact E.
Qed.

(** *** The moves *)

Lemma step_bar w task evs w' task' :
  step w task = (evs, w', task') ->
  Forall (fun ev => is_start ev = false) evs
  /\ ((forall e, task' <> Failed e) -> ticks evs = length (sources evs)).
Proof.
  intros Hs.
  destruct (step_cases _ _ _ _ _ Hs)
    as [(-> & -> & _)|[(d & fs & -> & -> & ->)|[(d & fs & e & -> & -> & ->)
       |[(d & fi & rest & -> & -> & ->)|(d & fi & rest & e & -> & -> & ->)]]]];
    (split; [repeat constructor|]); try reflexivity; intros H; now destruct (H e).
Qed.

Lemma advance_bar call p i : pool_bar p -> pool_bar (advance call p i).
Proof.
  intros [A B]. unfold advance.
  destruct (pool_tasks p !! i) as [task|] eqn:Et; [|exact (conj A B)].
  destruct (step (pool_world p) task) as [[evs w'] task'] eqn:Es.
  destruct (step_bar _ _ _ _ _ Es) as [Hns Ht].
  unfold pool_bar. cbn [pool_trace pool_rejection]. split.
  - apply Forall_app. split; [exact A|]. apply Forall_map. exact Hns.
  - intros Hr.
    assert (Hnf : forall e, task' <> Failed e).
    { intros e ->. destruct (pool_rejection p); discriminate. }
    assert (Hr0 : pool_rejection p = None).
    { destruct (pool_rejection p); [destruct task'; discriminate | reflexivity]. }
    rewrite ticks_of_app, ticks_of_tagged, renamed_app, length_app, renamed_tagged, (B Hr0).
    rewrite (Ht Hnf). reflexivity.
Qed.

Lemma launched_bar call w k dirs evs tasks :
  launch_all call w k dirs = (evs, tasks) ->
  Forall (fun e : Entry => is_start (snd e) = false) evs /\ ticks_of evs = 0.
Proof.
  revert k evs tasks. induction dirs as [|[d fs] dirs IH]; intros k evs tasks H.
  - injection H as <- <-. split; [constructor | reflexivity].
  - cbn [launch_all] in H. destruct (launch w d fs) as [ev0 task0] eqn:El.
    destruct (launch_all call w (S k) dirs) as [evs' tasks'] eqn:Ea.
    injection H as <- <-. destruct (IH _ _ _ Ea) as [I1 I2].
    unfold launch in El.
    destruct (existsSync w d); injection El as <- <-; (split; [now constructor|]);
      exact I2.
Qed.

Lemma await_all_bar call schedule w dirs : pool_bar (await_all call schedule w dirs).
Proof.
  unfold await_all. destruct (launch_all call w 0 dirs) as [evs tasks] eqn:E.
  destruct (launched_bar _ _ _ _ _ _ E) as [I1 I2].
  destruct (launched_once _ _ _ _ _ _ E) as [I3 _].
  assert (H : pool_bar (mkPool w evs tasks None)).
  { split; cbn [pool_trace]; [exact I1|]. intros _. now rewrite I2, I3. }
  revert H. generalize (mkPool w evs tasks None).
  generalize (schedule ++ completion 0 tasks). intros order.
  induction order as [|i order IH]; intros p H; [exact H|].
  cbn [fold_left]. apply IH. now apply advance_bar.
Qed.

Lemma move_types_bar schedules types call w tr w' r :
  move_types schedules call w types = (tr, w', r) ->
  Forall (fun e : Entry => is_start (snd e) = false) tr
  /\ (r = None -> ticks_of tr = length (renamed tr)).
Proof.
  revert call w tr w' r.
  induction types as [|[ty perDate] types IH]; intros call w tr w' r H.
  - injection H as <- _ <-. split; [constructor | reflexivity].
  - cbn [move_types] in H.
    destruct (await_all_bar call (schedules call) w (date_dirs ty perDate)) as [A B].
    destruct (pool_rejection _) as [e|] eqn:Er.
    + injection H as <- _ <-. split; [exact A | discriminate].
    + destruct (move_types schedules (S call) _ types) as [[tr2 w2] r2] eqn:Em.
      injection H as <- _ <-. destruct (IH _ _ _ _ _ Em) as [A2 B2]. split.
      * apply Forall_app. auto.
      * intros Hr. rewrite ticks_of_app, renamed_app, length_app, (B eq_refl), (B2 Hr).
        reflexivity.
Qed.

(** The table has a row for every scanned file. *)
Lemma table_length schedules w st :
  stages_of (pipeline schedules w) = Some st ->
  length (filesForInformation (plan st)) = length (baseFiles st).
Proof.
  intros Hst. apply pipeline_stages in Hst as (_ & Hm & Hg & Hp).
  unfold process_groups in Hp. pose proof (process_from_rows _ _ _ Hp) as Hrows.
  apply (f_equal (@length string)) in Hrows. cbn in Hrows. rewrite !length_map in Hrows.
  rewrite Hrows. destruct (results_paths _ _ _ Hm) as (<- & _). rewrite length_map.
  unfold group_files in Hg.
  destruct (group_from_partition _ [] [] _ Hg) as (_ & _ & _ & _ & I5).
  - constructor.
  - intros ? ? [].
  - intros ? [].
  - intros ? [].
  - cbn [app] in I5. apply Permutation_length. now rewrite entries_perm.
Qed.

(** X17: a run that returns leaves its progress bar full: the bar was
    last started for the number of scanned files, and has been
    incremented that many times, once for every file extracted (in a
    preview) or renamed (in move mode), whatever the interleaving. *)
Theorem progress_bar_ends_full schedules command w st :
  stages_of (pipeline schedules w) = Some st ->
  outcome (main schedules command w) = Returned 0 ->
  bar_after (trace (main schedules command w))
  = Some (length (baseFiles st), length (baseFiles st)).
Proof.
  intros Hst Hret.
  destruct (JsString.includes ["move"] command) eqn:Ec.
  - apply includes_move_inv in Ec as ->.
    destruct (main_move_parts _ _ _ Hst) as (front & Hfront & Hparts).
    destruct Hparts as [(_ & _ & e & He)|(_ & tr2 & w2 & r & tail & Hm & E & Htail & Hout)];
      [congruence|].
    destruct Hout as [(-> & _ & ->)|(_ & e & _ & He)]; [|congruence].
    destruct (move_types_bar _ _ _ _ _ _ _ Hm) as [A B].
    destruct (move_types_once _ _ _ _ _ _ _ Hm) as [_ P].
    pose proof (plan_lists_scan _ _ _ Hst) as Hperm.
    rewrite E. unfold bar_after. rewrite !map_app. cbn [map snd]. rewrite app_assoc.
    rewrite bar_from_start, bar_no_start.
    + rewrite (table_length _ _ _ Hst). f_equal. f_equal. cbn [Nat.add].
      change (ticks_of (tr2 ++ [(OMain, EvProgressStop);
                                (OMain, EvLog "Files organized successfully!")])
              = length (baseFiles st)).
      rewrite ticks_of_app, (B eq_refl), (P eq_refl), Hperm. cbn. lia.
    + apply Forall_map. apply Forall_app. split; [exact A | repeat constructor].
  - unfold main in *. pose proof (pipeline_bar _ _ _ Hst) as Hb.
    unfold stages_of in Hst. destruct (pipeline schedules w) as [trp [e|st']]; [discriminate|].
    cbn [snd fst] in *. injection Hst as ->. rewrite Ec in *. cbn [negb trace].
    unfold bar_after in *. rewrite !map_app, !fold_left_app.
    cbn [map snd fold_left bar_step]. exact Hb.
Qed.

End Bar.

(** ** The date of a group *)

Section GroupDate.

Context `{C : Collaborators}.

Import JsString.










End GroupDate.

(** ** Destinations *)

Section Destinations.

Context `{C : Collaborators}.

Lemma renamed_pairs tr : renamed tr = map fst (rename_pairs tr).
Proof.
  unfold renamed, sources, rename_pairs.
  induction tr as [|[o ev] tr IH]; [reflexivity|]. cbn [map snd omap].
  destruct ev; cbn; try exact IH. f_equal. exact IH.
Qed.

Lemma rename_pairs_In tr src dst :
  In (src, dst) (rename_pairs tr) -> exists o ok, In (o, EvRename src dst ok) tr.
Proof.
  unfold rename_pairs. intros H. apply list_elem_of_In, list_elem_of_omap in H
    as ([o ev] & Hin & E).
  cbn in E. destruct ev; try discriminate. injection E as -> ->.
  exists o, ok. now apply list_elem_of_In.
Qed.

Lemma NoDup_filter_map {X Y} (g : X -> Y) (f : X -> bool) l :
  NoDup (map g l) -> NoDup (map g (List.filter f l)).
Proof.
  induction l as [|x l IH]; intros H; [constructor|]. cbn [map List.filter] in *.
  apply NoDup_cons in H as [Hx H]. destruct (f x); [|auto]. cbn [map].
  apply NoDup_cons. split; [|auto]. intros Hin. apply Hx.
  apply list_elem_of_In, in_map_iff in Hin as (y & E & Hy).
  apply List.filter_In in Hy as [Hy _]. apply list_elem_of_In, in_map_iff. eauto.
Qed.

Lemma NoDup_submseteq_inv {X} (l k : list X) : l ⊆+ k -> NoDup k -> NoDup l.
Proof.
  intros Hs Hk. apply submseteq_Permutation in Hs as [k' E]. rewrite E in Hk.
  now apply NoDup_app in Hk as [? _].
Qed.

(** The scanned paths of a listing of distinct entry names have distinct
    base names. *)
Lemma scan_basenames schedules w st fileNames :
  stages_of (pipeline schedules w) = Some st ->
  readdir w cwd = Some fileNames ->
  NoDup fileNames ->
  Forall (fun f => NodePath.entry_name f = true) fileNames ->
  NoDup (map NodePath.basename (baseFiles st)).
Proof.
  intros Hst Hrd Hnd Hnames. apply pipeline_stages in Hst as (Hscan & _).
  unfold scan in Hscan. rewrite Hrd in Hscan.
  destruct (filter_valid w (map (NodePath.join cwd) fileNames)) as [evs r] eqn:Ef.
  cbn [snd] in Hscan. subst r.
  destruct (filter_valid_filter w _ _ (f_equal snd Ef)) as [-> _].
  apply NoDup_filter_map. rewrite map_map.
  replace (map (fun x => NodePath.basename (NodePath.join cwd x)) fileNames) with fileNames;
    [exact Hnd|].
  clear -Hnames. induction fileNames as [|f l IH]; [reflexivity|].
  apply Forall_cons in Hnames as [Hf Hl]. cbn [map].
  now rewrite (basename_join _ _ Hf), <- (IH Hl).
Qed.

(** A rename keeps the base name of the file. *)
Lemma rename_keeps_basename schedules w st fileNames o src dst ok :
  stages_of (pipeline schedules w) = Some st ->
  readdir w cwd = Some fileNames ->
  Forall (fun f => NodePath.entry_name f = true) fileNames ->
  In (o, EvRename src dst ok) (trace (main schedules (Some "move") w)) ->
  NodePath.basename dst = NodePath.basename src.
Proof.
  intros Hst Hrd Hnames Hin. apply in_split in Hin as (pre & post & E).
  destruct (move_rename_explained _ _ _ _ _ _ _ _ _ Hst E)
    as (_ & ty & date & fi & Hl & -> & -> & _).
  pose proof Hst as Hst'. apply pipeline_stages in Hst' as (_ & _ & Hg & Hp).
  destruct (process_groups_spec _ _ Hp) as [_ Honly].
  destruct (group_from_spec _ _ _ Hg) as (_ & _ & Gonly).
  destruct (Honly _ _ _ Hl) as (name & fileInfos & Hgin & Hfi & _).
  apply (proj1 (entries_In _ _)) in Hgin.
  destruct (Gonly _ _ _ Hgin Hfi) as [(l0 & [] & _)|[Hb _]].
  destruct (descriptor_entry _ _ _ _ _ Hst Hrd Hnames Hb) as (Hn & _).
  destruct (descriptor_source _ _ _ _ Hst Hb) as (p & _ & Hp').
  apply getFileInfo_fields in Hp' as (_ & _ & Hbase & Hpath & _).
  rewrite Forall_forall in Hnames.
  rewrite basename_join by (apply Hnames; now apply list_elem_of_In).
  now rewrite Hbase, Hpath.
Qed.

(** X19: the renames of a run never collide: when the listing of the
    directory holds distinct entry names, no path is the source of two
    renames, no path is the destination of two renames, and every file
    goes by its own base name, whatever the interleaving of the
    tasks. *)
Theorem renames_never_collide schedules w st fileNames :
  stages_of (pipeline schedules w) = Some st ->
  readdir w cwd = Some fileNames ->
  NoDup fileNames ->
  Forall (fun f => NodePath.entry_name f = true) fileNames ->
  NoDup (map fst (rename_pairs (trace (main schedules (Some "move") w))))
  /\ NoDup (map snd (rename_pairs (trace (main schedules (Some "move") w))))
  /\ forall src dst,
      In (src, dst) (rename_pairs (trace (main schedules (Some "move") w))) ->
      NodePath.basename dst = NodePath.basename src.
Proof.
  intros Hst Hrd Hnd Hnames.
  pose proof (scan_basenames _ _ _ _ Hst Hrd Hnd Hnames) as Hbase.
  destruct (main_renamed _ _ _ Hst) as [Hsub _].
  rewrite (plan_lists_scan _ _ _ Hst), renamed_pairs in Hsub.
  assert (Hkeep : forall src dst,
             In (src, dst) (rename_pairs (trace (main schedules (Some "move") w))) ->
             NodePath.basename dst = NodePath.basename src).
  { intros src dst Hin. apply rename_pairs_In in Hin as (o & ok & Hin).
    eapply rename_keeps_basename; eauto. }
  assert (Hsrc : NoDup (map NodePath.basename
                          (map fst (rename_pairs (trace (main schedules (Some "move") w)))))).
  { eapply NoDup_submseteq_inv; [|exact Hbase].
    apply (fmap_submseteq NodePath.basename) in Hsub. exact Hsub. }
  split; [now apply (NoDup_fmap_1 NodePath.basename)|]. split; [|exact Hkeep].
  apply (NoDup_fmap_1 NodePath.basename).
  replace (NodePath.basename <$> map snd (rename_pairs (trace (main schedules (Some "move") w))))
    with (map NodePath.basename
            (map fst (rename_pairs (trace (main schedules (Some "move") w)))));
    [exact Hsrc|].
  rewrite !map_map. apply map_ext_in. intros [src dst] Hin. symmetry. now apply Hkeep.
Qed.

End Destinations.

(** ** The phases follow one another *)

Section Phases.

Context `{C : Collaborators}.

Lemma ascending_app a b :
  ascending (a ++ b)
  <-> ascending a /\ ascending b /\ forall x y, In x a -> In y b -> x <= y.
Proof.
  induction a as [|x a IH]; cbn [app ascending].
  - split.
    + intros H. split; [exact I|]. split; [exact H|]. intros ? ? [].
    + intros (_ & H & _). exact H.
  - rewrite IH, Forall_app, !Forall_forall. split.
    + intros ([Ha Hb] & Hs & Hsb & Hab). split; [split; assumption|]. split; [exact Hsb|].
      intros x' y [<-|Hx] Hy; [apply Hb; now apply list_elem_of_In | auto].
    + intros ((Ha & Hs) & Hsb & Hab). split; [split; [exact Ha|]|].
      * intros y Hy. apply (Hab x y); [now left | now apply list_elem_of_In].
      * split; [exact Hs|]. split; [exact Hsb|]. intros x' y Hx Hy. apply Hab; [now right | exact Hy].
Qed.

Lemma ascending_constant k l : Forall (eq k) l -> ascending l.
Proof.
  induction l as [|x l IH]; intros H; [exact I|]. apply Forall_cons in H as [<- H].
  split; [|auto]. eapply Forall_impl; [exact H|]. intros y <-. reflexivity.
Qed.

Lemma phases_In (tr : list Entry) k :
  In k (omap phase tr) <-> exists e, In e tr /\ phase e = Some k.
Proof.
  rewrite <- list_elem_of_In, list_elem_of_omap.
  split; intros (e & He & E); exists e; split; auto; now apply list_elem_of_In.
Qed.

Lemma phases_constant (tr : list Entry) k :
  (forall e k', In e tr -> phase e = Some k' -> k' = k) -> Forall (eq k) (omap phase tr).
Proof.
  intros H. apply Forall_forall. intros k' Hk. apply list_elem_of_In, phases_In in Hk
    as (e & He & E). symmetry. eauto.
Qed.

(** The pipeline is the extraction. *)
Lemma pipeline_phase schedules w : Forall (eq 0) (omap phase (fst (pipeline schedules w))).
Proof.
  apply phases_constant. intros [o ev] k Hin E.
  pose proof (pipeline_extracting schedules w) as He. rewrite Forall_forall in He.
  pose proof (He _ (proj2 (list_elem_of_In _ _) Hin)) as Hev. cbn [snd] in Hev.
  destruct (pipeline_origins _ _ _ _ Hin) as [->|[i ->]].
  - destruct ev; try discriminate.
  - now injection E as <-.
Qed.

Lemma pool_phase call schedule w dirs :
  Forall (eq (S (S call))) (omap phase (pool_trace (await_all (S call) schedule w dirs))).
Proof.
  apply phases_constant. intros [o ev] k Hin E.
  destruct (await_all_ok (S call) schedule w dirs) as (_ & _ & _ & _ & _ & P6).
  destruct (P6 _ _ Hin) as (i & -> & _). now injection E as <-.
Qed.

Lemma move_types_phases schedules types call w tr w' r :
  move_types schedules (S call) w types = (tr, w', r) ->
  ascending (omap phase tr) /\ Forall (le (S (S call))) (omap phase tr).
Proof.
  revert call w tr w' r.
  induction types as [|[ty perDate] types IH]; intros call w tr w' r H.
  - injection H as <- _ _. split; [exact I | constructor].
  - cbn [move_types] in H.
    pose proof (pool_phase call (schedules (S call)) w (date_dirs ty perDate)) as Hp.
    assert (Hle : Forall (le (S (S call)))
                    (omap phase (pool_trace (await_all (S call) (schedules (S call)) w
                                               (date_dirs ty perDate))))).
    { eapply Forall_impl; [exact Hp|]. intros k <-. reflexivity. }
    destruct (pool_rejection _) as [e|].
    + injection H as <- _ _. split; [eapply ascending_constant; eauto | exact Hle].
    + destruct (move_types schedules (S (S call)) _ types) as [[tr2 w2] r2] eqn:Em.
      injection H as <- _ _. destruct (IH _ _ _ _ _ Em) as [A B].
      rewrite omap_app. split.
      * apply ascending_app. split; [eapply ascending_constant; eauto|]. split; [exact A|].
        intros x y Hx Hy. rewrite Forall_forall in Hp, B.
        apply list_elem_of_In, Hp in Hx as <-. apply list_elem_of_In, B in Hy. lia.
      * apply Forall_app. split; [exact Hle|]. eapply Forall_impl; [exact B|].
        intros k Hk. cbn in Hk. lia.
Qed.

(** The phases of a run never go back. *)
Lemma main_phases schedules command w :
  ascending (omap phase (trace (main schedules command w))).
Proof.
  pose proof (pipeline_phase schedules w) as H0.
  destruct (JsString.includes ["move"] command) eqn:Ec.
  - apply includes_move_inv in Ec as ->.
    destruct (stages_of (pipeline schedules w)) as [st|] eqn:Hst.
    + pose proof (pool_phase 0 (schedules 1) w (type_dirs (filesPerTypeAndDate (plan st))))
        as H2.
      assert (Hfront : ascending (omap phase (fst (pipeline schedules w)
                          ++ [(OMain, EvTable (filesForInformation (plan st)));
                              (OMain, EvLog "Moving files...")]))
                       /\ Forall (fun k => k <= 1)
                            (omap phase (fst (pipeline schedules w)
                               ++ [(OMain, EvTable (filesForInformation (plan st)));
                                   (OMain, EvLog "Moving files...")]))).
      { rewrite omap_app. cbn [omap phase]. split.
        - apply ascending_app. split; [eapply ascending_constant; eauto|].
          split; [repeat constructor|]. intros x y Hx _. rewrite Forall_forall in H0.
          apply list_elem_of_In, H0 in Hx as <-. lia.
        - apply Forall_app. split; [|repeat constructor].
          eapply Forall_impl; [exact H0|]. intros k <-. lia. }
      destruct Hfront as [Hf1 Hf2].
      destruct (main_move_unfolded _ _ _ Hst)
        as [(_ & E & _)|(_ & tr2 & w2 & r & tail & Hm & E & Hout)]; rewrite E; clear E;
        set (front := fst (pipeline schedules w)
                        ++ [(OMain, EvTable (filesForInformation (plan st)));
                            (OMain, EvLog "Moving files...")]) in *.
      * rewrite omap_app. apply ascending_app. split; [exact Hf1|].
        split; [eapply ascending_constant; eauto|]. intros x y Hx Hy.
        rewrite Forall_forall in Hf2, H2.
        apply list_elem_of_In, Hf2 in Hx. apply list_elem_of_In, H2 in Hy as <-. lia.
      * destruct (move_types_phases _ _ _ _ _ _ _ Hm) as [A B].
        assert (Ht : omap phase tail = []).
        { destruct Hout as [(_ & _ & ->)|(-> & _)]; reflexivity. }
        change ((OMain, EvProgressStart (length (filesForInformation (plan st)))) :: tr2 ++ tail)
          with ([(OMain, EvProgressStart (length (filesForInformation (plan st))))]
                  ++ tr2 ++ tail).
        rewrite !omap_app, Ht, app_nil_r.
        change (omap phase [(OMain, EvProgressStart (length (filesForInformation (plan st))))])
          with (@nil nat). cbn [app].
        apply ascending_app. split; [exact Hf1|]. split.
        -- apply ascending_app. split; [eapply ascending_constant; eauto|]. split; [exact A|].
           intros x y Hx Hy. rewrite Forall_forall in H2, B.
           apply list_elem_of_In, H2 in Hx as <-. apply list_elem_of_In, B in Hy. lia.
        -- intros x y Hx Hy. rewrite Forall_forall in Hf2, H2, B.
           apply list_elem_of_In, Hf2 in Hx. apply in_app_or in Hy as [Hy|Hy].
           ++ apply list_elem_of_In, H2 in Hy as <-. lia.
           ++ apply list_elem_of_In, B in Hy. lia.
    + unfold main, stages_of in *. destruct (pipeline schedules w) as [trp [e|st]]; [|discriminate].
      cbn [trace fst] in *. eapply ascending_constant; eauto.
  - unfold main. destruct (pipeline schedules w) as [trp [e|st]]; cbn [trace fst] in *.
    + eapply ascending_constant; eauto.
    + rewrite Ec. cbn [negb trace]. rewrite !omap_app. cbn [omap phase]. rewrite app_nil_r.
      apply ascending_app. split; [eapply ascending_constant; eauto|].
      split; [repeat constructor|]. intros x y Hx _. rewrite Forall_forall in H0.
      apply list_elem_of_In, H0 in Hx as <-. lia.
Qed.

Lemma ascending_split (tr : list Entry) pre e post k e' k' :
  ascending (omap phase tr) ->
  tr = pre ++ e :: post -> phase e = Some k ->
  In e' post -> phase e' = Some k' -> k <= k'.
Proof.
  intros H -> E Hin E'.
  assert (Hk : In k (omap phase [e])) by (apply phases_In; exists e; split; [now left | exact E]).
  change (pre ++ e :: post) with (pre ++ [e] ++ post) in H. rewrite !omap_app in H.
  apply ascending_app in H as (_ & H & _). apply ascending_app in H as (_ & _ & H).
  apply H; [exact Hk|]. apply phases_In. eauto.
Qed.

(** X20: the stages of a run follow one another, whatever the
    interleaving inside a [Promise.all]: an operation of a task is
    followed only by operations of tasks of the same or of a later
    [Promise.all]; the table is printed when every extraction is done
    and before any task of the moving stage starts. *)
Theorem stages_run_in_sequence schedules command w pre c i ev post :
  trace (main schedules command w) = pre ++ (OTask c i, ev) :: post ->
  (forall c' j ev', In (OTask c' j, ev') post -> c <= c')
  /\ (forall rows, In (OMain, EvTable rows) post -> c = 0)
  /\ (forall rows, In (OMain, EvTable rows) pre -> 1 <= c).
Proof.
  intros E. pose proof (main_phases schedules command w) as H.
  assert (Hc : phase (OTask c i, ev) = Some (match c with 0 => 0 | S c0 => S (S c0) end))
    by now destruct c.
  split; [|split].
  - intros c' j ev' Hin.
    assert (Hc' : phase (OTask c' j, ev') = Some (match c' with 0 => 0 | S c0 => S (S c0) end))
      by now destruct c'.
    pose proof (ascending_split _ _ _ _ _ _ _ H E Hc Hin Hc') as Hle.
    destruct c, c'; lia.
  - intros rows Hin.
    pose proof (ascending_split _ _ _ _ _ _ 1 H E Hc Hin eq_refl) as Hle.
    destruct c; [reflexivity | lia].
  - intros rows Hin. apply in_split in Hin as (a & b & ->).
    rewrite <- app_assoc in E. cbn [app] in E.
    assert (Hin : In (OTask c i, ev) (b ++ (OTask c i, ev) :: post)) by apply in_elt.
    pose proof (ascending_split _ _ _ _ 1 _ _ H E eq_refl Hin Hc) as Hle.
    destruct c; lia.
Qed.

End Phases.

(** * The properties at work

    The properties above, on the filesystem in memory. *)

Lemma scan_keeps_files_witness :
  let w := Demo.fresh [("a.jpg", Demo.File 0%Z 0%Z [Byte.x00]);
                       ("._a.jpg", Demo.File 0%Z 0%Z []);
                       ("sub", Demo.Dir);
                       (".DS_Store", Demo.File 0%Z 0%Z [])] in
  let fileNames := ["a.jpg"; "._a.jpg"; "sub"; ".DS_Store"] in
  @readdir Demo.collaborators w Demo.home = Some fileNames
  /\ snd (scan (C := Demo.collaborators) w) = inr ["/photos/a.jpg"]
  /\ ["/photos/a.jpg"]
     = List.filter (scanned (C := Demo.collaborators) w)
         (map (NodePath.join Demo.home) fileNames).
Proof.
  intros w fileNames. split; [reflexivity|]. split; [vm_compute; reflexivity|].
  apply (scan_keeps_files (C := Demo.collaborators) w fileNames ["/photos/a.jpg"]);
    vm_compute; reflexivity.
Defined.

Lemma scan_throws_on_unreadable_witness :
  let w := Demo.fresh [("a.jpg", Demo.File 0%Z 0%Z [Byte.x00]);
                       ("dangling", Demo.File 0%Z 0%Z []);
                       ("b.txt", Demo.File 0%Z 0%Z [])] in
  let fileNames := ["a.jpg"; "dangling"; "b.txt"] in
  @readdir Faulty.collaborators w Demo.home = Some fileNames
  /\ unreadable (C := Faulty.collaborators) w "/photos/dangling" = true
  /\ exists e, snd (scan (C := Faulty.collaborators) w) = inl e.
Proof.
  intros w fileNames. split; [reflexivity|]. split; [vm_compute; reflexivity|].
  apply (scan_throws_on_unreadable (C := Faulty.collaborators) w fileNames); [reflexivity|].
  exists "/photos/dangling". split; [right; left; reflexivity | vm_compute; reflexivity].
Defined.

Lemma descriptors_follow_scan_witness :
  exists st,
    stages_of (pipeline (C := Demo.collaborators) Demo.in_order Demo.photo_and_clip) = Some st
    /\ map FileInfo.path (baseFilesInfo st) = baseFiles st.
Proof.
  eexists. split; [vm_compute; reflexivity|].
  eapply (descriptors_follow_scan (C := Demo.collaborators) Demo.in_order Demo.photo_and_clip).
  vm_compute. reflexivity.
Defined.

Lemma failed_pipeline_moves_nothing_witness :
  let w := Demo.fresh [("a.jpg", Demo.File 0%Z 0%Z [])] in
  stages_of (pipeline (C := Demo.collaborators) Demo.in_order w) = None
  /\ final (main (C := Demo.collaborators) Demo.in_order (Some "move") w) = w.
Proof.
  intros w. split; [vm_compute; reflexivity|].
  apply (failed_pipeline_moves_nothing (C := Demo.collaborators) Demo.in_order (Some "move") w).
  vm_compute. reflexivity.
Defined.

Lemma nothing_to_organize_witness :
  let w := Demo.fresh [("sub", Demo.Dir); (".DS_Store", Demo.File 0%Z 0%Z [])] in
  snd (scan (C := Demo.collaborators) w) = inr []
  /\ outcome (main (C := Demo.collaborators) Demo.in_order (Some "move") w) = Returned 0.
Proof.
  intros w. split; [vm_compute; reflexivity|].
  apply (nothing_to_organize (C := Demo.collaborators) Demo.in_order (Some "move") w).
  vm_compute. reflexivity.
Defined.

Lemma groups_partition_descriptors_witness :
  exists files,
    group_files Demo.example_group = inr files
    /\ concat (map snd (JsObject.entries files)) ≡ₚ Demo.example_group.
Proof.
  eexists. split; [vm_compute; reflexivity|].
  eapply (groups_partition_descriptors Demo.example_group). vm_compute. reflexivity.
Defined.


Lemma plan_types_bounded_witness :
  exists pl,
    process_groups (C := Demo.collaborators) [("IMG_1", Demo.example_group)] = inr pl
    /\ length (type_dirs (C := Demo.collaborators) (filesPerTypeAndDate pl)) <= 4.
Proof.
  eexists. split; [vm_compute; reflexivity|].
  eapply (plan_types_bounded (C := Demo.collaborators) [("IMG_1", Demo.example_group)]).
  vm_compute. reflexivity.
Defined.

Lemma table_lists_every_descriptor_witness :
  exists st,
    stages_of (pipeline (C := Demo.collaborators) Demo.in_order Demo.photo_and_clip) = Some st
    /\ length (filesForInformation (plan st)) = length (baseFilesInfo st).
Proof.
  eexists. split; [vm_compute; reflexivity|].
  eapply (table_lists_every_descriptor (C := Demo.collaborators) Demo.in_order
            Demo.photo_and_clip).
  vm_compute. reflexivity.
Defined.

Lemma mkdir_follows_missing_test_witness :
  let run := main (C := Demo.collaborators) Demo.in_order (Some "move") Demo.photo_and_clip in
  trace run
  = firstn 20 (trace run)
      ++ (OTask 2 0, EvMkdir "/photos/Image/2023-05-01" true) :: skipn 21 (trace run)
  /\ In (OTask 2 0, EvExistsSync "/photos/Image/2023-05-01" false) (firstn 20 (trace run)).
Proof.
  intros run. split; [vm_compute; reflexivity|].
  apply (mkdir_follows_missing_test (C := Demo.collaborators) Demo.in_order (Some "move")
           Demo.photo_and_clip (firstn 20 (trace run)) (OTask 2 0)
           "/photos/Image/2023-05-01" true (skipn 21 (trace run))).
  vm_compute. reflexivity.
Defined.

Lemma refused_mkdir_ends_task_witness :
  let run := main (C := Faulty.collaborators) Demo.in_order (Some "move") Demo.photo_and_clip in
  trace run
  = firstn 16 (trace run) ++ (OTask 1 0, EvMkdir "/photos/Image" false) :: skipn 17 (trace run)
  /\ exists e, outcome run = Rejected e.
Proof.
  intros run. split; [vm_compute; reflexivity|].
  apply (refused_mkdir_ends_task (C := Faulty.collaborators) Demo.in_order (Some "move")
           Demo.photo_and_clip (firstn 16 (trace run)) 1 0 "/photos/Image"
           (skipn 17 (trace run))).
  vm_compute. reflexivity.
Defined.


Lemma every_file_moved_once_witness :
  let run := main (C := Demo.collaborators) Demo.in_order (Some "move") Demo.photo_and_clip in
  exists st,
    stages_of (pipeline (C := Demo.collaborators) Demo.in_order Demo.photo_and_clip) = Some st
    /\ renamed (trace run) ⊆+ baseFiles st.
Proof.
  intros run. eexists. split; [vm_compute; reflexivity|].
  eapply (every_file_moved_once (C := Demo.collaborators) Demo.in_order Demo.photo_and_clip).
  vm_compute. reflexivity.
Defined.

Lemma progress_bar_ends_full_witness :
  let run := main (C := Demo.collaborators) Demo.in_order (Some "move") Demo.photo_and_clip in
  exists st,
    stages_of (pipeline (C := Demo.collaborators) Demo.in_order Demo.photo_and_clip) = Some st
    /\ outcome run = Returned 0
    /\ bar_after (trace run) = Some (length (baseFiles st), length (baseFiles st)).
Proof.
  intros run. eexists. split; [vm_compute; reflexivity|]. split; [vm_compute; reflexivity|].
  eapply (progress_bar_ends_full (C := Demo.collaborators) Demo.in_order (Some "move")
            Demo.photo_and_clip).
  - vm_compute. reflexivity.
  - vm_compute. reflexivity.
Defined.

Lemma renames_never_collide_witness :
  let run := main (C := Demo.collaborators) Demo.in_order (Some "move") Demo.photo_and_clip in
  exists st,
    stages_of (pipeline (C := Demo.collaborators) Demo.in_order Demo.photo_and_clip) = Some st
    /\ NoDup ["a.jpg"; "b.mp4"]
    /\ NoDup (map snd (rename_pairs (trace run))).
Proof.
  intros run. eexists. split; [vm_compute; reflexivity|].
  assert (Hnd : NoDup ["a.jpg"; "b.mp4"]).
  { apply (bool_decide_unpack _). vm_compute. exact I. }
  split; [exact Hnd|].
  eapply (renames_never_collide (C := Demo.collaborators) Demo.in_order Demo.photo_and_clip
            _ ["a.jpg"; "b.mp4"]).
  - vm_compute. reflexivity.
  - reflexivity.
  - exact Hnd.
  - repeat constructor.
Defined.

Lemma stages_run_in_sequence_witness :
  let run := main (C := Demo.collaborators) Demo.in_order (Some "move") Demo.photo_and_clip in
  trace run
  = firstn 21 (trace run)
      ++ (OTask 2 0, EvRename "/photos/a.jpg" "/photos/Image/2023-05-01/a.jpg" true)
      :: skipn 22 (trace run)
  /\ forall c' j ev', In (OTask c' j, ev') (skipn 22 (trace run)) -> 2 <= c'.
Proof.
  intros run. split; [vm_compute; reflexivity|].
  apply (stages_run_in_sequence (C := Demo.collaborators) Demo.in_order (Some "move")
           Demo.photo_and_clip (firstn 21 (trace run)) 2 0
           (EvRename "/photos/a.jpg" "/photos/Image/2023-05-01/a.jpg" true)
           (skipn 22 (trace run))).
  vm_compute. reflexivity.
Defined.
